(** * Kart Racer: the vehicle motion model and the race-progress tracker

    A shallow embedding of [client/src/entities/Car.js] ([Car.update]) and of
    [client/src/entities/Checkpoint.js] ([CheckpointSystem]), then of what
    is around them: the start of [client/src/tracks/Track.js], the displays
    of [client/src/ui/HUD.js], the keyboard of
    [client/src/input/InputManager.js] and the frame of [client/src/Game.js].

    JavaScript numbers are IEEE doubles; they are idealised here as real
    numbers ([R]), so [Math.sin], [Math.cos], [Math.sqrt], [Math.abs],
    [Math.max] and [Math.min] are the functions of the same name on [R], and
    no value is NaN or infinite.  [null] is [None]; a number is truthy when it
    is not zero.

    The methods of the tracker run on a world: its fields, the successive
    values of [performance.now()], the timers that [setTimeout] has scheduled,
    and the notifications sent through its callbacks.  Meshes and materials
    are left out, but for the alpha that [hitCheckpoint] flashes; so is
    [console.log]. *)

From Stdlib Require Import Reals Lra List Bool Arith ZArith Lia.
From Stdlib Require String Ascii DecimalString DecimalZ DecimalPos.
Import ListNotations.

Open Scope R_scope.

(** ** Comparisons of numbers, as booleans *)

Definition Rltb (x y : R) : bool := if Rlt_dec x y then true else false.
Definition Rleb (x y : R) : bool := if Rle_dec x y then true else false.
Definition Rgtb (x y : R) : bool := Rltb y x.
Definition Rgeb (x y : R) : bool := Rleb y x.

Infix "<?" := Rltb (at level 70, no associativity) : R_scope.
Infix "<=?" := Rleb (at level 70, no associativity) : R_scope.
Infix ">?" := Rgtb (at level 70, no associativity) : R_scope.
Infix ">=?" := Rgeb (at level 70, no associativity) : R_scope.

(** ** [Math.atan2]

    [Math.atan2 y x] is the angle of the point [(x, y)], in [(-PI, PI]]; it is
    [0] at the origin. *)

Definition atan2 (y x : R) : R :=
  if 0 <? x then atan (y / x)
  else if x <? 0 then (if 0 <=? y then atan (y / x) + PI else atan (y / x) - PI)
  else if 0 <? y then PI / 2
  else if y <? 0 then - (PI / 2)
  else 0.

(** ** Babylon's [Vector3] *)

Record Vector3 : Type := mkVector3 { vx : R; vy : R; vz : R }.

Module Vector3Ops.

Definition add (a b : Vector3) : Vector3 :=
  mkVector3 (vx a + vx b) (vy a + vy b) (vz a + vz b).

Definition scale (a : Vector3) (k : R) : Vector3 :=
  mkVector3 (vx a * k) (vy a * k) (vz a * k).

Definition Distance (a b : Vector3) : R :=
  sqrt ((vx a - vx b) * (vx a - vx b)
        + (vy a - vy b) * (vy a - vy b)
        + (vz a - vz b) * (vz a - vz b)).

End Vector3Ops.

(** The distance of a position from the track centre, in the ground plane. *)
Definition planarDistance (p : Vector3) : R :=
  sqrt (vx p * vx p + vz p * vz p).

(** ** [utils/constants.js] *)

Module CAR_CONFIG.
Definition maxSpeed : R := 40.
Definition acceleration : R := 30.
Definition deceleration : R := 12.
Definition brakeForce : R := 40.
Definition turnSpeed : R := 18 / 10.
Definition width : R := 2.
Definition height : R := 8 / 10.
Definition length : R := 35 / 10.
End CAR_CONFIG.

(** ** [entities/Car.js] *)

(** The per-tick input of [InputManager.getInput]. *)
Record Input : Type := mkInput {
  accelerate : bool;
  brake : bool;
  turnLeft : bool;
  turnRight : bool
}.

(** The fields of a [Car] that [update] reads and writes: [currentSpeed],
    [rotation], [mesh.position] and [mesh.rotation]. *)
Record Car : Type := mkCar {
  currentSpeed : R;
  rotation : R;
  mesh_position : Vector3;
  mesh_rotation : Vector3
}.

Module CarModel.

Definition minSpeedToTurn : R := 5 / 10.

(** [innerRadius] and [outerRadius] of [update]: the track's radii with the
    car buffer taken off. *)
Definition innerRadius : R := 25 + 2.
Definition outerRadius : R := 45 - 2.

Definition turnDirection (input : Input) : R :=
  (if turnRight input then 1 else 0) - (if turnLeft input then 1 else 0).

(** Steering: the heading after the first step of [update]. *)
Definition steer (c : Car) (input : Input) (deltaTime : R) : R :=
  if Rabs (currentSpeed c) >? minSpeedToTurn then
    let turnRate := CAR_CONFIG.turnSpeed in
    let reverseMultiplier := if currentSpeed c >=? 0 then 1 else -1 in
    rotation c + turnDirection input * turnRate * reverseMultiplier * deltaTime
  else rotation c.

(** Acceleration, braking and friction: the speed before it is clamped. *)
Definition throttle (c : Car) (input : Input) (deltaTime : R) : R :=
  if accelerate input then currentSpeed c + CAR_CONFIG.acceleration * deltaTime
  else if brake input then currentSpeed c - CAR_CONFIG.brakeForce * deltaTime
  else if currentSpeed c >? 0 then
    Rmax 0 (currentSpeed c - CAR_CONFIG.deceleration * deltaTime)
  else if currentSpeed c <? 0 then
    Rmin 0 (currentSpeed c + CAR_CONFIG.deceleration * deltaTime)
  else currentSpeed c.

Definition clampSpeed (speed : R) : R :=
  let maxReverse := CAR_CONFIG.maxSpeed * (3 / 10) in
  Rmax (- maxReverse) (Rmin CAR_CONFIG.maxSpeed speed).

(** The candidate position [newPos]. *)
Definition candidate (c : Car) (input : Input) (deltaTime : R) : Vector3 :=
  let rot := steer c input deltaTime in
  let speed := clampSpeed (throttle c input deltaTime) in
  let forward := mkVector3 (sin rot) 0 (cos rot) in
  let moveAmount := Vector3Ops.scale forward (speed * deltaTime) in
  Vector3Ops.add (mesh_position c) moveAmount.

Definition update (c : Car) (input : Input) (deltaTime : R) : Car :=
  let rot := steer c input deltaTime in
  let speed := clampSpeed (throttle c input deltaTime) in
  let newPos := candidate c input deltaTime in
  let distFromCenter := sqrt (vx newPos * vx newPos + vz newPos * vz newPos) in
  if (distFromCenter >=? innerRadius) && (distFromCenter <=? outerRadius) then
    mkCar speed rot newPos (mkVector3 0 rot 0)
  else
    let speed' := speed * - (3 / 10) in
    let angle := atan2 (vx (mesh_position c)) (vz (mesh_position c)) in
    let clampedDist := Rmax (innerRadius + 1) (Rmin (outerRadius - 1) distFromCenter) in
    mkCar speed' rot
          (mkVector3 (sin angle * clampedDist) (vy (mesh_position c)) (cos angle * clampedDist))
          (mkVector3 0 rot 0).

Definition getPosition (c : Car) : Vector3 := mesh_position c.
Definition getRotationY (c : Car) : R := rotation c.
Definition getSpeed (c : Car) : R := currentSpeed c.

Definition reset (c : Car) (position : Vector3) (rot : R) : Car :=
  mkCar 0 rot
        (mkVector3 (vx position) (CAR_CONFIG.height / 2 + 1 / 10) (vz position))
        (mkVector3 (vx (mesh_rotation c)) rot (vz (mesh_rotation c))).

(** A run of ticks, each with its input and its [deltaTime]. *)
Definition run (c : Car) (ticks : list (Input * R)) : Car :=
  fold_left (fun c t => update c (fst t) (snd t)) ticks c.

End CarModel.

(** ** [entities/Checkpoint.js] *)

Inductive RaceState : Type := waiting | countdown | racing | finished.

Definition RaceState_eqb (a b : RaceState) : bool :=
  match a, b with
  | waiting, waiting | countdown, countdown | racing, racing | finished, finished => true
  | _, _ => false
  end.

(** The part of a track definition that [createCheckpoints] reads. *)
Record TrackDefinition : Type := mkTrackDefinition {
  td_innerRadius : R;
  td_outerRadius : R
}.

(** Modelled from the spec: [tracks/definitions/oval.js] is not among the
    sources; the radii are those [Car.update] names (track inner 25, track
    outer 45), which give the centre radius 35 of the spec's scenario. *)
Definition ovalTrack : TrackDefinition := mkTrackDefinition 25 45.

(** An entry of [this.checkpoints]; [cp_alpha] is [mesh.material.alpha]. *)
Record Checkpoint : Type := mkCheckpoint {
  cp_alpha : R;
  cp_index : nat;
  cp_position : Vector3;
  cp_radius : R;
  cp_angle : R
}.

Record CheckpointSystem : Type := mkCheckpointSystem {
  checkpoints : list Checkpoint;
  currentCheckpoint : nat;
  lapCount : nat;
  totalLaps : nat;
  raceStartTime : option R;
  lapTimes : list R;
  lastLapTime : option R;
  bestLapTime : option R;
  raceState : RaceState;
  countdownValue : Z;
  (** whether the constructor was given the callback *)
  onLapComplete : bool;
  onRaceFinish : bool
}.

(** The notifications the tracker sends, in the order they are sent. *)
Inductive Event : Type :=
| LapComplete (lap : nat) (lapTime : R)
| RaceFinish (totalTime : R) (bestLap : option R)
| CountdownTick (value : Z)
| CountdownGo.

(** The functions given to [setTimeout]: the [tick] closure of
    [startCountdown], and the closure of [hitCheckpoint] that restores the
    alpha of checkpoint [index]. *)
Inductive Callback : Type :=
| Tick
| Unflash (index : nat) (originalAlpha : R).

Record Timer : Type := mkTimer { callback : Callback; delay : nat }.

(** The tracker and what it acts on: the clock ([clock n] is the value of the
    [n]-th call of [performance.now()]), the timers scheduled and not yet run,
    and the notifications sent so far. *)
Record World : Type := mkWorld {
  sys : CheckpointSystem;
  clock : nat -> R;
  reads : nat;
  timers : list Timer;
  log : list Event
}.

(** Truthiness of a field that holds [null] or a number. *)
Definition truthy (v : option R) : bool :=
  match v with
  | None => false
  | Some t => if Req_dec_T t 0 then false else true
  end.

(** The number a field stands for in arithmetic ([null] is [0]). *)
Definition toNumber (v : option R) : R :=
  match v with None => 0 | Some t => t end.

Module Checkpoint.

(** *** Methods run on the world; [None] is a [TypeError] *)

Definition M (A : Type) : Type := World -> option (A * World).

Definition ret {A : Type} (a : A) : M A := fun w => Some (a, w).

Definition bind {A B : Type} (m : M A) (k : A -> M B) : M B :=
  fun w => match m w with
           | Some (a, w') => k a w'
           | None => None
           end.

Definition throw {A : Type} : M A := fun _ => None.

Declare Scope js_scope.
Delimit Scope js_scope with js.
Notation "x <- m ;; k" := (bind m (fun x => k))
  (at level 61, m at next level, right associativity) : js_scope.
Notation "m ;; k" := (bind m (fun _ => k))
  (at level 61, right associativity) : js_scope.
Open Scope js_scope.

Definition this : M CheckpointSystem := fun w => Some (sys w, w).

Definition assign (f : CheckpointSystem -> CheckpointSystem) : M unit :=
  fun w => Some (tt, mkWorld (f (sys w)) (clock w) (reads w) (timers w) (log w)).

Definition performance_now : M R :=
  fun w => Some (clock w (reads w),
                 mkWorld (sys w) (clock w) (S (reads w)) (timers w) (log w)).

Definition setTimeout (f : Callback) (ms : nat) : M unit :=
  fun w => Some (tt, mkWorld (sys w) (clock w) (reads w)
                             (timers w ++ [mkTimer f ms]) (log w)).

Definition notify (e : Event) : M unit :=
  fun w => Some (tt, mkWorld (sys w) (clock w) (reads w) (timers w) (log w ++ [e])).

Definition when (b : bool) (m : M unit) : M unit := if b then m else ret tt.

(** *** Field assignments *)

Definition set_checkpoints v (s : CheckpointSystem) :=
  mkCheckpointSystem v (currentCheckpoint s) (lapCount s) (totalLaps s)
    (raceStartTime s) (lapTimes s) (lastLapTime s) (bestLapTime s) (raceState s)
    (countdownValue s) (onLapComplete s) (onRaceFinish s).
Definition set_currentCheckpoint v (s : CheckpointSystem) :=
  mkCheckpointSystem (checkpoints s) v (lapCount s) (totalLaps s)
    (raceStartTime s) (lapTimes s) (lastLapTime s) (bestLapTime s) (raceState s)
    (countdownValue s) (onLapComplete s) (onRaceFinish s).
Definition set_lapCount v (s : CheckpointSystem) :=
  mkCheckpointSystem (checkpoints s) (currentCheckpoint s) v (totalLaps s)
    (raceStartTime s) (lapTimes s) (lastLapTime s) (bestLapTime s) (raceState s)
    (countdownValue s) (onLapComplete s) (onRaceFinish s).
Definition set_raceStartTime v (s : CheckpointSystem) :=
  mkCheckpointSystem (checkpoints s) (currentCheckpoint s) (lapCount s) (totalLaps s)
    v (lapTimes s) (lastLapTime s) (bestLapTime s) (raceState s)
    (countdownValue s) (onLapComplete s) (onRaceFinish s).
Definition set_lapTimes v (s : CheckpointSystem) :=
  mkCheckpointSystem (checkpoints s) (currentCheckpoint s) (lapCount s) (totalLaps s)
    (raceStartTime s) v (lastLapTime s) (bestLapTime s) (raceState s)
    (countdownValue s) (onLapComplete s) (onRaceFinish s).
Definition set_lastLapTime v (s : CheckpointSystem) :=
  mkCheckpointSystem (checkpoints s) (currentCheckpoint s) (lapCount s) (totalLaps s)
    (raceStartTime s) (lapTimes s) v (bestLapTime s) (raceState s)
    (countdownValue s) (onLapComplete s) (onRaceFinish s).
Definition set_bestLapTime v (s : CheckpointSystem) :=
  mkCheckpointSystem (checkpoints s) (currentCheckpoint s) (lapCount s) (totalLaps s)
    (raceStartTime s) (lapTimes s) (lastLapTime s) v (raceState s)
    (countdownValue s) (onLapComplete s) (onRaceFinish s).
Definition set_raceState v (s : CheckpointSystem) :=
  mkCheckpointSystem (checkpoints s) (currentCheckpoint s) (lapCount s) (totalLaps s)
    (raceStartTime s) (lapTimes s) (lastLapTime s) (bestLapTime s) v
    (countdownValue s) (onLapComplete s) (onRaceFinish s).
Definition set_countdownValue v (s : CheckpointSystem) :=
  mkCheckpointSystem (checkpoints s) (currentCheckpoint s) (lapCount s) (totalLaps s)
    (raceStartTime s) (lapTimes s) (lastLapTime s) (bestLapTime s) (raceState s)
    v (onLapComplete s) (onRaceFinish s).

(** [checkpoints[index].mesh.material.alpha = a]; the array itself is never
    reassigned, so an entry is named by its index. *)
Fixpoint set_alpha_at (index : nat) (a : R) (cps : list Checkpoint) : list Checkpoint :=
  match cps, index with
  | [], _ => []
  | cp :: rest, O =>
      mkCheckpoint a (cp_index cp) (cp_position cp) (cp_radius cp) (cp_angle cp) :: rest
  | cp :: rest, S i => cp :: set_alpha_at i a rest
  end.

Definition set_alpha (index : nat) (a : R) (s : CheckpointSystem) : CheckpointSystem :=
  set_checkpoints (set_alpha_at index a (checkpoints s)) s.

(** *** The constructor *)

Definition checkpointAngles : list R := [0; PI / 2; PI; PI * (15 / 10)].

Fixpoint forEach_push (trackDef : TrackDefinition) (index : nat) (angles : list R)
  : list Checkpoint :=
  match angles with
  | [] => []
  | angle :: rest =>
      let trackWidth := td_outerRadius trackDef - td_innerRadius trackDef in
      let centerRadius := (td_innerRadius trackDef + td_outerRadius trackDef) / 2 in
      let x := cos angle * centerRadius in
      let z := sin angle * centerRadius in
      mkCheckpoint (4 / 10) index (mkVector3 x 0 z) (trackWidth / 2 + 2) angle
        :: forEach_push trackDef (S index) rest
  end.

Definition createCheckpoints (trackDef : TrackDefinition) : list Checkpoint :=
  forEach_push trackDef 0 checkpointAngles.

Definition constructor (trackDefinition : TrackDefinition)
           (onLapComplete onRaceFinish : bool) : CheckpointSystem :=
  mkCheckpointSystem (createCheckpoints trackDefinition) 0 0 3 None [] None None
                     waiting 3 onLapComplete onRaceFinish.

(** The world right after [new CheckpointSystem(...)]. *)
Definition newWorld (trackDefinition : TrackDefinition)
           (onLapComplete onRaceFinish : bool) (clk : nat -> R) : World :=
  mkWorld (constructor trackDefinition onLapComplete onRaceFinish) clk 0 [] [].

(** *** The methods *)

Definition finishRace : M unit :=
  assign (set_raceState finished) ;;
  now <- performance_now ;;
  s <- this ;;
  let totalTime := now - toNumber (raceStartTime s) in
  when (onRaceFinish s) (notify (RaceFinish totalTime (bestLapTime s))).

Definition completeLap : M unit :=
  assign (fun s => set_lapCount (S (lapCount s)) s) ;;
  assign (set_currentCheckpoint 0) ;;
  now <- performance_now ;;
  s <- this ;;
  let lapTime := if truthy (lastLapTime s)
                 then now - toNumber (lastLapTime s)
                 else now - toNumber (raceStartTime s) in
  assign (set_lastLapTime (Some now)) ;;
  assign (fun s => set_lapTimes (lapTimes s ++ [lapTime]) s) ;;
  s <- this ;;
  when (if negb (truthy (bestLapTime s)) then true
        else lapTime <? toNumber (bestLapTime s))
       (assign (set_bestLapTime (Some lapTime))) ;;
  s <- this ;;
  when (onLapComplete s) (notify (LapComplete (lapCount s) lapTime)) ;;
  s <- this ;;
  when (Nat.leb (totalLaps s) (lapCount s)) finishRace.

Definition hitCheckpoint (index : nat) : M unit :=
  s <- this ;;
  if negb (Nat.eqb index (currentCheckpoint s)) then ret tt
  else
    match nth_error (checkpoints s) index with
    | None => throw
    | Some cp =>
        let originalAlpha := cp_alpha cp in
        assign (set_alpha index (8 / 10)) ;;
        setTimeout (Unflash index originalAlpha) 200 ;;
        assign (fun s => set_currentCheckpoint (S (currentCheckpoint s)) s) ;;
        s <- this ;;
        when (Nat.leb (List.length (checkpoints s)) (currentCheckpoint s)) completeLap
    end.

Definition update (carPosition : Vector3) : M unit :=
  s <- this ;;
  if negb (RaceState_eqb (raceState s) racing) then ret tt
  else if Nat.leb (totalLaps s) (lapCount s) then ret tt
  else
    when (negb (truthy (raceStartTime s)))
         (now <- performance_now ;; assign (set_raceStartTime (Some now))) ;;
    s <- this ;;
    match nth_error (checkpoints s) (currentCheckpoint s) with
    | None => throw
    | Some targetCheckpoint =>
        let distance :=
          Vector3Ops.Distance (mkVector3 (vx carPosition) 0 (vz carPosition))
                              (cp_position targetCheckpoint) in
        when (distance <? cp_radius targetCheckpoint)
             (hitCheckpoint (currentCheckpoint s))
    end.

(** The closure [tick] of [startCountdown]; [onTick] and [onGo] are the
    functions [startCountdown] was given, seen here as notifications. *)
Definition tick : M unit :=
  s <- this ;;
  if (0 <? countdownValue s)%Z then
    notify (CountdownTick (countdownValue s)) ;;
    assign (fun s => set_countdownValue (countdownValue s - 1)%Z s) ;;
    setTimeout Tick 1000
  else
    notify CountdownGo ;;
    assign (set_raceState racing) ;;
    now <- performance_now ;;
    assign (set_raceStartTime (Some now)).

Definition startCountdown : M unit :=
  assign (set_raceState countdown) ;;
  assign (set_countdownValue 3%Z) ;;
  setTimeout Tick 500.

Definition canMove : M bool :=
  s <- this ;; ret (RaceState_eqb (raceState s) racing).

Definition getTotalTime : M R :=
  s <- this ;;
  if negb (truthy (raceStartTime s)) then ret 0
  else if RaceState_eqb (raceState s) finished then
    ret (fold_left (fun a b => a + b) (lapTimes s) 0)
  else
    now <- performance_now ;;
    ret (now - toNumber (raceStartTime s)).

Definition getCurrentLap : M nat :=
  s <- this ;; ret (Nat.min (lapCount s + 1) (totalLaps s)).

Definition getTotalLaps : M nat := s <- this ;; ret (totalLaps s).

Definition getRaceTime : M R := getTotalTime.

Definition isRaceFinished : M bool :=
  s <- this ;; ret (RaceState_eqb (raceState s) finished).

Definition getState : M RaceState := s <- this ;; ret (raceState s).

Definition reset : M unit :=
  assign (set_currentCheckpoint 0) ;;
  assign (set_lapCount 0) ;;
  assign (set_raceStartTime None) ;;
  assign (set_lapTimes []) ;;
  assign (set_lastLapTime None) ;;
  assign (set_bestLapTime None) ;;
  assign (set_raceState waiting) ;;
  assign (set_countdownValue 3%Z).

(** *** The event loop *)

Definition runCallback (f : Callback) : M unit :=
  match f with
  | Tick => tick
  | Unflash index originalAlpha => assign (set_alpha index originalAlpha)
  end.

Fixpoint remove_nth {A : Type} (n : nat) (l : list A) : list A :=
  match l, n with
  | [], _ => []
  | _ :: rest, O => rest
  | a :: rest, S i => a :: remove_nth i rest
  end.

(** The [n]-th pending timer expires: it leaves the queue and its function
    runs.  Nothing happens when there is no such timer. *)
Definition fire (n : nat) : M unit :=
  fun w =>
    match nth_error (timers w) n with
    | None => Some (tt, w)
    | Some t =>
        runCallback (callback t)
          (mkWorld (sys w) (clock w) (reads w) (remove_nth n (timers w)) (log w))
    end.

(** What can happen to a tracker: a call of one of the methods that change it
    or read the clock, or a timer that expires. *)
Inductive Op : Type :=
| OpStartCountdown
| OpUpdate (carPosition : Vector3)
| OpHitCheckpoint (index : nat)
| OpReset
| OpFire (n : nat)
| OpGetTotalTime.

Definition exec (o : Op) : M unit :=
  match o with
  | OpStartCountdown => startCountdown
  | OpUpdate p => update p
  | OpHitCheckpoint i => hitCheckpoint i
  | OpReset => reset
  | OpFire n => fire n
  | OpGetTotalTime => getTotalTime ;; ret tt
  end.

Fixpoint execAll (ops : list Op) : M unit :=
  match ops with
  | [] => ret tt
  | o :: rest => exec o ;; execAll rest
  end.

(** [performance.now()] is positive. *)
Definition clock_positive (clk : nat -> R) : Prop := forall n, 0 < clk n.

(** The worlds a tracker can be in, whatever the clock says. *)
Inductive Reachable : World -> Prop :=
| Reachable_new trackDefinition onLap onFinish clk :
    Reachable (newWorld trackDefinition onLap onFinish clk)
| Reachable_step w o w' :
    Reachable w -> exec o w = Some (tt, w') -> Reachable w'.

End Checkpoint.

(** ** Sample inputs and views of the state *)

(** A car on the start line, at rest, and a car next to the outer wall that
    heads straight for it at speed 20. *)
Definition carOnGrid : Car :=
  mkCar 0 0 (mkVector3 35 (1 / 2) 0) (mkVector3 0 0 0).

Definition carAtWall : Car :=
  mkCar 20 0 (mkVector3 0 (1 / 2) (429 / 10)) (mkVector3 0 0 0).

Definition noInput : Input := mkInput false false false false.
Definition steerLeft : Input := mkInput false false true false.

(** What of a checkpoint is geometry: all but the alpha of its mesh. *)
Definition geometry (cp : Checkpoint) : nat * Vector3 * R * R :=
  (cp_index cp, cp_position cp, cp_radius cp, cp_angle cp).


(** The duration [completeLap] records for a lap that ends at [now], and the
    best lap it keeps. *)
Definition lapTimeAt (s : CheckpointSystem) (now : R) : R :=
  if truthy (lastLapTime s) then now - toNumber (lastLapTime s)
  else now - toNumber (raceStartTime s).

Definition bestLapAfter (s : CheckpointSystem) (lapTime : R) : option R :=
  if (if negb (truthy (bestLapTime s)) then true else lapTime <? toNumber (bestLapTime s))
  then Some lapTime else bestLapTime s.

(** The world a checkpoint hit leaves before it looks at the lap: the
    checkpoint flashes, its alpha is to be restored, and the next one is
    expected. *)
Definition afterHit (w : World) (cp : Checkpoint) : World :=
  let s := sys w in
  mkWorld (Checkpoint.set_currentCheckpoint (S (currentCheckpoint s))
             (Checkpoint.set_alpha (currentCheckpoint s) (8 / 10) s))
          (clock w) (reads w)
          (timers w ++ [mkTimer (Unflash (currentCheckpoint s) (cp_alpha cp)) 200])
          (log w).

(** The world after the first step of [update] while racing: the start of the
    race is stamped when it was not. *)
Definition stampStart (w : World) : World :=
  if truthy (raceStartTime (sys w)) then w
  else mkWorld (Checkpoint.set_raceStartTime (Some (clock w (reads w))) (sys w))
               (clock w) (S (reads w)) (timers w) (log w).

(** The car is in the detection zone of a checkpoint. *)
Definition inZone (carPosition : Vector3) (cp : Checkpoint) : Prop :=
  Vector3Ops.Distance (mkVector3 (vx carPosition) 0 (vz carPosition)) (cp_position cp)
  < cp_radius cp.

(** What every reachable tracker satisfies. *)
Definition wellFormed (w : World) : Prop :=
  List.length (checkpoints (sys w)) = 4%nat /\
  (currentCheckpoint (sys w) < 4)%nat /\
  lapCount (sys w) = List.length (lapTimes (sys w)) /\
  totalLaps (sys w) = 3%nat.

(** What holds besides when the clock is positive: the timestamps kept are
    positive, and a race that runs has its start stamped. *)
Definition stamped (w : World) : Prop :=
  (raceState (sys w) = racing -> exists t, raceStartTime (sys w) = Some t) /\
  (forall t, raceStartTime (sys w) = Some t -> 0 < t) /\
  (forall t, lastLapTime (sys w) = Some t -> 0 < t).

Definition invariant (w : World) : Prop :=
  wellFormed w /\ (Checkpoint.clock_positive (clock w) -> stamped w).

(** A clock that ticks every millisecond from 1000 on, and a tracker just
    built on the oval track with both callbacks. *)
Definition sampleClock (n : nat) : R := 1000 + INR n.

Definition freshWorld : World := Checkpoint.newWorld ovalTrack true true sampleClock.

(** *** Runs of a race *)

(** The car on each of the four checkpoints of the oval track. *)
Definition onCheckpoint0 : Vector3 := mkVector3 35 0 0.
Definition onCheckpoint1 : Vector3 := mkVector3 0 0 35.
Definition onCheckpoint2 : Vector3 := mkVector3 (-35) 0 0.
Definition onCheckpoint3 : Vector3 := mkVector3 0 0 (-35).

(** A lap driven through [update], and a lap made of direct calls of
    [hitCheckpoint]. *)
Definition lapByUpdates : list Checkpoint.Op :=
  [Checkpoint.OpUpdate onCheckpoint0; Checkpoint.OpUpdate onCheckpoint1;
   Checkpoint.OpUpdate onCheckpoint2; Checkpoint.OpUpdate onCheckpoint3].

Definition lapByHits : list Checkpoint.Op :=
  [Checkpoint.OpHitCheckpoint 0; Checkpoint.OpHitCheckpoint 1;
   Checkpoint.OpHitCheckpoint 2; Checkpoint.OpHitCheckpoint 3].

(** [startCountdown()] and its four timers: "3", "2", "1", "GO!". *)
Definition countdownToGo : list Checkpoint.Op :=
  [Checkpoint.OpStartCountdown; Checkpoint.OpFire 0; Checkpoint.OpFire 0;
   Checkpoint.OpFire 0; Checkpoint.OpFire 0].

(** A whole race: the countdown and three laps. *)
Definition fullRace : list Checkpoint.Op :=
  countdownToGo ++ lapByUpdates ++ lapByUpdates ++ lapByUpdates.

(** A race restarted during the countdown, as [Game.restartRace] does when R
    is pressed: the countdown starts at 0 ms and says "3" at 500 ms; at 600 ms
    the tracker is reset and the countdown started again.  The timers then
    expire in the order of their due times: the new one at 1100 ms, the one
    left from the first countdown at 1500 ms, then 2100, 2500 and 3100 ms. *)
Definition restartDuringCountdown : list Checkpoint.Op :=
  [Checkpoint.OpStartCountdown; Checkpoint.OpFire 0;
   Checkpoint.OpReset; Checkpoint.OpStartCountdown;
   Checkpoint.OpFire 1; Checkpoint.OpFire 0; Checkpoint.OpFire 0;
   Checkpoint.OpFire 0; Checkpoint.OpFire 0].

(** A clock that reads the same, 1000 ms, when the race starts and when the
    first lap is completed, then 1500 ms and 2000 ms. *)
Definition stuckClock (n : nat) : R :=
  match n with
  | 0%nat | 1%nat => 1000
  | 2%nat => 1500
  | _ => 2000
  end.

(** The least of a list of numbers. *)
Fixpoint minimum (l : list R) : option R :=
  match l with
  | [] => None
  | x :: rest =>
      match minimum rest with
      | None => Some x
      | Some m => Some (Rmin x m)
      end
  end.

(** The countdown closures that wait in the timer queue, and the times "GO!"
    was said. *)
Definition isTick (t : Timer) : bool :=
  match callback t with Tick => true | Unflash _ _ => false end.

Definition pendingTicks (w : World) : nat := List.length (filter isTick (timers w)).

Definition isGo (e : Event) : bool :=
  match e with CountdownGo => true | _ => false end.

Definition goCount (w : World) : nat := List.length (filter isGo (log w)).

(** Countdown closures in the queue and GOs said: the countdowns started. *)
Definition chains (w : World) : nat := (pendingTicks w + goCount w)%nat.

Definition startsCountdown (o : Checkpoint.Op) : bool :=
  match o with Checkpoint.OpStartCountdown => true | _ => false end.

(** The tracker of [freshWorld] when its countdown has said GO. *)
Definition gridWorld : World :=
  mkWorld (Checkpoint.set_raceStartTime (Some (sampleClock 0))
             (Checkpoint.set_raceState racing
                (Checkpoint.set_countdownValue 0%Z (Checkpoint.constructor ovalTrack true true))))
          sampleClock 1 []
          [CountdownTick 3; CountdownTick 2; CountdownTick 1; CountdownGo].

(** The best lap is the least of the lap times, as long as none of them is
    zero. *)
Definition bestIsMinimum (w : World) : Prop :=
  Forall (fun t => t <> 0) (lapTimes (sys w)) ->
  bestLapTime (sys w) = minimum (lapTimes (sys w)).

(** The [onRaceFinish] calls made so far. *)
Definition isRaceFinish (e : Event) : bool :=
  match e with RaceFinish _ _ => true | _ => false end.

Definition finishCount (w : World) : nat := List.length (filter isRaceFinish (log w)).

(** A race session under way or over: racing with laps left and no
    [onRaceFinish] call yet, or finished with all laps done and one call. *)
Definition session (w : World) : Prop :=
  onRaceFinish (sys w) = true /\
  ((raceState (sys w) = racing /\
    (lapCount (sys w) < totalLaps (sys w))%nat /\ finishCount w = 0%nat) \/
   (raceState (sys w) = finished /\
    lapCount (sys w) = totalLaps (sys w) /\ finishCount w = 1%nat)).

(** ** Further views of the state *)

(** What an operation does to the laps and to the checkpoints. *)
Definition lapsGrow (w w' : World) : Prop :=
  map geometry (checkpoints (sys w')) = map geometry (checkpoints (sys w)) /\
  (lapCount (sys w) <= lapCount (sys w'))%nat /\
  exists suffix,
    lapTimes (sys w') = lapTimes (sys w) ++ suffix /\ (List.length suffix <= 1)%nat.

Definition sumLaps (l : list R) : R := fold_left (fun a b => a + b) l 0.

(** The race is over: [finishRace] read the clock right after [completeLap]
    did, and told [onRaceFinish] once, the time from [start] to its own
    reading and the best lap. *)
Definition finishStamp (start : R) (w : World) : Prop :=
  raceState (sys w) = finished ->
  exists n,
    reads w = S (S n) /\
    lastLapTime (sys w) = Some (clock w n) /\
    filter isRaceFinish (log w)
    = [RaceFinish (clock w (S n) - start) (bestLapTime (sys w))].

Module Track.

Definition getStartPosition (definition : TrackDefinition) : Vector3 :=
  let centerRadius := (td_innerRadius definition + td_outerRadius definition) / 2 in
  mkVector3 centerRadius 0 0.

Definition getStartRotation : R := 0.

End Track.

(** The checkpoints passed since the race began: four a lap, and those of
    the lap under way. *)
Definition checkpointsPassed (w : World) : nat :=
  (List.length (checkpoints (sys w)) * lapCount (sys w) + currentCheckpoint (sys w))%nat.

(** The detection zones of two neighbouring gates do not meet: the detection
    radius is at most the centre radius over the square root of two. *)
Definition zonesApart (trackDef : TrackDefinition) : Prop :=
  let trackWidth := td_outerRadius trackDef - td_innerRadius trackDef in
  let centerRadius := (td_innerRadius trackDef + td_outerRadius trackDef) / 2 in
  0 <= trackWidth / 2 + 2 /\
  2 * ((trackWidth / 2 + 2) * (trackWidth / 2 + 2)) <= centerRadius * centerRadius.

(** The tracker has nothing to do with the car at [p]: the race is not on,
    or the car is outside the zone of the gate expected. *)
Definition idleAt (p : Vector3) (w : World) : Prop :=
  raceState (sys w) <> racing \/
  (totalLaps (sys w) <= lapCount (sys w))%nat \/
  exists cp,
    nth_error (checkpoints (sys w)) (currentCheckpoint (sys w)) = Some cp /\ ~ inZone p cp.

(** *** Race sessions *)

(** What reaches the tracker between the GO and the end of a race, short of
    a restart: each frame [Game.update] calls [update] with the position of
    the car and, for the HUD, [getRaceTime] (the other getters it calls
    change nothing); the timers of the checkpoint flashes expire. *)
Definition duringRace (o : Checkpoint.Op) : bool :=
  match o with
  | Checkpoint.OpUpdate _ | Checkpoint.OpFire _ | Checkpoint.OpGetTotalTime => true
  | _ => false
  end.

(** The calls a game makes on its tracker ([startCountdown], [update],
    [getRaceTime], [reset]), and the timers.  [hitCheckpoint] is not one of
    them: [update] alone calls it. *)
Definition calledByGame (o : Checkpoint.Op) : bool :=
  match o with
  | Checkpoint.OpHitCheckpoint _ => false
  | _ => true
  end.

(** The states a game brings its tracker to. *)
Inductive Driven : World -> Prop :=
| Driven_new trackDefinition onLap onFinish clk :
    Driven (Checkpoint.newWorld trackDefinition onLap onFinish clk)
| Driven_step w o w' :
    Driven w -> calledByGame o = true -> Checkpoint.exec o w = Some (tt, w') -> Driven w'.

(** The lap times of laps that end at the times [ends], the first of them
    begun at [start]: each lap runs from the end of the one before. *)
Fixpoint lapsBetween (start : R) (ends : list R) : list R :=
  match ends with
  | [] => []
  | e :: rest => (e - start) :: lapsBetween e rest
  end.

(** Clock readings taken one after the other, none before the reading
    [from], all before the reading [upto]. *)
Fixpoint inOrder (from : nat) (readings : list nat) (upto : nat) : Prop :=
  match readings with
  | [] => (from <= upto)%nat
  | n :: rest => (from <= n)%nat /\ inOrder (S n) rest upto
  end.

(** The laps are timed end to end: the race began at [start], and the laps
    done ended at the clock readings [ends]. *)
Definition endToEnd (start : R) (w : World) (ends : list nat) : Prop :=
  raceStartTime (sys w) = Some start /\
  inOrder 1 ends (reads w) /\
  lapTimes (sys w) = lapsBetween start (map (clock w) ends) /\
  lastLapTime (sys w) = last (map (fun n => Some (clock w n)) ends) None.

(** The clock of a race of three laps of 20 s, 18 s and 21 s: GO at 1 s; the
    HUD reads the clock 16 ms after the first and after the second lap, and
    [finishRace] 1 ms after the third. *)
Definition raceClock (n : nat) : R :=
  nth n [1000; 21000; 21016; 39000; 39016; 60000] 60001.

Definition raceWorld : World := Checkpoint.newWorld ovalTrack true true raceClock.

(** The race after its first lap: the HUD asks for the race time and the
    flash of a checkpoint ends, then come the second lap, the same again, and
    the third lap. *)
Definition lapsTwoAndThree : list Checkpoint.Op :=
  [Checkpoint.OpGetTotalTime; Checkpoint.OpFire 0]
  ++ lapByUpdates ++ [Checkpoint.OpGetTotalTime; Checkpoint.OpFire 0]
  ++ lapByUpdates ++ [Checkpoint.OpGetTotalTime].

(** The three laps of a race, from the GO on. *)
Definition threeLaps : list Checkpoint.Op := lapByUpdates ++ lapsTwoAndThree.

(** ** The JavaScript built-ins of the displays

    [Math.floor] and [Math.round] return an integer-valued number: it is
    kept as an integer.  [toString] is that of such a number, its decimal
    digits (what JavaScript prints below [1e21]). *)

Module Js.

Import String Ascii.
Local Open Scope string_scope.

Definition Math_floor (x : R) : Z := Zfloor x.

(** [Math.round]: the nearest integer, a half going up. *)
Definition Math_round (x : R) : Z := Zfloor (x + 1 / 2).

(** [x % m]: what is left of [x] when [m] is taken off a whole number of
    times, counted towards zero; it has the sign of [x]. *)
Definition trunc (x : R) : Z := if (0 <=? x)%R then Zfloor x else Zceil x.

Definition rem (x m : R) : R := x - m * IZR (trunc (x / m)).

Definition toString (n : Z) : string :=
  DecimalString.NilZero.string_of_int (Z.to_int n).

Fixpoint repeatChar (c : ascii) (n : nat) : string :=
  match n with
  | O => ""
  | S k => String c (repeatChar c k)
  end.

(** [s.padStart(targetLength, c)] with a pad of one character. *)
Definition padStart (targetLength : nat) (c : ascii) (s : string) : string :=
  repeatChar c (targetLength - String.length s) ++ s.

End Js.

(** ** [CheckpointSystem.formatTime] *)

Module CheckpointText.

Import String Ascii.
Local Open Scope string_scope.

Definition formatTime (ms : R) : string :=
  let totalSeconds := ms / 1000 in
  let minutes := Js.Math_floor (totalSeconds / 60) in
  let seconds := Js.Math_floor (Js.rem totalSeconds 60) in
  let milliseconds := Js.Math_floor (Js.rem ms 1000) in
  Js.toString minutes ++ ":" ++ Js.padStart 2 "0" (Js.toString seconds)
    ++ "." ++ Js.padStart 3 "0" (Js.toString milliseconds).

End CheckpointText.

(** Reading a time back: the minutes before the colon, two digits of
    seconds, a point and three digits of milliseconds; the result is in
    milliseconds. *)

Module TimeText.

Import String Ascii.
Local Open Scope string_scope.

Fixpoint splitAtColon (s : string) : option (string * string) :=
  match s with
  | EmptyString => None
  | String c rest =>
      if Ascii.eqb c ":" then Some (EmptyString, rest)
      else match splitAtColon rest with
           | Some (a, b) => Some (String c a, b)
           | None => None
           end
  end.

Definition readNumber (s : string) : option Z :=
  option_map Z.of_int (DecimalString.NilZero.int_of_string s).

Definition readTime (s : string) : option Z :=
  match splitAtColon s with
  | Some (minutes, String s1 (String s2 (String dot (String m1 (String m2 (String m3 "")))))) =>
      if Ascii.eqb dot "." then
        match readNumber minutes,
              readNumber (String s1 (String s2 "")),
              readNumber (String m1 (String m2 (String m3 ""))) with
        | Some m, Some s, Some ml => Some (60000 * m + 1000 * s + ml)%Z
        | _, _, _ => None
        end
      else None
  | _ => None
  end.

(** A string of [n] digits that reads [z]. *)
Definition paddedTo (n : nat) (z : Z) (s : string) : bool :=
  Nat.eqb (String.length s) n &&
  match readNumber s with
  | Some v => Z.eqb v z
  | None => false
  end.

(** The three numbers [formatTime] prints. *)
Definition timeParts (ms : R) : Z * Z * Z :=
  let totalSeconds := ms / 1000 in
  (Js.Math_floor (totalSeconds / 60),
   Js.Math_floor (Js.rem totalSeconds 60),
   Js.Math_floor (Js.rem ms 1000)).

End TimeText.

(** ** [ui/HUD.js]

    The texts of the elements the HUD writes, and whether the finish
    overlay is hidden.  Styles are left out, and so is the class that
    [showMessage] puts on the message for [duration] milliseconds. *)

Module HUD.

Import String Ascii.
Local Open Scope string_scope.

Record HUD : Type := mkHUD {
  speedEl : string;
  lapEl : string;
  timerEl : string;
  bestLapEl : string;
  messageEl : string;
  finishHidden : bool;
  finishTotalEl : string;
  finishBestEl : string
}.

(** The texts of the markup of [createHUD]. *)
Definition createHUD : HUD :=
  mkHUD "0" "1/3" "0:00.000" "--:--.---" "" true "0:00.000" "0:00.000".

(** [formatTime(ms)]; [ms] is a number or [null]. *)
Definition formatTime (ms : option R) : string :=
  if negb (truthy ms) || (toNumber ms <=? 0)%R then "0:00.000"
  else
    let ms := toNumber ms in
    let totalSeconds := ms / 1000 in
    let minutes := Js.Math_floor (totalSeconds / 60) in
    let seconds := Js.Math_floor (Js.rem totalSeconds 60) in
    let milliseconds := Js.Math_floor (Js.rem ms 1000) in
    Js.toString minutes ++ ":" ++ Js.padStart 2 "0" (Js.toString seconds)
      ++ "." ++ Js.padStart 3 "0" (Js.toString milliseconds).

(** The speed shown, in km/h. *)
Definition speedKmh (speed : R) : Z := Z.abs (Js.Math_round (speed * (36 / 10))).

Definition update (speed : R) (currentLap totalLaps : nat) (raceTime : R)
           (bestLap : option R) (h : HUD) : HUD :=
  mkHUD (Js.toString (speedKmh speed))
        (Js.toString (Z.of_nat currentLap) ++ "/" ++ Js.toString (Z.of_nat totalLaps))
        (formatTime (Some raceTime))
        (if truthy bestLap then formatTime bestLap else bestLapEl h)
        (messageEl h) (finishHidden h) (finishTotalEl h) (finishBestEl h).

Definition showMessage (text : string) (h : HUD) : HUD :=
  mkHUD (speedEl h) (lapEl h) (timerEl h) (bestLapEl h) text
        (finishHidden h) (finishTotalEl h) (finishBestEl h).

Definition showFinish (totalTime : R) (bestLap : option R) (h : HUD) : HUD :=
  mkHUD (speedEl h) (lapEl h) (timerEl h) (bestLapEl h) (messageEl h)
        false (formatTime (Some totalTime)) (formatTime bestLap).

Definition hideFinish (h : HUD) : HUD :=
  mkHUD (speedEl h) (lapEl h) (timerEl h) (bestLapEl h) (messageEl h)
        true (finishTotalEl h) (finishBestEl h).

End HUD.

(** ** [input/InputManager.js]

    [keysPressed] is a [Set] of key codes: here the list of its members in
    the order they came in, without repetition.  The third listener, which
    keeps the arrow keys from scrolling the page, changes nothing here. *)

Module InputManager.

Import String.
Local Open Scope string_scope.

Record Bindings : Type := mkBindings {
  b_accelerate : string;
  b_brake : string;
  b_turnLeft : string;
  b_turnRight : string;
  b_reset : string
}.

Definition DEFAULT_BINDINGS : Bindings :=
  mkBindings "KeyW" "KeyS" "KeyQ" "KeyE" "KeyR".

Definition PLAYER2_BINDINGS : Bindings :=
  mkBindings "ArrowUp" "ArrowDown" "ArrowLeft" "ArrowRight" "Backspace".

Record InputManager : Type := mkInputManager {
  keysPressed : list string;
  bindings : Bindings
}.

(** [Set.prototype.has], [add] and [delete]. *)
Definition has (code : string) (keys : list string) : bool :=
  existsb (String.eqb code) keys.

Definition add (code : string) (keys : list string) : list string :=
  if has code keys then keys else (keys ++ [code])%list.

Definition delete (code : string) (keys : list string) : list string :=
  filter (fun k => negb (String.eqb code k)) keys.

Definition constructor (playerNumber : nat) : InputManager :=
  mkInputManager [] (if Nat.eqb playerNumber 1 then DEFAULT_BINDINGS else PLAYER2_BINDINGS).

(** The listeners of [keydown] and [keyup]. *)
Definition keydown (code : string) (im : InputManager) : InputManager :=
  mkInputManager (add code (keysPressed im)) (bindings im).

Definition keyup (code : string) (im : InputManager) : InputManager :=
  mkInputManager (delete code (keysPressed im)) (bindings im).

Definition getInput (im : InputManager) : Input :=
  mkInput (has (b_accelerate (bindings im)) (keysPressed im))
          (has (b_brake (bindings im)) (keysPressed im))
          (has (b_turnLeft (bindings im)) (keysPressed im))
          (has (b_turnRight (bindings im)) (keysPressed im)).

Definition isResetPressed (im : InputManager) : bool :=
  has (b_reset (bindings im)) (keysPressed im).

Definition isSpacePressed (im : InputManager) : bool :=
  has "Space" (keysPressed im).

End InputManager.

(** What the keyboard does. *)
Inductive KeyEvent : Type :=
| KeyDown (code : String.string)
| KeyUp (code : String.string).

(** ** [Game.js]

    The game holds the car, the track definition, the tracker with its
    world, the input manager and the HUD.  The functions [Game.init] gives
    the tracker and [startCountdown] as callbacks write on the HUD: they
    are run on the notifications a call of the tracker has sent.  The
    engine, the scene, the lights and the camera are left out. *)

Module Game.

Import String.
Local Open Scope string_scope.

Record Game : Type := mkGame {
  car : Car;
  track : TrackDefinition;
  checkpoints : World;
  inputManager : InputManager.InputManager;
  hud : HUD.HUD
}.

(** [new Car(scene, color, startPosition, startRotation)]. *)
Definition newCar (startPosition : Vector3) (startRotation : R) : Car :=
  mkCar 0 startRotation
        (mkVector3 (vx startPosition) (CAR_CONFIG.height / 2 + 1 / 10) (vz startPosition))
        (mkVector3 0 startRotation 0).

(** The callbacks: [onLapComplete], [onRaceFinish], and the two functions
    [startRace] gives to [startCountdown]. *)
Definition onLapComplete (lap : nat) (lapTime : R) (g : Game) : Game :=
  if Nat.ltb lap (totalLaps (sys (checkpoints g))) then
    mkGame (car g) (track g) (checkpoints g) (inputManager g)
           (HUD.showMessage ("LAP " ++ Js.toString (Z.of_nat (lap + 1))) (hud g))
  else g.

Definition onRaceFinish (totalTime : R) (bestLap : option R) (g : Game) : Game :=
  mkGame (car g) (track g) (checkpoints g) (inputManager g)
         (HUD.showFinish totalTime bestLap (hud g)).

Definition callback (g : Game) (e : Event) : Game :=
  match e with
  | LapComplete lap lapTime => onLapComplete lap lapTime g
  | RaceFinish totalTime bestLap => onRaceFinish totalTime bestLap g
  | CountdownTick count =>
      mkGame (car g) (track g) (checkpoints g) (inputManager g)
             (HUD.showMessage (Js.toString count) (hud g))
  | CountdownGo =>
      mkGame (car g) (track g) (checkpoints g) (inputManager g)
             (HUD.showMessage "GO!" (hud g))
  end.

(** A method of the game; [None] is a [TypeError] of the tracker. *)
Definition G (A : Type) : Type := Game -> option (A * Game).

(** A call of a method of [this.checkpoints]: the tracker runs, then the
    callbacks of the notifications it has sent. *)
Definition call {A : Type} (m : Checkpoint.M A) : G A :=
  fun g =>
    match m (checkpoints g) with
    | None => None
    | Some (a, w') =>
        let sent := skipn (List.length (log (checkpoints g))) (log w') in
        Some (a, fold_left callback sent
                   (mkGame (car g) (track g) w' (inputManager g) (hud g)))
    end.

Definition startRace : G unit := call Checkpoint.startCountdown.

Definition restartRace : G unit :=
  fun g =>
    let g1 := mkGame (CarModel.reset (car g) (Track.getStartPosition (track g))
                                      Track.getStartRotation)
                     (track g) (checkpoints g) (inputManager g) (hud g) in
    match call Checkpoint.reset g1 with
    | None => None
    | Some (_, g2) =>
        startRace (mkGame (car g2) (track g2) (checkpoints g2) (inputManager g2)
                          (HUD.hideFinish (hud g2)))
    end.

(** [update()]; [deltaTime] is [engine.getDeltaTime()], in milliseconds. *)
Definition update (deltaTime : R) : G unit :=
  fun g =>
    let dt := deltaTime / 1000 in
    match call Checkpoint.canMove g with
    | None => None
    | Some (canMove, g1) =>
        let g2 :=
          if canMove then
            let input := InputManager.getInput (inputManager g1) in
            mkGame (CarModel.update (car g1) input dt) (track g1) (checkpoints g1)
                   (inputManager g1) (hud g1)
          else g1 in
        match call (Checkpoint.update (CarModel.getPosition (car g2))) g2 with
        | None => None
        | Some (_, g3) =>
            match call Checkpoint.getCurrentLap g3 with
            | None => None
            | Some (currentLap, g4) =>
                match call Checkpoint.getTotalLaps g4 with
                | None => None
                | Some (total, g5) =>
                    match call Checkpoint.getRaceTime g5 with
                    | None => None
                    | Some (raceTime, g6) =>
                        let g7 :=
                          mkGame (car g6) (track g6) (checkpoints g6) (inputManager g6)
                                 (HUD.update (CarModel.getSpeed (car g6)) currentLap total
                                    raceTime (bestLapTime (sys (checkpoints g6))) (hud g6)) in
                        match (if InputManager.isResetPressed (inputManager g7)
                               then restartRace g7 else Some (tt, g7)) with
                        | None => None
                        | Some (_, g8) =>
                            match call Checkpoint.isRaceFinished g8 with
                            | None => None
                            | Some (isFinished, g9) =>
                                if isFinished && InputManager.isSpacePressed (inputManager g9)
                                then restartRace g9 else Some (tt, g9)
                            end
                        end
                    end
                end
            end
        end
    end.

(** [init()], with the clock the tracker is to read. *)
Definition init (clk : nat -> R) : option (unit * Game) :=
  let startPos := Track.getStartPosition ovalTrack in
  let startRot := Track.getStartRotation in
  startRace (mkGame (newCar startPos startRot) ovalTrack
                    (Checkpoint.newWorld ovalTrack true true clk)
                    (InputManager.constructor 1) HUD.createHUD).

(** What happens to a running game: the engine renders a frame, a timer of
    the tracker expires, a key goes down or up. *)
Inductive GameEvent : Type :=
| Frame (deltaTime : R)
| TimerFires (n : nat)
| Key (e : KeyEvent).

Definition keyEvent (e : KeyEvent) (im : InputManager.InputManager)
  : InputManager.InputManager :=
  match e with
  | KeyDown code => InputManager.keydown code im
  | KeyUp code => InputManager.keyup code im
  end.

Definition step (e : GameEvent) : G unit :=
  match e with
  | Frame deltaTime => update deltaTime
  | TimerFires n => call (Checkpoint.fire n)
  | Key k =>
      fun g => Some (tt, mkGame (car g) (track g) (checkpoints g)
                                (keyEvent k (inputManager g)) (hud g))
  end.

Fixpoint run (events : list GameEvent) : G unit :=
  fun g =>
    match events with
    | [] => Some (tt, g)
    | e :: rest =>
        match step e g with
        | None => None
        | Some (_, g') => run rest g'
        end
    end.

(** The game from [init] on. *)
Definition play (clk : nat -> R) (events : list GameEvent) : option (unit * Game) :=
  match init clk with
  | None => None
  | Some (_, g) => run events g
  end.

End Game.

(** Whether the key [code] is held after the events: its last event, if it
    has one, is a [KeyDown]. *)
Definition heldAfter (code : String.string) (events : list KeyEvent) : bool :=
  fold_left (fun held e =>
               match e with
               | KeyDown c => if String.eqb code c then true else held
               | KeyUp c => if String.eqb code c then false else held
               end) events false.

Definition afterKeys (events : list KeyEvent) (im : InputManager.InputManager)
  : InputManager.InputManager :=
  fold_left (fun im e => Game.keyEvent e im) events im.

(** The car of a frame once it has moved: it moves when the race is on. *)
Definition carAfter (deltaTime : R) (g : Game.Game) : Car :=
  if RaceState_eqb (raceState (sys (Game.checkpoints g))) racing
  then CarModel.update (Game.car g) (InputManager.getInput (Game.inputManager g))
                       (deltaTime / 1000)
  else Game.car g.

(** What every state of a running game satisfies: its tracker is in a
    reachable state, its track is the oval, and its car is between the walls. *)
Definition inPlay (g : Game.Game) : Prop :=
  Checkpoint.Reachable (Game.checkpoints g) /\
  Game.track g = ovalTrack /\
  CarModel.innerRadius <= planarDistance (mesh_position (Game.car g)) <= CarModel.outerRadius.

Definition restartOps : list Checkpoint.Op :=
  [Checkpoint.OpReset; Checkpoint.OpStartCountdown].

(** An event of the game that is not a timer of the tracker. *)
Definition noTimer (e : Game.GameEvent) : bool :=
  match e with
  | Game.TimerFires _ => false
  | _ => true
  end.

(** * Properties *)

(** ** Numbers *)

Lemma Rltb_true (x y : R) : x < y -> (x <? y) = true.
Proof. intros H. unfold Rltb. destruct (Rlt_dec x y); [reflexivity | contradiction]. Qed.

Lemma Rltb_false (x y : R) : y <= x -> (x <? y) = false.
Proof. intros H. unfold Rltb. destruct (Rlt_dec x y); [lra | reflexivity]. Qed.

Lemma Rleb_true (x y : R) : x <= y -> (x <=? y) = true.
Proof. intros H. unfold Rleb. destruct (Rle_dec x y); [reflexivity | contradiction]. Qed.

Lemma Rleb_false (x y : R) : y < x -> (x <=? y) = false.
Proof. intros H. unfold Rleb. destruct (Rle_dec x y); [lra | reflexivity]. Qed.

Lemma Rltb_spec (x y : R) : reflect (x < y) (x <? y).
Proof. unfold Rltb. destruct (Rlt_dec x y); constructor; assumption. Qed.

Lemma Rleb_spec (x y : R) : reflect (x <= y) (x <=? y).
Proof. unfold Rleb. destruct (Rle_dec x y); constructor; assumption. Qed.

(** A point at angle [a] and radius [d] is at distance [d] from the centre. *)
Lemma polar_distance (a d : R) :
  0 <= d -> sqrt (sin a * d * (sin a * d) + cos a * d * (cos a * d)) = d.
Proof.
  intros Hd.
  replace (sin a * d * (sin a * d) + cos a * d * (cos a * d))
    with ((Rsqr (sin a) + Rsqr (cos a)) * (d * d)) by (unfold Rsqr; ring).
  rewrite sin2_cos2, Rmult_1_l.
  apply sqrt_square; assumption.
Qed.

Lemma planarDistance_polar (a d y : R) :
  0 <= d -> planarDistance (mkVector3 (sin a * d) y (cos a * d)) = d.
Proof. intros Hd. unfold planarDistance. simpl. apply polar_distance; assumption. Qed.

Lemma sqrt_lt_bound (x b : R) : 0 <= x -> 0 < b -> x < b * b -> sqrt x < b.
Proof.
  intros Hx Hb H.
  rewrite <- (sqrt_square b) by lra.
  apply sqrt_lt_1; nra.
Qed.

Lemma sqrt_gt_bound (x b : R) : 0 <= b -> b * b < x -> b < sqrt x.
Proof.
  intros Hb H.
  rewrite <- (sqrt_square b) at 1 by lra.
  apply sqrt_lt_1; nra.
Qed.

(** [Math.atan2] gives the polar angle: away from the centre, the sine and the
    cosine of [atan2 x z] are [x] and [z] over the distance from the centre. *)
Lemma atan2_polar (x z : R) :
  0 < sqrt (x * x + z * z) ->
  sin (atan2 x z) = x / sqrt (x * x + z * z) /\
  cos (atan2 x z) = z / sqrt (x * x + z * z).
Proof.
  intros Hr.
  assert (Hsq : sqrt (x * x + z * z) * sqrt (x * x + z * z) = x * x + z * z)
    by (apply sqrt_sqrt; nra).
  assert (Hnz : z <> 0 -> sqrt (1 + (x / z)²) = sqrt (x * x + z * z) / Rabs z).
  { intros Hz.
    replace (1 + (x / z)²) with ((x * x + z * z) / (z * z))
      by (unfold Rsqr; field; assumption).
    rewrite sqrt_div_alt by nra.
    f_equal. replace (z * z) with (Rsqr z) by reflexivity. apply sqrt_Rsqr_abs. }
  unfold atan2.
  destruct (Rltb_spec 0 z) as [Hz | Hz].
  - rewrite sin_atan, cos_atan, Hnz by lra.
    rewrite Rabs_right by lra. split; field; lra.
  - destruct (Rltb_spec z 0) as [Hz' | Hz'].
    + assert (Habs : Rabs z = - z) by (apply Rabs_left; assumption).
      destruct (Rleb_spec 0 x) as [Hx | Hx].
      * rewrite neg_sin, neg_cos, sin_atan, cos_atan, Hnz, Habs by lra.
        split; field; lra.
      * unfold Rminus. rewrite sin_plus, cos_plus, sin_neg, cos_neg, sin_PI, cos_PI.
        rewrite sin_atan, cos_atan, Hnz, Habs by lra.
        split; field; lra.
    + assert (z = 0) by lra. subst z.
      replace (x * x + 0 * 0) with (Rsqr x) in * by (unfold Rsqr; ring).
      rewrite sqrt_Rsqr_abs in *.
      destruct (Rltb_spec 0 x) as [Hx | Hx].
      * rewrite sin_PI2, cos_PI2, Rabs_right by lra. split; field; lra.
      * destruct (Rltb_spec x 0) as [Hx' | Hx'].
        -- rewrite sin_neg, cos_neg, sin_PI2, cos_PI2, Rabs_left by lra.
           split; field; lra.
        -- assert (x = 0) by lra. subst x. rewrite Rabs_R0 in Hr. lra.
Qed.

(** ** The vehicle *)

Section CarFacts.

Import CarModel.

Variables (c : Car) (input : Input) (deltaTime : R).

Lemma clampSpeed_bounds (speed : R) :
  - (CAR_CONFIG.maxSpeed * (3 / 10)) <= clampSpeed speed <= CAR_CONFIG.maxSpeed.
Proof.
  unfold clampSpeed, CAR_CONFIG.maxSpeed, Rmax, Rmin.
  repeat destruct (Rle_dec _ _); lra.
Qed.

(** The two branches of the boundary check. *)
Lemma update_inside :
  innerRadius <= planarDistance (candidate c input deltaTime) <= outerRadius ->
  update c input deltaTime =
    mkCar (clampSpeed (throttle c input deltaTime)) (steer c input deltaTime)
          (candidate c input deltaTime) (mkVector3 0 (steer c input deltaTime) 0).
Proof.
  intros [Hlo Hhi]. unfold update, planarDistance, Rgeb in *.
  rewrite (Rleb_true _ _ Hlo), (Rleb_true _ _ Hhi). reflexivity.
Qed.

Lemma update_outside :
  ~ (innerRadius <= planarDistance (candidate c input deltaTime) <= outerRadius) ->
  update c input deltaTime =
    let dist := planarDistance (candidate c input deltaTime) in
    let angle := atan2 (vx (mesh_position c)) (vz (mesh_position c)) in
    let clampedDist := Rmax (innerRadius + 1) (Rmin (outerRadius - 1) dist) in
    mkCar (clampSpeed (throttle c input deltaTime) * - (3 / 10))
          (steer c input deltaTime)
          (mkVector3 (sin angle * clampedDist) (vy (mesh_position c))
                     (cos angle * clampedDist))
          (mkVector3 0 (steer c input deltaTime) 0).
Proof.
  intros Hout. unfold update, planarDistance, Rgeb in *.
  destruct (Rleb_spec innerRadius
              (sqrt (vx (candidate c input deltaTime) * vx (candidate c input deltaTime)
                     + vz (candidate c input deltaTime) * vz (candidate c input deltaTime))))
    as [Hlo | Hlo]; [ | reflexivity].
  destruct (Rleb_spec
              (sqrt (vx (candidate c input deltaTime) * vx (candidate c input deltaTime)
                     + vz (candidate c input deltaTime) * vz (candidate c input deltaTime)))
              outerRadius)
    as [Hhi | Hhi]; [ | reflexivity].
  exfalso. apply Hout. split; assumption.
Qed.

Lemma clampedDist_bounds (dist : R) :
  innerRadius + 1 <= Rmax (innerRadius + 1) (Rmin (outerRadius - 1) dist)
                  <= outerRadius - 1.
Proof.
  unfold innerRadius, outerRadius, Rmax, Rmin.
  repeat destruct (Rle_dec _ _); lra.
Qed.

Lemma update_in_annulus :
  innerRadius <= planarDistance (mesh_position (update c input deltaTime)) <= outerRadius.
Proof.
  destruct (Rle_dec innerRadius (planarDistance (candidate c input deltaTime))) as [Hlo | Hlo];
    [ destruct (Rle_dec (planarDistance (candidate c input deltaTime)) outerRadius)
        as [Hhi | Hhi] | ].
  - rewrite update_inside by (split; assumption). simpl. split; assumption.
  - rewrite update_outside by (intros [_ H]; contradiction).
    cbv zeta. cbn [mesh_position].
    pose proof (clampedDist_bounds (planarDistance (candidate c input deltaTime))) as Hb.
    rewrite planarDistance_polar by (unfold innerRadius in Hb at 1; lra).
    unfold innerRadius, outerRadius in *. lra.
  - rewrite update_outside by (intros [H _]; contradiction).
    cbv zeta. cbn [mesh_position].
    pose proof (clampedDist_bounds (planarDistance (candidate c input deltaTime))) as Hb.
    rewrite planarDistance_polar by (unfold innerRadius in Hb at 1; lra).
    unfold innerRadius, outerRadius in *. lra.
Qed.

Lemma steer_still : Rabs (currentSpeed c) <= minSpeedToTurn -> steer c input deltaTime = rotation c.
Proof.
  intros H. unfold steer, Rgtb. rewrite Rltb_false by assumption. reflexivity.
Qed.

Lemma steer_forward :
  minSpeedToTurn < currentSpeed c ->
  steer c input deltaTime
  = rotation c + turnDirection input * CAR_CONFIG.turnSpeed * deltaTime.
Proof.
  intros H. unfold steer, Rgtb, Rgeb, minSpeedToTurn in *.
  rewrite Rltb_true by (rewrite Rabs_right; lra).
  rewrite Rleb_true by lra. ring.
Qed.

Lemma steer_reverse :
  currentSpeed c < - minSpeedToTurn ->
  steer c input deltaTime
  = rotation c - turnDirection input * CAR_CONFIG.turnSpeed * deltaTime.
Proof.
  intros H. unfold steer, Rgtb, Rgeb, minSpeedToTurn in *.
  rewrite Rltb_true by (rewrite Rabs_left; lra).
  rewrite Rleb_false by lra. ring.
Qed.

Lemma rotation_update : rotation (update c input deltaTime) = steer c input deltaTime.
Proof.
  unfold update. destruct (_ && _); reflexivity.
Qed.

End CarFacts.

Lemma cos_near_zero (a : R) : Rabs a <= 1 / 5 -> 9 / 10 <= cos a.
Proof.
  intros Ha.
  assert (Hb : - (1 / 5) <= a <= 1 / 5) by (unfold Rabs in Ha; destruct (Rcase_abs a); lra).
  pose proof PI2_1 as Hpi.
  destruct (cos_bound a 0) as [Hlow _]; [lra | lra | ].
  unfold cos_approx, cos_term in Hlow. simpl in Hlow.
  nra.
Qed.

(** A car at distance [d] that heads straight out, turns by [h' - h] and then
    moves by [m]: the square of its distance from the centre. *)
Lemma radial_move (d h h' m : R) :
  (d * sin h + sin h' * m) * (d * sin h + sin h' * m)
  + (d * cos h + cos h' * m) * (d * cos h + cos h' * m)
  = d * d + 2 * d * m * cos (h' - h) + m * m.
Proof.
  rewrite cos_minus.
  pose proof (sin2_cos2 h) as H1. pose proof (sin2_cos2 h') as H2.
  unfold Rsqr in *. nra.
Qed.

Section WallBounce.

Import CarModel.

Variables (c : Car) (input : Input).

Hypothesis speed20 : currentSpeed c = 20.

Lemma turnDirection_bounds : -1 <= turnDirection input <= 1.
Proof. unfold turnDirection. destruct (turnRight input), (turnLeft input); lra. Qed.

Lemma throttle_at_20 : 16 <= throttle c input (1 / 10) <= 23.
Proof.
  unfold throttle, Rgtb, CAR_CONFIG.acceleration, CAR_CONFIG.brakeForce,
    CAR_CONFIG.deceleration.
  rewrite speed20.
  destruct (accelerate input); [lra | ].
  destruct (brake input); [lra | ].
  rewrite Rltb_true by lra.
  unfold Rmax. destruct (Rle_dec _ _); lra.
Qed.

Lemma clampSpeed_at_20 : 16 <= clampSpeed (throttle c input (1 / 10)) <= 23.
Proof.
  pose proof throttle_at_20 as H.
  unfold clampSpeed, CAR_CONFIG.maxSpeed, Rmax, Rmin.
  repeat destruct (Rle_dec _ _); lra.
Qed.

Hypothesis just_inside :
  outerRadius - 1 <= planarDistance (mesh_position c).
Hypothesis heading_out :
  vx (mesh_position c) = planarDistance (mesh_position c) * sin (rotation c) /\
  vz (mesh_position c) = planarDistance (mesh_position c) * cos (rotation c).

Lemma candidate_beyond_wall :
  outerRadius < planarDistance (candidate c input (1 / 10)).
Proof.
  pose proof clampSpeed_at_20 as Hs.
  pose proof turnDirection_bounds as Ht.
  destruct heading_out as [Hx Hz].
  unfold planarDistance at 1. unfold candidate, Vector3Ops.add, Vector3Ops.scale.
  cbn [vx vy vz].
  rewrite Hx, Hz.
  rewrite radial_move.
  rewrite steer_forward by (rewrite speed20; unfold minSpeedToTurn; lra).
  set (s := clampSpeed (throttle c input (1 / 10))) in *.
  assert (Hc : 9 / 10 <= cos (rotation c + turnDirection input * CAR_CONFIG.turnSpeed * (1 / 10)
                              - rotation c)).
  { apply cos_near_zero. unfold CAR_CONFIG.turnSpeed.
    unfold Rabs. destruct (Rcase_abs _); lra. }
  set (k := cos (rotation c + _ - rotation c)) in Hc |- *.
  pose proof just_inside as Hd. unfold outerRadius in Hd.
  set (d := planarDistance (mesh_position c)) in Hd |- *.
  destruct Hs as [Hs1 Hs2].
  assert (Hsk : 16 * (9 / 10) <= s * k) by (apply Rmult_le_compat; lra).
  assert (Hdsk : 42 * (16 * (9 / 10)) <= d * (s * k)) by (apply Rmult_le_compat; lra).
  apply sqrt_gt_bound; unfold outerRadius; nra.
Qed.

Lemma bounce_at_outer_wall :
  currentSpeed (update c input (1 / 10)) < 0 /\
  planarDistance (mesh_position (update c input (1 / 10))) = outerRadius - 1.
Proof.
  pose proof candidate_beyond_wall as Hd.
  pose proof clampSpeed_at_20 as Hs.
  rewrite update_outside by (intros [_ H]; lra).
  cbv zeta. cbn [currentSpeed mesh_position]. split; [lra | ].
  assert (Hcl : Rmax (innerRadius + 1)
                  (Rmin (outerRadius - 1) (planarDistance (candidate c input (1 / 10))))
                = outerRadius - 1).
  { unfold Rmax, Rmin, innerRadius, outerRadius in *.
    repeat destruct (Rle_dec _ _); lra. }
  rewrite Hcl. apply planarDistance_polar. unfold outerRadius. lra.
Qed.

End WallBounce.

Lemma carAtWall_distance :
  planarDistance (mesh_position carAtWall) = CarModel.outerRadius - 1 / 10.
Proof.
  unfold planarDistance, carAtWall, CarModel.outerRadius. cbn [mesh_position vx vz].
  replace (0 * 0 + 429 / 10 * (429 / 10)) with ((429 / 10) * (429 / 10)) by ring.
  rewrite sqrt_square by lra. lra.
Qed.

Lemma carAtWall_heading :
  vx (mesh_position carAtWall)
  = planarDistance (mesh_position carAtWall) * sin (rotation carAtWall) /\
  vz (mesh_position carAtWall)
  = planarDistance (mesh_position carAtWall) * cos (rotation carAtWall).
Proof.
  rewrite carAtWall_distance. unfold carAtWall, CarModel.outerRadius.
  cbn [mesh_position rotation vx vz]. rewrite sin_0, cos_0. split; lra.
Qed.

(** C1. Boundary invariant: whatever the state of the vehicle (here the state
    reached from any state [c] by any run of earlier ticks), whatever the
    input and for every [deltaTime >= 0], after [Car.update] the planar
    distance of the position from the track centre lies within
    [[innerRadius, outerRadius]] of [update], that is within [[27, 43]]. *)
Theorem car_stays_in_annulus
        (c : Car) (ticks : list (Input * R)) (input : Input) (deltaTime : R) :
  0 <= deltaTime ->
  let c' := CarModel.update (CarModel.run c ticks) input deltaTime in
  CarModel.innerRadius <= planarDistance (mesh_position c') <= CarModel.outerRadius /\
  27 <= planarDistance (mesh_position c') <= 43.
Proof.
  intros _ c'.
  pose proof (update_in_annulus (CarModel.run c ticks) input deltaTime) as H.
  fold c' in H. unfold CarModel.innerRadius, CarModel.outerRadius in *.
  repeat split; lra.
Qed.

Lemma car_stays_in_annulus_witness :
  0 <= 1 / 60 /\
  27 <= planarDistance
          (mesh_position
             (CarModel.update (CarModel.run carAtWall [(noInput, 1 / 10)]) steerLeft (1 / 60)))
     <= 43.
Proof.
  split; [lra | ].
  apply (car_stays_in_annulus carAtWall [(noInput, 1 / 10)] steerLeft (1 / 60)).
  lra.
Defined.

(** C8. Steering: the heading changes in a tick only if the absolute speed at
    the start of the tick exceeds 0.5; it then changes by exactly
    [turnDirection * turnSpeed * deltaTime], where [turnDirection] is
    [(turnRight ? 1 : 0) - (turnLeft ? 1 : 0)] and [turnSpeed] is 1.8, with the
    sign inverted when the speed is negative.  At speed 0, [turnLeft] leaves
    the heading unchanged for every [deltaTime]. *)
Theorem steering_rule (c : Car) (input : Input) (deltaTime : R) :
  let heading' := rotation (CarModel.update c input deltaTime) in
  (heading' <> rotation c -> Rabs (currentSpeed c) > 5 / 10) /\
  (Rabs (currentSpeed c) > 5 / 10 -> 0 <= currentSpeed c ->
   heading' = rotation c + CarModel.turnDirection input * CAR_CONFIG.turnSpeed * deltaTime) /\
  (Rabs (currentSpeed c) > 5 / 10 -> currentSpeed c < 0 ->
   heading' = rotation c - CarModel.turnDirection input * CAR_CONFIG.turnSpeed * deltaTime) /\
  (currentSpeed c = 0 -> turnLeft input = true -> heading' = rotation c) /\
  CarModel.turnDirection input
  = (if turnRight input then 1 else 0) - (if turnLeft input then 1 else 0) /\
  CAR_CONFIG.turnSpeed = 18 / 10 /\
  vy (mesh_rotation (CarModel.update c input deltaTime)) = heading'.
Proof.
  intros heading'. unfold heading'. rewrite rotation_update.
  repeat split.
  - intros Hne. destruct (Rle_dec (Rabs (currentSpeed c)) (5 / 10)) as [Hle | Hgt]; [ | lra].
    exfalso. apply Hne. apply steer_still. exact Hle.
  - intros Habs Hpos. apply steer_forward. unfold CarModel.minSpeedToTurn.
    rewrite Rabs_right in Habs; lra.
  - intros Habs Hneg. apply steer_reverse. unfold CarModel.minSpeedToTurn.
    rewrite Rabs_left in Habs; lra.
  - intros H0 _. apply steer_still. rewrite H0, Rabs_R0. unfold CarModel.minSpeedToTurn. lra.
  - unfold CarModel.update. destruct (_ && _); reflexivity.
Qed.

Lemma steering_rule_witness :
  rotation (CarModel.update carOnGrid steerLeft (1 / 60)) = rotation carOnGrid /\
  rotation (CarModel.update carAtWall steerLeft (1 / 10))
  = rotation carAtWall + (0 - 1) * CAR_CONFIG.turnSpeed * (1 / 10).
Proof.
  split.
  - apply (steering_rule carOnGrid steerLeft (1 / 60)); reflexivity.
  - apply (steering_rule carAtWall steerLeft (1 / 10)).
    + unfold carAtWall. cbn [currentSpeed]. rewrite Rabs_right; lra.
    + unfold carAtWall. cbn [currentSpeed]. lra.
Defined.

(** C7. Wall strike: in every tick in which the planar distance of the
    candidate position lies outside [[innerRadius, outerRadius]], the speed
    (after acceleration and clamp) is multiplied by -0.3 and the vehicle is put
    at the angle of its position before the tick ([atan2] of that position,
    so, away from the centre, on the same ray), at the candidate's distance
    clamped into [[innerRadius + 1, outerRadius - 1]].  In particular a vehicle
    next to the outer wall (less than 1 inside the outer bound, as at 0.1 from
    it) that heads straight out at speed 20 ends a tick of 0.1 s, whatever the
    input, with a negative speed and at distance [outerRadius - 1]. *)
Theorem wall_strike_response (c : Car) (input : Input) (deltaTime : R) :
  let p := mesh_position c in
  let c' := CarModel.update c input deltaTime in
  (~ (CarModel.innerRadius <= planarDistance (CarModel.candidate c input deltaTime)
      <= CarModel.outerRadius) ->
   let clampedDist :=
     Rmax (CarModel.innerRadius + 1)
          (Rmin (CarModel.outerRadius - 1)
                (planarDistance (CarModel.candidate c input deltaTime))) in
   currentSpeed c'
   = CarModel.clampSpeed (CarModel.throttle c input deltaTime) * - (3 / 10) /\
   mesh_position c'
   = mkVector3 (sin (atan2 (vx p) (vz p)) * clampedDist) (vy p)
               (cos (atan2 (vx p) (vz p)) * clampedDist) /\
   planarDistance (mesh_position c') = clampedDist /\
   CarModel.innerRadius + 1 <= clampedDist <= CarModel.outerRadius - 1 /\
   (0 < planarDistance p ->
    vx (mesh_position c') = vx p / planarDistance p * clampedDist /\
    vz (mesh_position c') = vz p / planarDistance p * clampedDist)) /\
  (deltaTime = 1 / 10 ->
   currentSpeed c = 20 ->
   CarModel.outerRadius - 1 <= planarDistance p ->
   vx p = planarDistance p * sin (rotation c) /\
   vz p = planarDistance p * cos (rotation c) ->
   currentSpeed c' < 0 /\
   planarDistance (mesh_position c') = CarModel.outerRadius - 1).
Proof.
  intros p c'. split.
  - intros Hout clampedDist. unfold c'.
    rewrite (update_outside c input deltaTime Hout). cbv zeta.
    cbn [currentSpeed mesh_position]. fold p. fold clampedDist.
    pose proof (clampedDist_bounds (planarDistance (CarModel.candidate c input deltaTime)))
      as Hb.
    fold clampedDist in Hb.
    repeat split; try tauto.
    + apply planarDistance_polar. unfold CarModel.innerRadius in Hb at 1. lra.
    + cbn [vx]. destruct (atan2_polar (vx p) (vz p) H) as [Hs _]. rewrite Hs. reflexivity.
    + cbn [vz]. destruct (atan2_polar (vx p) (vz p) H) as [_ Hc]. rewrite Hc. reflexivity.
  - intros Hdt Hspeed Hdist Hhead. subst deltaTime. unfold c'.
    apply bounce_at_outer_wall; assumption.
Qed.

Lemma wall_strike_response_witness :
  currentSpeed (CarModel.update carAtWall noInput (1 / 10)) < 0 /\
  planarDistance (mesh_position (CarModel.update carAtWall noInput (1 / 10)))
  = CarModel.outerRadius - 1.
Proof.
  apply (wall_strike_response carAtWall noInput (1 / 10)).
  - reflexivity.
  - reflexivity.
  - rewrite carAtWall_distance. lra.
  - exact carAtWall_heading.
Defined.

(** ** The tracker *)

Section TrackerFacts.

Import Checkpoint.

Lemma truthy_Some (t : R) : t <> 0 -> truthy (Some t) = true.
Proof. intros H. unfold truthy. destruct (Req_dec_T t 0); [contradiction | reflexivity]. Qed.

Lemma truthy_zero : truthy (Some 0) = false.
Proof. unfold truthy. destruct (Req_dec_T 0 0); [reflexivity | lra]. Qed.

Lemma truthy_inv (v : option R) : truthy v = true -> exists t, v = Some t /\ t <> 0.
Proof.
  destruct v as [t | ]; simpl; [ | discriminate].
  destruct (Req_dec_T t 0); [discriminate | ]. intros _. exists t. split; [reflexivity | assumption].
Qed.

Lemma RaceState_eqb_eq (a b : RaceState) : RaceState_eqb a b = true <-> a = b.
Proof. destruct a, b; simpl; split; intros H; try reflexivity; discriminate. Qed.

Lemma RaceState_eqb_neq (a b : RaceState) : RaceState_eqb a b = false <-> a <> b.
Proof. destruct a, b; simpl; split; intros H; try reflexivity; try discriminate; contradiction. Qed.

Lemma world_eta (w : World) :
  mkWorld (sys w) (clock w) (reads w) (timers w) (log w) = w.
Proof. destruct w; reflexivity. Qed.

(** [set_alpha_at] changes the alpha of one entry and nothing else. *)
Lemma set_alpha_at_length (i : nat) (a : R) (cps : list Checkpoint) :
  List.length (set_alpha_at i a cps) = List.length cps.
Proof.
  revert i. induction cps as [ | cp rest IH]; intros [ | i]; simpl; try reflexivity.
  rewrite IH. reflexivity.
Qed.

Lemma set_alpha_at_geometry (i : nat) (a : R) (cps : list Checkpoint) :
  map geometry (set_alpha_at i a cps) = map geometry cps.
Proof.
  revert i. induction cps as [ | cp rest IH]; intros [ | i]; simpl; try reflexivity.
  rewrite IH. reflexivity.
Qed.

Lemma nth_error_geometry (cps cps' : list Checkpoint) (k : nat) (cp : Checkpoint) :
  map geometry cps' = map geometry cps ->
  nth_error cps k = Some cp ->
  exists cp', nth_error cps' k = Some cp' /\ geometry cp' = geometry cp.
Proof.
  intros Hg Hk.
  assert (H : nth_error (map geometry cps') k = Some (geometry cp))
    by (rewrite Hg; apply map_nth_error; assumption).
  destruct (nth_error cps' k) as [cp' | ] eqn:E.
  - exists cp'. split; [reflexivity | ].
    rewrite (map_nth_error geometry k cps' E) in H. congruence.
  - apply nth_error_None in E.
    assert (Hn : nth_error (map geometry cps') k = None)
      by (apply nth_error_None; rewrite length_map; exact E).
    congruence.
Qed.

End TrackerFacts.

(** *** Tactics *)

Ltac js_unfold :=
  unfold Checkpoint.update, Checkpoint.hitCheckpoint, Checkpoint.completeLap,
    Checkpoint.finishRace, Checkpoint.tick, Checkpoint.startCountdown, Checkpoint.reset,
    Checkpoint.getTotalTime, Checkpoint.fire, Checkpoint.runCallback, Checkpoint.when,
    Checkpoint.bind, Checkpoint.ret, Checkpoint.this, Checkpoint.assign,
    Checkpoint.performance_now, Checkpoint.setTimeout, Checkpoint.notify,
    Checkpoint.throw in *.

Ltac inv_some :=
  match goal with
  | H : Some _ = Some _ |- _ => inversion H; subst; clear H
  | H : None = Some _ |- _ => discriminate H
  end.

Ltac crush_inv :=
  unfold invariant, wellFormed, stamped in *; cbn in *;
  repeat match goal with
         | H : _ /\ _ |- _ => destruct H
         end;
  repeat split; intros;
  repeat match goal with
         | H : Checkpoint.clock_positive ?c -> _, H' : Checkpoint.clock_positive ?c |- _ => specialize (H H')
         | H : _ /\ _ |- _ => destruct H
         | H : Some _ = Some _ |- _ => inversion H; subst; clear H
         end;
  try solve [ assumption | lia | discriminate | eauto
            | rewrite ?length_app, ?set_alpha_at_length in *; cbn in *; lia
            | match goal with Hc : Checkpoint.clock_positive _ |- 0 < _ => apply Hc end ].

(** A run, one operation at a time. *)
Lemma execAll_cons (o : Checkpoint.Op) (rest : list Checkpoint.Op) (w : World) :
  Checkpoint.execAll (o :: rest) w
  = match Checkpoint.exec o w with
    | Some (_, w') => Checkpoint.execAll rest w'
    | None => None
    end.
Proof. reflexivity. Qed.

Lemma execAll_nil (w : World) : Checkpoint.execAll [] w = Some (tt, w).
Proof. reflexivity. Qed.

(** Evaluation of a run on a given world, one operation at a time: the real
    numbers are left as they are, and each test on them is decided by
    arithmetic. *)
Ltac js_cbv :=
  cbv -[Rplus Rminus Rmult Rdiv Ropp Rinv IZR INR PI cos sin sqrt
        Req_dec_T Rlt_dec Rle_dec Vector3Ops.Distance Checkpoint.execAll].

Ltac js_arith := cbn [INR] in *; lra.

Ltac js_zone :=
  unfold Vector3Ops.Distance; cbn [vx vy vz];
  try replace (PI * (15 / 10)) with (3 * (PI / 2)) by field;
  rewrite ?cos_0, ?sin_0, ?cos_PI2, ?sin_PI2, ?cos_PI, ?sin_PI, ?cos_3PI2, ?sin_3PI2;
  match goal with
  | |- sqrt ?x < ?b =>
      apply Rlt_le_trans with (sqrt (b * b));
      [apply sqrt_lt_1; nra | rewrite sqrt_square by lra; lra]
  end.

Ltac js_decide :=
  match goal with
  | |- context [Req_dec_T ?t 0] =>
      let E := fresh "E" in
      destruct (Req_dec_T t 0) as [E | E];
      [ try (exfalso; js_arith) | try (exfalso; apply E; js_arith) ];
      try clear E
  | |- context [Rlt_dec ?a ?b] =>
      let E := fresh "E" in
      destruct (Rlt_dec a b) as [E | E];
      [ try (exfalso; js_arith)
      | try (exfalso; apply E; first [js_arith | js_zone]) ];
      try clear E
  end.

Ltac js_op :=
  rewrite execAll_cons; js_cbv; repeat (js_decide; js_cbv).

Ltac js_run := repeat js_op; rewrite ?execAll_nil.

(** *** The methods, as equations *)

Section TrackerMethods.

Import Checkpoint.

Lemma finishRace_eq (w : World) :
  finishRace w =
  Some (tt, mkWorld (set_raceState finished (sys w)) (clock w) (S (reads w)) (timers w)
                    (log w ++ if onRaceFinish (sys w)
                              then [RaceFinish (clock w (reads w) - toNumber (raceStartTime (sys w)))
                                               (bestLapTime (sys w))]
                              else [])).
Proof.
  js_unfold. cbn. destruct (onRaceFinish (sys w)); cbn.
  - reflexivity.
  - rewrite app_nil_r. reflexivity.
Qed.

Lemma completeLap_eq (w : World) :
  let s := sys w in
  let now := clock w (reads w) in
  let lapTime := lapTimeAt s now in
  let s1 := set_bestLapTime (bestLapAfter s lapTime)
              (set_lapTimes (lapTimes s ++ [lapTime])
                 (set_lastLapTime (Some now)
                    (set_currentCheckpoint 0 (set_lapCount (S (lapCount s)) s)))) in
  let w1 := mkWorld s1 (clock w) (S (reads w)) (timers w)
                    (log w ++ if onLapComplete s
                              then [LapComplete (S (lapCount s)) lapTime] else []) in
  completeLap w = if Nat.leb (totalLaps s) (S (lapCount s)) then finishRace w1
                  else Some (tt, w1).
Proof.
  intros s now lapTime s1 w1.
  unfold completeLap, when, bind, ret, this, assign, performance_now, notify. cbn.
  fold s. fold now. fold (lapTimeAt s now). fold lapTime.
  unfold w1, s1, bestLapAfter. cbn.
  destruct (if negb (truthy (bestLapTime s)) then true else lapTime <? toNumber (bestLapTime s));
    cbn; destruct (onLapComplete s); cbn; rewrite ?app_nil_r;
    destruct (Nat.leb (totalLaps s) (S (lapCount s))); reflexivity.
Qed.

Lemma hitCheckpoint_miss (w : World) (index : nat) :
  index <> currentCheckpoint (sys w) -> hitCheckpoint index w = Some (tt, w).
Proof.
  intros H. unfold hitCheckpoint, bind, this, ret.
  apply Nat.eqb_neq in H. rewrite H. reflexivity.
Qed.

Lemma hitCheckpoint_hit (w : World) (cp : Checkpoint) :
  nth_error (checkpoints (sys w)) (currentCheckpoint (sys w)) = Some cp ->
  hitCheckpoint (currentCheckpoint (sys w)) w =
  if Nat.leb (List.length (checkpoints (sys w))) (S (currentCheckpoint (sys w)))
  then completeLap (afterHit w cp) else Some (tt, afterHit w cp).
Proof.
  intros H. unfold hitCheckpoint, bind, this, ret, when, assign, setTimeout.
  rewrite Nat.eqb_refl. cbn. rewrite H. cbn.
  rewrite set_alpha_at_length. unfold afterHit.
  destruct (Nat.leb _ _); reflexivity.
Qed.

Lemma hitCheckpoint_throws (w : World) :
  nth_error (checkpoints (sys w)) (currentCheckpoint (sys w)) = None ->
  hitCheckpoint (currentCheckpoint (sys w)) w = None.
Proof.
  intros H. unfold hitCheckpoint, bind, this, ret.
  rewrite Nat.eqb_refl. cbn. rewrite H. reflexivity.
Qed.

Lemma update_not_racing (w : World) (p : Vector3) :
  raceState (sys w) <> racing -> update p w = Some (tt, w).
Proof.
  intros H. unfold update, bind, this, ret.
  apply RaceState_eqb_neq in H. rewrite H. reflexivity.
Qed.

Lemma update_race_over (w : World) (p : Vector3) :
  (totalLaps (sys w) <= lapCount (sys w))%nat -> update p w = Some (tt, w).
Proof.
  intros H. unfold update, bind, this, ret.
  destruct (negb _); [reflexivity | ].
  apply Nat.leb_le in H. rewrite H. reflexivity.
Qed.

Lemma update_racing (w : World) (p : Vector3) :
  raceState (sys w) = racing ->
  (lapCount (sys w) < totalLaps (sys w))%nat ->
  update p w =
  match nth_error (checkpoints (sys w)) (currentCheckpoint (sys w)) with
  | None => None
  | Some cp =>
      if Vector3Ops.Distance (mkVector3 (vx p) 0 (vz p)) (cp_position cp) <? cp_radius cp
      then hitCheckpoint (currentCheckpoint (sys w)) (stampStart w)
      else Some (tt, stampStart w)
  end.
Proof.
  intros Hr Hl. unfold update, bind, this, ret, when, assign, performance_now, throw.
  rewrite Hr. cbn -[hitCheckpoint]. apply Nat.leb_gt in Hl. rewrite Hl.
  unfold stampStart.
  destruct (truthy (raceStartTime (sys w))); cbn -[hitCheckpoint].
  - destruct (nth_error _ _) as [cp | ]; [ | reflexivity].
    destruct (_ <? _); [ | reflexivity]. destruct w; reflexivity.
  - destruct (nth_error _ _) as [cp | ]; [ | reflexivity].
    destruct (_ <? _); reflexivity.
Qed.

Lemma startCountdown_eq (w : World) :
  startCountdown w =
  Some (tt, mkWorld (set_countdownValue 3%Z (set_raceState countdown (sys w)))
                    (clock w) (reads w) (timers w ++ [mkTimer Tick 500]) (log w)).
Proof. reflexivity. Qed.

Lemma reset_eq (w : World) :
  reset w =
  Some (tt, mkWorld (mkCheckpointSystem (checkpoints (sys w)) 0 0 (totalLaps (sys w))
                       None [] None None waiting 3
                       (onLapComplete (sys w)) (onRaceFinish (sys w)))
                    (clock w) (reads w) (timers w) (log w)).
Proof. reflexivity. Qed.

Lemma tick_counting (w : World) :
  (0 < countdownValue (sys w))%Z ->
  tick w =
  Some (tt, mkWorld (set_countdownValue (countdownValue (sys w) - 1)%Z (sys w))
                    (clock w) (reads w) (timers w ++ [mkTimer Tick 1000])
                    (log w ++ [CountdownTick (countdownValue (sys w))])).
Proof.
  intros H. unfold tick, bind, this. apply Z.ltb_lt in H. rewrite H. reflexivity.
Qed.

Lemma tick_go (w : World) :
  (countdownValue (sys w) <= 0)%Z ->
  tick w =
  Some (tt, mkWorld (set_raceStartTime (Some (clock w (reads w)))
                       (set_raceState racing (sys w)))
                    (clock w) (S (reads w)) (timers w) (log w ++ [CountdownGo])).
Proof.
  intros H. unfold tick, bind, this. apply Z.ltb_ge in H. rewrite H. reflexivity.
Qed.

Lemma fire_none (w : World) (n : nat) :
  nth_error (timers w) n = None -> fire n w = Some (tt, w).
Proof. intros H. unfold fire. rewrite H. reflexivity. Qed.

Lemma fire_some (w : World) (n : nat) (t : Timer) :
  nth_error (timers w) n = Some t ->
  fire n w = runCallback (callback t)
               (mkWorld (sys w) (clock w) (reads w) (remove_nth n (timers w)) (log w)).
Proof. intros H. unfold fire. rewrite H. reflexivity. Qed.

Lemma finishRace_invariant (w w' : World) :
  finishRace w = Some (tt, w') -> invariant w -> invariant w' /\ clock w' = clock w.
Proof.
  rewrite finishRace_eq. intros H Hinv. inv_some. split; [ | reflexivity].
  crush_inv.
Qed.

Lemma completeLap_invariant (w w' : World) :
  completeLap w = Some (tt, w') ->
  (List.length (checkpoints (sys w)) = 4%nat /\
   lapCount (sys w) = List.length (lapTimes (sys w)) /\
   totalLaps (sys w) = 3%nat /\
   (clock_positive (clock w) -> stamped w)) ->
  invariant w' /\ clock w' = clock w.
Proof.
  rewrite completeLap_eq. cbv zeta. intros H Hinv.
  destruct (Nat.leb _ _).
  - apply finishRace_invariant in H; [exact H | ].
    clear H. crush_inv.
  - inv_some. split; [ | reflexivity]. crush_inv.
Qed.

Lemma hitCheckpoint_invariant (w w' : World) (index : nat) :
  hitCheckpoint index w = Some (tt, w') -> invariant w ->
  invariant w' /\ clock w' = clock w.
Proof.
  intros H Hinv.
  destruct (Nat.eq_dec index (currentCheckpoint (sys w))) as [-> | Hne].
  - destruct (nth_error (checkpoints (sys w)) (currentCheckpoint (sys w))) as [cp | ] eqn:E.
    + rewrite (hitCheckpoint_hit w cp E) in H.
      destruct (Nat.leb _ _) eqn:Hlast.
      * apply completeLap_invariant in H; [exact H | ].
        clear H. crush_inv.
      * inv_some. split; [ | reflexivity].
        apply Nat.leb_gt in Hlast. crush_inv.
    + rewrite (hitCheckpoint_throws w E) in H. discriminate.
  - rewrite (hitCheckpoint_miss w index Hne) in H. inv_some. split; [assumption | reflexivity].
Qed.

Lemma stampStart_invariant (w : World) :
  invariant w -> invariant (stampStart w) /\ clock (stampStart w) = clock w.
Proof.
  intros Hinv. unfold stampStart.
  destruct (truthy (raceStartTime (sys w))); [split; [assumption | reflexivity] | ].
  split; [ | reflexivity]. crush_inv.
Qed.

Lemma stampStart_sys (w : World) :
  checkpoints (sys (stampStart w)) = checkpoints (sys w) /\
  currentCheckpoint (sys (stampStart w)) = currentCheckpoint (sys w).
Proof. unfold stampStart. destruct (truthy _); split; reflexivity. Qed.

Lemma update_invariant (w w' : World) (p : Vector3) :
  update p w = Some (tt, w') -> invariant w -> invariant w' /\ clock w' = clock w.
Proof.
  intros H Hinv.
  destruct (RaceState_eqb (raceState (sys w)) racing) eqn:Hr.
  - apply RaceState_eqb_eq in Hr.
    destruct (Nat.leb (totalLaps (sys w)) (lapCount (sys w))) eqn:Hl.
    + apply Nat.leb_le in Hl. rewrite (update_race_over w p Hl) in H.
      inv_some. split; [assumption | reflexivity].
    + apply Nat.leb_gt in Hl. rewrite (update_racing w p Hr Hl) in H.
      destruct (nth_error _ _) as [cp | ]; [ | discriminate].
      destruct (stampStart_invariant w Hinv) as [Hinv' Hclk].
      destruct (_ <? _).
      * destruct (stampStart_sys w) as [_ Hcur]. rewrite <- Hcur in H.
        apply hitCheckpoint_invariant in H; [ | assumption].
        destruct H as [H1 H2]. split; [assumption | congruence].
      * inv_some. split; assumption.
  - apply RaceState_eqb_neq in Hr. rewrite (update_not_racing w p Hr) in H.
    inv_some. split; [assumption | reflexivity].
Qed.

Lemma fire_invariant (w w' : World) (n : nat) :
  fire n w = Some (tt, w') -> invariant w -> invariant w' /\ clock w' = clock w.
Proof.
  intros H Hinv.
  destruct (nth_error (timers w) n) as [t | ] eqn:E.
  - rewrite (fire_some w n t E) in H. destruct (callback t) as [ | index alpha]; cbn [runCallback] in H.
    + set (w0 := mkWorld _ _ _ _ _) in H.
      destruct (Z_lt_le_dec 0 (countdownValue (sys w0))) as [Hc | Hc].
      * rewrite (tick_counting w0 Hc) in H. inv_some. split; [ | reflexivity].
        crush_inv.
      * rewrite (tick_go w0 Hc) in H. inv_some. split; [ | reflexivity].
        crush_inv.
    + unfold assign in H. inv_some. split; [ | reflexivity]. crush_inv.
  - rewrite (fire_none w n E) in H. inv_some. split; [assumption | reflexivity].
Qed.

Lemma getTotalTime_frame (w w' : World) (r : R) :
  getTotalTime w = Some (r, w') ->
  w' = w \/ w' = mkWorld (sys w) (clock w) (S (reads w)) (timers w) (log w).
Proof.
  unfold getTotalTime, bind, this, ret, performance_now.
  destruct (negb _); [intros H; inv_some; left; reflexivity | ].
  destruct (RaceState_eqb _ _); intros H; inv_some; [left | right]; reflexivity.
Qed.

Lemma exec_getTotalTime (w w' : World) :
  exec OpGetTotalTime w = Some (tt, w') ->
  w' = w \/ w' = mkWorld (sys w) (clock w) (S (reads w)) (timers w) (log w).
Proof.
  cbn [exec]. unfold bind at 1.
  destruct (getTotalTime w) as [[r w1] | ] eqn:E; [ | discriminate].
  unfold ret. intros H. inv_some. apply (getTotalTime_frame w w' r E).
Qed.

Lemma exec_invariant (o : Op) (w w' : World) :
  exec o w = Some (tt, w') -> invariant w -> invariant w' /\ clock w' = clock w.
Proof.
  destruct o as [ | p | index | | n | ];
    [ | | | | | intros H Hinv; destruct (exec_getTotalTime w w' H) as [-> | ->];
                (split; [exact Hinv | reflexivity]) ];
    cbn [exec].
  - rewrite startCountdown_eq. intros H Hinv. inv_some. split; [ | reflexivity]. crush_inv.
  - apply update_invariant.
  - apply hitCheckpoint_invariant.
  - rewrite reset_eq. intros H Hinv. inv_some. split; [ | reflexivity]. crush_inv.
  - apply fire_invariant.
Qed.

(** No method throws on a tracker whose expected checkpoint exists. *)
Lemma hitCheckpoint_returns (w : World) (index : nat) :
  (currentCheckpoint (sys w) < List.length (checkpoints (sys w)))%nat ->
  exists w', hitCheckpoint index w = Some (tt, w').
Proof.
  intros Hcur.
  destruct (Nat.eq_dec index (currentCheckpoint (sys w))) as [-> | Hne].
  - destruct (nth_error (checkpoints (sys w)) (currentCheckpoint (sys w))) as [cp | ] eqn:E.
    + rewrite (hitCheckpoint_hit w cp E).
      destruct (Nat.leb _ _); [ | eexists; reflexivity].
      rewrite completeLap_eq. cbv zeta.
      destruct (Nat.leb _ _); [rewrite finishRace_eq | ]; eexists; reflexivity.
    + apply nth_error_None in E. lia.
  - exists w. apply hitCheckpoint_miss. exact Hne.
Qed.

Lemma exec_returns (o : Op) (w : World) :
  invariant w -> exists w', exec o w = Some (tt, w').
Proof.
  intros [[Hlen [Hcur _]] _].
  destruct o as [ | p | index | | n | ]; cbn [exec].
  - eexists. apply startCountdown_eq.
  - destruct (RaceState_eqb (raceState (sys w)) racing) eqn:Hr.
    + apply RaceState_eqb_eq in Hr.
      destruct (Nat.leb (totalLaps (sys w)) (lapCount (sys w))) eqn:Hl.
      * apply Nat.leb_le in Hl. exists w. apply update_race_over. exact Hl.
      * apply Nat.leb_gt in Hl. rewrite (update_racing w p Hr Hl).
        destruct (nth_error _ _) as [cp | ] eqn:E; [ | apply nth_error_None in E; lia].
        destruct (_ <? _); [ | eexists; reflexivity].
        destruct (stampStart_sys w) as [Hcps Hc]. rewrite <- Hc.
        apply hitCheckpoint_returns. rewrite Hcps, Hc. lia.
    + apply RaceState_eqb_neq in Hr. exists w. apply update_not_racing. exact Hr.
  - apply hitCheckpoint_returns. lia.
  - eexists. apply reset_eq.
  - destruct (nth_error (timers w) n) as [t | ] eqn:E.
    + rewrite (fire_some w n t E). destruct (callback t) as [ | i a]; cbn [runCallback].
      * set (w0 := mkWorld _ _ _ _ _).
        destruct (Z_lt_le_dec 0 (countdownValue (sys w0))) as [Hc | Hc].
        -- rewrite (tick_counting w0 Hc). eexists. reflexivity.
        -- rewrite (tick_go w0 Hc). eexists. reflexivity.
      * eexists. reflexivity.
    + exists w. apply fire_none. exact E.
  - unfold getTotalTime, bind, ret, this, performance_now.
    destruct (truthy (raceStartTime (sys w))); cbn [negb]; [ | eexists; reflexivity].
    destruct (RaceState_eqb (raceState (sys w)) finished); eexists; reflexivity.
Qed.

Lemma newWorld_invariant td onLap onFinish clk : invariant (newWorld td onLap onFinish clk).
Proof. crush_inv. Qed.

Lemma reachable_invariant (w : World) : Reachable w -> invariant w.
Proof.
  induction 1 as [td onLap onFinish clk | w o w' Hw IH Hstep].
  - apply newWorld_invariant.
  - apply (exec_invariant o w w' Hstep IH).
Qed.

(** In a reachable state every method returns: none throws. *)
Lemma reachable_returns (o : Op) (w : World) :
  Reachable w -> exists w', exec o w = Some (tt, w').
Proof. intros Hr. apply exec_returns. apply reachable_invariant. exact Hr. Qed.

End TrackerMethods.

(** *** Order of the checkpoints, laps and the update outside a race *)

Section TrackerClaims.

Import Checkpoint.

Lemma sampleClock_ok : clock_positive sampleClock.
Proof.
  intros n. unfold sampleClock. pose proof (pos_INR n). lra.
Qed.

Lemma completeLap_fields (w : World) :
  exists w',
    completeLap w = Some (tt, w') /\
    currentCheckpoint (sys w') = 0%nat /\
    lapCount (sys w') = S (lapCount (sys w)) /\
    lapTimes (sys w') = lapTimes (sys w) ++ [lapTimeAt (sys w) (clock w (reads w))] /\
    lastLapTime (sys w') = Some (clock w (reads w)) /\
    bestLapTime (sys w') = bestLapAfter (sys w) (lapTimeAt (sys w) (clock w (reads w))) /\
    checkpoints (sys w') = checkpoints (sys w) /\
    raceStartTime (sys w') = raceStartTime (sys w) /\
    totalLaps (sys w') = totalLaps (sys w).
Proof.
  rewrite completeLap_eq. cbv zeta.
  destruct (Nat.leb _ _).
  - rewrite finishRace_eq. eexists. split; [reflexivity | ]. cbn. repeat split; reflexivity.
  - eexists. split; [reflexivity | ]. cbn. repeat split; reflexivity.
Qed.

(** C10. In every reachable state of the tracker (after the constructor and
    after any sequence of [startCountdown], [update], [hitCheckpoint] and
    [reset] calls, and of timers that expire), [lapCount] is the number of
    entries of [lapTimes]. *)
Theorem lap_count_is_lap_times_length (w : World) :
  Reachable w -> lapCount (sys w) = List.length (lapTimes (sys w)).
Proof.
  intros Hr. destruct (reachable_invariant w Hr) as [[_ [_ [H _]]] _]. exact H.
Qed.

(** C5. Outside the racing state (waiting, countdown or finished),
    [update(position)] returns without an error and changes nothing: no
    field of the tracker, no timer, no clock read, no notification. *)
Theorem update_outside_race_is_noop (w : World) (carPosition : Vector3) :
  raceState (sys w) <> racing -> update carPosition w = Some (tt, w).
Proof. apply update_not_racing. Qed.

Lemma update_outside_race_is_noop_witness :
  raceState (sys freshWorld) <> racing /\
  update (mkVector3 35 0 0) freshWorld = Some (tt, freshWorld).
Proof.
  assert (H : raceState (sys freshWorld) <> racing) by (cbn; discriminate).
  split; [exact H | ].
  apply (update_outside_race_is_noop freshWorld (mkVector3 35 0 0) H).
Defined.

(** C2. Checkpoint order: in every reachable state, [hitCheckpoint(i)] with
    [i] other than [currentCheckpoint] changes nothing at all; a hit of
    [currentCheckpoint] returns and moves [currentCheckpoint] on by exactly 1
    modulo the number of checkpoints (4): to the next index without touching
    the lap count, or, from the last checkpoint, to 0 with one lap more. *)
Theorem checkpoint_order (w : World) (i : nat) :
  Reachable w ->
  (i <> currentCheckpoint (sys w) -> hitCheckpoint i w = Some (tt, w)) /\
  (i = currentCheckpoint (sys w) ->
   exists w',
     hitCheckpoint i w = Some (tt, w') /\
     List.length (checkpoints (sys w')) = List.length (checkpoints (sys w)) /\
     currentCheckpoint (sys w')
     = ((currentCheckpoint (sys w) + 1) mod List.length (checkpoints (sys w)))%nat /\
     ((currentCheckpoint (sys w) + 1 < List.length (checkpoints (sys w)))%nat ->
      currentCheckpoint (sys w') = S (currentCheckpoint (sys w)) /\
      lapCount (sys w') = lapCount (sys w)) /\
     ((currentCheckpoint (sys w) + 1 = List.length (checkpoints (sys w)))%nat ->
      currentCheckpoint (sys w') = 0%nat /\
      lapCount (sys w') = S (lapCount (sys w)))).
Proof.
  intros Hr. destruct (reachable_invariant w Hr) as [[Hlen [Hcur _]] _].
  split; [apply hitCheckpoint_miss | ].
  intros ->.
  destruct (nth_error (checkpoints (sys w)) (currentCheckpoint (sys w))) as [cp | ] eqn:E.
  2:{ apply nth_error_None in E. lia. }
  rewrite (hitCheckpoint_hit w cp E).
  destruct (Nat.leb _ _) eqn:Hlast.
  - apply Nat.leb_le in Hlast.
    destruct (completeLap_fields (afterHit w cp)) as [w' [Hw' [H0 [Hlap [_ [_ [_ [Hcps _]]]]]]]].
    exists w'. split; [exact Hw' | ].
    rewrite Hcps, H0, Hlap. unfold afterHit. cbn. rewrite set_alpha_at_length.
    assert (Heq : (currentCheckpoint (sys w) + 1)%nat = List.length (checkpoints (sys w))) by lia.
    rewrite Heq, Nat.Div0.mod_same. repeat split; try reflexivity; intros; lia.
  - apply Nat.leb_gt in Hlast.
    exists (afterHit w cp). split; [reflexivity | ].
    unfold afterHit. cbn. rewrite set_alpha_at_length.
    rewrite Nat.mod_small by lia.
    repeat split; try reflexivity; intros; lia.
Qed.

Lemma checkpoint_order_witness :
  Reachable freshWorld /\
  hitCheckpoint 2 freshWorld = Some (tt, freshWorld) /\
  exists w', hitCheckpoint 0 freshWorld = Some (tt, w') /\
             currentCheckpoint (sys w') = 1%nat.
Proof.
  assert (H : Reachable freshWorld) by apply Reachable_new.
  split; [exact H | ].
  destruct (checkpoint_order freshWorld 2 H) as [Hmiss _].
  destruct (checkpoint_order freshWorld 0 H) as [_ Hhit].
  split.
  - apply Hmiss. cbn. discriminate.
  - destruct (Hhit eq_refl) as [w' [Hw' [_ [Hmod _]]]].
    exists w'. split; [exact Hw' | ]. rewrite Hmod. reflexivity.
Defined.

Lemma stampStart_stamped (w : World) :
  truthy (raceStartTime (sys w)) = true -> stampStart w = w.
Proof. intros H. unfold stampStart. rewrite H. reflexivity. Qed.

Lemma update_in_zone (w : World) (p : Vector3) (cp : Checkpoint) :
  raceState (sys w) = racing ->
  (lapCount (sys w) < totalLaps (sys w))%nat ->
  truthy (raceStartTime (sys w)) = true ->
  nth_error (checkpoints (sys w)) (currentCheckpoint (sys w)) = Some cp ->
  inZone p cp ->
  update p w =
  if Nat.leb (List.length (checkpoints (sys w))) (S (currentCheckpoint (sys w)))
  then completeLap (afterHit w cp) else Some (tt, afterHit w cp).
Proof.
  intros Hr Hl Hs Hn Hz.
  rewrite (update_racing w p Hr Hl), Hn.
  unfold inZone in Hz. rewrite (Rltb_true _ _ Hz).
  rewrite (stampStart_stamped w Hs). apply hitCheckpoint_hit. exact Hn.
Qed.

Lemma update_out_of_zone (w : World) (p : Vector3) (cp : Checkpoint) :
  raceState (sys w) = racing ->
  (lapCount (sys w) < totalLaps (sys w))%nat ->
  truthy (raceStartTime (sys w)) = true ->
  nth_error (checkpoints (sys w)) (currentCheckpoint (sys w)) = Some cp ->
  ~ inZone p cp ->
  update p w = Some (tt, w).
Proof.
  intros Hr Hl Hs Hn Hz.
  rewrite (update_racing w p Hr Hl), Hn.
  unfold inZone in Hz. rewrite Rltb_false by lra.
  rewrite (stampStart_stamped w Hs). reflexivity.
Qed.

Lemma stamped_truthy (w : World) :
  stamped w -> raceState (sys w) = racing -> truthy (raceStartTime (sys w)) = true.
Proof.
  intros [Hr [Hs _]] Hrace. destruct (Hr Hrace) as [t Ht].
  rewrite Ht. apply truthy_Some. specialize (Hs t Ht). lra.
Qed.

Lemma stamped_lapTimeAt (w : World) (now : R) :
  stamped w ->
  lapTimeAt (sys w) now
  = now - match lastLapTime (sys w) with
          | Some t => t
          | None => toNumber (raceStartTime (sys w))
          end.
Proof.
  intros [_ [_ Hl]]. unfold lapTimeAt.
  destruct (lastLapTime (sys w)) as [t | ]; [ | reflexivity].
  rewrite truthy_Some; [reflexivity | ]. specialize (Hl t eq_refl). lra.
Qed.

(** C3. Lap completion: while racing (and before the last lap is done), four
    updates with the car in the zone of checkpoints 0, 1, 2 and 3 in turn make
    [lapCount] one more, [currentCheckpoint] 0 again, append to [lapTimes] the
    duration [now - lastLapTime] (or [now - raceStartTime] when no lap was
    timed before), and set [lastLapTime] to [now], the clock read by
    [completeLap]. *)
Theorem lap_completion (w : World) (p0 p1 p2 p3 : Vector3) :
  Reachable w ->
  clock_positive (clock w) ->
  raceState (sys w) = racing ->
  (lapCount (sys w) < totalLaps (sys w))%nat ->
  currentCheckpoint (sys w) = 0%nat ->
  Forall2 inZone [p0; p1; p2; p3] (checkpoints (sys w)) ->
  exists w',
    execAll [OpUpdate p0; OpUpdate p1; OpUpdate p2; OpUpdate p3] w = Some (tt, w') /\
    let now := clock w (reads w) in
    lapCount (sys w') = (lapCount (sys w) + 1)%nat /\
    currentCheckpoint (sys w') = 0%nat /\
    lapTimes (sys w')
    = lapTimes (sys w)
      ++ [now - match lastLapTime (sys w) with
                | Some t => t
                | None => toNumber (raceStartTime (sys w))
                end] /\
    lastLapTime (sys w') = Some now.
Proof.
  intros Hreach Hclk Hrace Hlaps Hcur Hzones.
  destruct (reachable_invariant w Hreach) as [_ Hst]. specialize (Hst Hclk).
  pose proof (stamped_truthy w Hst Hrace) as Hstart.
  pose proof (stamped_lapTimeAt w (clock w (reads w)) Hst) as Hlt.
  destruct w as [[cps cur lc tl rst lts llt blt rs cv ol orf] clk rd tms lg].
  cbn in *. subst cur rs.
  inversion Hzones as [ | ? c0 ? l0 Hz0 Hzones0]; subst.
  inversion Hzones0 as [ | ? c1 ? l1 Hz1 Hzones1]; subst.
  inversion Hzones1 as [ | ? c2 ? l2 Hz2 Hzones2]; subst.
  inversion Hzones2 as [ | ? c3 ? l3 Hz3 Hzones3]; subst.
  inversion Hzones3; subst.
  unfold execAll, exec, bind.
  rewrite (update_in_zone _ p0 c0) by (cbn; first [reflexivity | assumption]).
  cbn -[completeLap update].
  rewrite (update_in_zone _ p1 c1) by (cbn; first [reflexivity | assumption]).
  cbn -[completeLap update].
  rewrite (update_in_zone _ p2 c2) by (cbn; first [reflexivity | assumption]).
  cbn -[completeLap update].
  rewrite (update_in_zone _ p3 c3) by (cbn; first [reflexivity | assumption]).
  cbn -[completeLap update].
  match goal with
  | |- context [completeLap ?w0] =>
      destruct (completeLap_fields w0) as [w' [Hw' [H0 [Hlap [Htimes [Hlast _]]]]]]
  end.
  rewrite Hw'. exists w'. split; [reflexivity | ].
  cbn in *. rewrite H0, Hlap, Htimes, Hlast.
  unfold lapTimeAt in *. cbn in *. rewrite Hlt.
  repeat split; try reflexivity. lia.
Qed.

End TrackerClaims.

(** *** Whole races: the timers, the restart and the total time *)

Section TrackerRuns.

Import Checkpoint.

Lemma execAll_app (ops ops' : list Op) (w : World) :
  execAll (ops ++ ops') w
  = match execAll ops w with Some (_, w') => execAll ops' w' | None => None end.
Proof.
  revert w. induction ops as [ | o ops IH]; intros w.
  - reflexivity.
  - cbn [app]. rewrite !execAll_cons. destruct (exec o w) as [[[] w'] | ]; [apply IH | reflexivity].
Qed.

Lemma reachable_execAll (ops : list Op) (w w' : World) :
  Reachable w -> execAll ops w = Some (tt, w') -> Reachable w'.
Proof.
  revert w. induction ops as [ | o ops IH]; intros w Hw H.
  - rewrite execAll_nil in H. congruence.
  - rewrite execAll_cons in H. destruct (exec o w) as [[[] w1] | ] eqn:E; [ | discriminate].
    apply (IH w1); [ | exact H]. apply (Reachable_step w o w1 Hw E).
Qed.

(** The first race: the countdown says 3, 2, 1 and GO once, no timer is left,
    and the race runs from the time of the GO. *)
Lemma first_countdown (trackDefinition : TrackDefinition) (onLap onFinish : bool)
      (clk : nat -> R) :
  execAll countdownToGo (newWorld trackDefinition onLap onFinish clk)
  = Some (tt, mkWorld
                (set_raceStartTime (Some (clk 0%nat))
                   (set_raceState racing
                      (set_countdownValue 0%Z (constructor trackDefinition onLap onFinish))))
                clk 1 []
                [CountdownTick 3; CountdownTick 2; CountdownTick 1; CountdownGo]).
Proof. reflexivity. Qed.

(** [completeLap] looks for a best lap with [!this.bestLapTime], which takes
    a best lap of 0 ms for none.  On a clock that reads the same at the GO
    and at the end of the first lap (no reading of a running game: a lap
    takes the car through four gates, frames apart) the lap times are 0, 500
    and 500 and the best lap kept and reported is 500.  This is why the best
    lap is the least lap time among lap times other than 0. *)
Remark best_lap_lost_after_zero_lap :
  exists w,
    execAll fullRace (newWorld ovalTrack true true stuckClock) = Some (tt, w) /\
    raceState (sys w) = finished /\
    lapCount (sys w) = totalLaps (sys w) /\
    lapTimes (sys w) = [0; 500; 500] /\
    minimum (lapTimes (sys w)) = Some 0 /\
    bestLapTime (sys w) = Some 500 /\
    bestLapTime (sys w) <> minimum (lapTimes (sys w)) /\
    log w = [CountdownTick 3; CountdownTick 2; CountdownTick 1; CountdownGo;
             LapComplete 1 0; LapComplete 2 500; LapComplete 3 500;
             RaceFinish 1000 (Some 500)].
Proof.
  eexists. split.
  - unfold fullRace, countdownToGo, lapByUpdates, onCheckpoint0, onCheckpoint1,
      onCheckpoint2, onCheckpoint3.
    cbn [app]. js_run. reflexivity.
  - cbn [sys raceState lapCount totalLaps lapTimes bestLapTime log].
    replace (1000 - 1000) with 0 by lra.
    replace (1500 - 1000) with 500 by lra.
    replace (2000 - 1500) with 500 by lra.
    replace (2000 - 1000) with 1000 by lra.
    assert (Hmin : minimum [0; 500; 500] = Some 0).
    { cbn [minimum]. f_equal. unfold Rmin. repeat destruct (Rle_dec _ _); lra. }
    rewrite Hmin. repeat split.
    intros H. inversion H. lra.
Qed.

(** [reset] puts every field of the race back to what the constructor gave
    it; the checkpoints, the callbacks, the clock, the notifications sent and
    the timers that wait are as they were. *)
Lemma reset_restores (w : World) :
  exists w',
    reset w = Some (tt, w') /\
    sys w' = mkCheckpointSystem (checkpoints (sys w)) 0 0 (totalLaps (sys w))
               None [] None None waiting 3
               (onLapComplete (sys w)) (onRaceFinish (sys w)) /\
    checkpoints (sys w') = checkpoints (sys w) /\
    timers w' = timers w /\ log w' = log w /\ reads w' = reads w /\ clock w' = clock w.
Proof.
  eexists. split; [apply reset_eq | ]. cbn. repeat split; reflexivity.
Qed.

(** With no countdown closure waiting, [reset] then [startCountdown] leave the
    race as the constructor then [startCountdown] do: the same fields (the
    checkpoints are those the tracker has), one countdown closure in the
    queue. *)
Lemma first_start (trackDefinition : TrackDefinition) (onLap onFinish : bool)
      (clk : nat -> R) :
  exists w',
    startCountdown (newWorld trackDefinition onLap onFinish clk) = Some (tt, w') /\
    sys w' = mkCheckpointSystem (createCheckpoints trackDefinition) 0 0 3
               None [] None None countdown 3 onLap onFinish /\
    pendingTicks w' = 1%nat.
Proof. eexists. split; [apply startCountdown_eq | ]. split; reflexivity. Qed.

Lemma restart_like_first_start (w : World) :
  totalLaps (sys w) = 3%nat ->
  pendingTicks w = 0%nat ->
  exists w',
    execAll [OpReset; OpStartCountdown] w = Some (tt, w') /\
    sys w' = mkCheckpointSystem (checkpoints (sys w)) 0 0 3
               None [] None None countdown 3
               (onLapComplete (sys w)) (onRaceFinish (sys w)) /\
    pendingTicks w' = 1%nat.
Proof.
  intros Htl Hp. eexists. split.
  { rewrite execAll_cons. cbn [exec]. rewrite reset_eq.
    rewrite execAll_cons. cbn [exec]. rewrite startCountdown_eq. apply execAll_nil. }
  unfold pendingTicks in *. cbn [sys timers]. unfold set_countdownValue, set_raceState.
  cbn [checkpoints currentCheckpoint lapCount totalLaps raceStartTime lapTimes lastLapTime
       bestLapTime raceState countdownValue onLapComplete onRaceFinish].
  rewrite Htl. split; [reflexivity | ].
  rewrite filter_app, length_app, Hp. reflexivity.
Qed.

Lemma filter_remove_nth {A : Type} (f : A -> bool) (n : nat) (l : list A) (t : A) :
  nth_error l n = Some t ->
  (List.length (filter f (remove_nth n l)) + (if f t then 1 else 0))%nat
  = List.length (filter f l).
Proof.
  revert n. induction l as [ | a l IH]; intros [ | n] H; cbn in *; try discriminate.
  - inversion H; subst. destruct (f t); cbn; lia.
  - specialize (IH n H). destruct (f a); cbn; lia.
Qed.

Lemma finishRace_chains (w w' : World) :
  finishRace w = Some (tt, w') -> chains w' = chains w.
Proof.
  rewrite finishRace_eq. intros H. inv_some. unfold chains, pendingTicks, goCount. cbn.
  rewrite filter_app, length_app. destruct (onRaceFinish (sys w)); cbn; lia.
Qed.

Lemma completeLap_chains (w w' : World) :
  completeLap w = Some (tt, w') -> chains w' = chains w.
Proof.
  rewrite completeLap_eq. cbv zeta. intros H.
  assert (Hc : chains
                 (mkWorld
                    (set_bestLapTime (bestLapAfter (sys w) (lapTimeAt (sys w) (clock w (reads w))))
                       (set_lapTimes (lapTimes (sys w) ++ [lapTimeAt (sys w) (clock w (reads w))])
                          (set_lastLapTime (Some (clock w (reads w)))
                             (set_currentCheckpoint 0
                                (set_lapCount (S (lapCount (sys w))) (sys w))))))
                    (clock w) (S (reads w)) (timers w)
                    (log w ++ (if onLapComplete (sys w)
                               then [LapComplete (S (lapCount (sys w)))
                                                 (lapTimeAt (sys w) (clock w (reads w)))]
                               else [])))
               = chains w).
  { unfold chains, pendingTicks, goCount. cbn.
    rewrite filter_app, length_app. destruct (onLapComplete (sys w)); cbn; lia. }
  destruct (Nat.leb _ _).
  - apply finishRace_chains in H. congruence.
  - inv_some. exact Hc.
Qed.

Lemma hitCheckpoint_chains (w w' : World) (index : nat) :
  hitCheckpoint index w = Some (tt, w') -> chains w' = chains w.
Proof.
  intros H.
  destruct (Nat.eq_dec index (currentCheckpoint (sys w))) as [-> | Hne].
  - destruct (nth_error (checkpoints (sys w)) (currentCheckpoint (sys w))) as [cp | ] eqn:E.
    + rewrite (hitCheckpoint_hit w cp E) in H.
      assert (Hc : chains (afterHit w cp) = chains w).
      { unfold chains, pendingTicks, goCount, afterHit. cbn.
        rewrite filter_app, length_app. cbn. lia. }
      destruct (Nat.leb _ _).
      * apply completeLap_chains in H. congruence.
      * inv_some. exact Hc.
    + rewrite (hitCheckpoint_throws w E) in H. discriminate.
  - rewrite (hitCheckpoint_miss w index Hne) in H. inv_some. reflexivity.
Qed.

Lemma stampStart_chains (w : World) : chains (stampStart w) = chains w.
Proof. unfold stampStart. destruct (truthy _); reflexivity. Qed.

Lemma update_chains (w w' : World) (p : Vector3) :
  update p w = Some (tt, w') -> chains w' = chains w.
Proof.
  intros H.
  destruct (RaceState_eqb (raceState (sys w)) racing) eqn:Hr.
  - apply RaceState_eqb_eq in Hr.
    destruct (Nat.leb (totalLaps (sys w)) (lapCount (sys w))) eqn:Hl.
    + apply Nat.leb_le in Hl. rewrite (update_race_over w p Hl) in H. inv_some. reflexivity.
    + apply Nat.leb_gt in Hl. rewrite (update_racing w p Hr Hl) in H.
      destruct (nth_error _ _) as [cp | ]; [ | discriminate].
      destruct (_ <? _).
      * destruct (stampStart_sys w) as [_ Hcur]. rewrite <- Hcur in H.
        apply hitCheckpoint_chains in H. rewrite H. apply stampStart_chains.
      * inv_some. apply stampStart_chains.
  - apply RaceState_eqb_neq in Hr. rewrite (update_not_racing w p Hr) in H.
    inv_some. reflexivity.
Qed.

Lemma fire_chains (w w' : World) (n : nat) :
  fire n w = Some (tt, w') -> chains w' = chains w.
Proof.
  intros H.
  destruct (nth_error (timers w) n) as [t | ] eqn:E.
  - rewrite (fire_some w n t E) in H.
    pose proof (filter_remove_nth isTick n (timers w) t E) as Hrm.
    unfold isTick at 2 in Hrm.
    destruct (callback t) as [ | index alpha]; cbn [runCallback] in H.
    + set (w0 := mkWorld _ _ _ _ _) in H.
      destruct (Z_lt_le_dec 0 (countdownValue (sys w0))) as [Hc | Hc].
      * rewrite (tick_counting w0 Hc) in H. inv_some.
        unfold chains, pendingTicks, goCount. cbn.
        rewrite !filter_app, !length_app. cbn. lia.
      * rewrite (tick_go w0 Hc) in H. inv_some.
        unfold chains, pendingTicks, goCount. cbn.
        rewrite !filter_app, !length_app. cbn. lia.
    + unfold assign in H. inv_some. unfold chains, pendingTicks, goCount. cbn. lia.
  - rewrite (fire_none w n E) in H. inv_some. reflexivity.
Qed.

(** Every countdown closure in the queue ends by saying GO, whatever else
    happens meanwhile: a reset, updates, hits, timers in any order.  Only
    [startCountdown] adds one. *)
Lemma exec_chains (o : Op) (w w' : World) :
  exec o w = Some (tt, w') ->
  chains w' = (chains w + (if startsCountdown o then 1 else 0))%nat.
Proof.
  destruct o as [ | p | index | | n | ];
    [ | | | | | intros H; destruct (exec_getTotalTime w w' H) as [-> | ->];
                cbn [startsCountdown]; rewrite Nat.add_0_r; reflexivity ];
    cbn [exec startsCountdown]; intros H; rewrite ?Nat.add_0_r.
  - rewrite startCountdown_eq in H. inv_some. unfold chains, pendingTicks, goCount. cbn.
    rewrite filter_app, length_app. cbn. lia.
  - apply (update_chains w w' p H).
  - apply (hitCheckpoint_chains w w' index H).
  - rewrite reset_eq in H. inv_some. reflexivity.
  - apply (fire_chains w w' n H).
Qed.

Lemma pending_countdowns_all_say_go (ops : list Op) (w w' : World) :
  forallb (fun o => negb (startsCountdown o)) ops = true ->
  execAll ops w = Some (tt, w') ->
  pendingTicks w' = 0%nat ->
  goCount w' = (goCount w + pendingTicks w)%nat.
Proof.
  revert w. induction ops as [ | o ops IH]; intros w Hops H Hq.
  - rewrite execAll_nil in H. inv_some. lia.
  - cbn [forallb] in Hops. apply andb_prop in Hops. destruct Hops as [Ho Hops].
    rewrite execAll_cons in H. destruct (exec o w) as [[[] w1] | ] eqn:E; [ | discriminate].
    specialize (IH w1 Hops H Hq).
    pose proof (exec_chains o w w1 E) as Hc.
    destruct (startsCountdown o); [discriminate | ].
    unfold chains in Hc. lia.
Qed.

(** C6, on a race restarted during the countdown.  After the first
    [startCountdown] the tracker says 3, 2, 1 and GO, once.  When [reset] and
    [startCountdown] come while the first countdown still has a timer in the
    queue, [reset] gives the fields their first values but leaves the timer:
    after the restart the tracker says 3, 2, 1 at twice the pace and GO
    twice, and the second GO stamps the start of the race once more. *)
Theorem restart_during_countdown_diverges :
  (exists w,
     execAll countdownToGo freshWorld = Some (tt, w) /\
     log w = [CountdownTick 3; CountdownTick 2; CountdownTick 1; CountdownGo] /\
     raceStartTime (sys w) = Some (sampleClock 0) /\
     timers w = []) /\
  (exists w,
     execAll [OpStartCountdown; OpFire 0; OpReset] freshWorld = Some (tt, w) /\
     sys w = sys freshWorld /\
     timers w = [mkTimer Tick 1000]) /\
  (exists w,
     execAll restartDuringCountdown freshWorld = Some (tt, w) /\
     log w = [CountdownTick 3;
              CountdownTick 3; CountdownTick 2; CountdownTick 1; CountdownGo; CountdownGo] /\
     raceStartTime (sys w) = Some (sampleClock 1) /\
     timers w = []).
Proof.
  split; [ | split].
  - eexists. split; [unfold countdownToGo, freshWorld; js_run; reflexivity | ].
    repeat split.
  - eexists. split; [unfold freshWorld; js_run; reflexivity | ]. repeat split.
  - eexists. split; [unfold restartDuringCountdown, freshWorld; js_run; reflexivity | ].
    repeat split.
Qed.

Lemma gridWorld_reachable : Reachable gridWorld.
Proof.
  apply (reachable_execAll countdownToGo freshWorld).
  - apply Reachable_new.
  - apply first_countdown.
Qed.

Lemma oval_zones :
  Forall2 inZone [onCheckpoint0; onCheckpoint1; onCheckpoint2; onCheckpoint3]
          (createCheckpoints ovalTrack).
Proof.
  unfold createCheckpoints, checkpointAngles, forEach_push, ovalTrack,
    onCheckpoint0, onCheckpoint1, onCheckpoint2, onCheckpoint3.
  cbn [td_innerRadius td_outerRadius].
  repeat (apply Forall2_cons;
          [unfold inZone; cbn [cp_position cp_radius]; js_zone | ]).
  apply Forall2_nil.
Qed.

Lemma lap_completion_witness :
  Reachable gridWorld /\
  clock_positive (clock gridWorld) /\
  raceState (sys gridWorld) = racing /\
  exists w',
    execAll [OpUpdate onCheckpoint0; OpUpdate onCheckpoint1;
             OpUpdate onCheckpoint2; OpUpdate onCheckpoint3] gridWorld = Some (tt, w') /\
    lapCount (sys w') = (lapCount (sys gridWorld) + 1)%nat /\
    currentCheckpoint (sys w') = 0%nat /\
    lapTimes (sys w')
    = lapTimes (sys gridWorld)
      ++ [clock gridWorld (reads gridWorld)
          - match lastLapTime (sys gridWorld) with
            | Some t => t
            | None => toNumber (raceStartTime (sys gridWorld))
            end] /\
    lastLapTime (sys w') = Some (clock gridWorld (reads gridWorld)).
Proof.
  split; [exact gridWorld_reachable | ].
  split; [exact sampleClock_ok | ].
  split; [reflexivity | ].
  apply (lap_completion gridWorld onCheckpoint0 onCheckpoint1 onCheckpoint2 onCheckpoint3).
  - exact gridWorld_reachable.
  - exact sampleClock_ok.
  - reflexivity.
  - unfold gridWorld, constructor. cbn [sys lapCount totalLaps set_raceStartTime set_raceState
      set_countdownValue]. lia.
  - reflexivity.
  - exact oval_zones.
Defined.

(** [getTotalTime] tests [raceStartTime] before it looks at the state.
    Direct calls of [hitCheckpoint] on a tracker that waits, which the game
    never makes, finish a race that has no start time: the lap times add up
    to 1002 and [getTotalTime] returns 0.  This is why the total time is
    stated on the states of [Driven]. *)
Remark total_time_of_unstamped_finish :
  exists w,
    execAll (lapByHits ++ lapByHits ++ lapByHits) freshWorld = Some (tt, w) /\
    Reachable w /\
    clock_positive (clock w) /\
    raceState (sys w) = finished /\
    fold_left (fun a b => a + b) (lapTimes (sys w)) 0 = 1002 /\
    getTotalTime w = Some (0, w) /\
    (forall w', getTotalTime w
                <> Some (fold_left (fun a b => a + b) (lapTimes (sys w)) 0, w')).
Proof.
  assert (H : exists w, execAll (lapByHits ++ lapByHits ++ lapByHits) freshWorld = Some (tt, w) /\
                        clock w = sampleClock /\
                        raceState (sys w) = finished /\
                        raceStartTime (sys w) = None /\
                        lapTimes (sys w) = [sampleClock 0 - 0; sampleClock 1 - sampleClock 0;
                                            sampleClock 2 - sampleClock 1]).
  { eexists. split; [unfold lapByHits, freshWorld; cbn [app]; js_run; reflexivity | ].
    repeat split. }
  destruct H as [w [Hrun [Hclk [Hfin [Hstart Htimes]]]]].
  exists w. split; [exact Hrun | ].
  split; [apply (reachable_execAll _ freshWorld w (Reachable_new _ _ _ _) Hrun) | ].
  split; [rewrite Hclk; exact sampleClock_ok | ].
  split; [exact Hfin | ].
  assert (Hsum : fold_left (fun a b => a + b) (lapTimes (sys w)) 0 = 1002)
    by (rewrite Htimes; cbn [fold_left]; unfold sampleClock; js_arith).
  assert (Hget : getTotalTime w = Some (0, w))
    by (unfold getTotalTime, bind, this, ret; rewrite Hstart; reflexivity).
  split; [exact Hsum | ]. split; [exact Hget | ].
  intros w' H. rewrite Hget, Hsum in H. inversion H. lra.
Qed.

Lemma getTotalTime_unset (w : World) :
  truthy (raceStartTime (sys w)) = false -> getTotalTime w = Some (0, w).
Proof. intros H. unfold getTotalTime, bind, this, ret. rewrite H. reflexivity. Qed.

Lemma getTotalTime_finished (w : World) :
  truthy (raceStartTime (sys w)) = true ->
  raceState (sys w) = finished ->
  getTotalTime w = Some (fold_left (fun a b => a + b) (lapTimes (sys w)) 0, w).
Proof. intros H Hf. unfold getTotalTime, bind, this, ret. rewrite H, Hf. reflexivity. Qed.

Lemma getTotalTime_running (w : World) :
  truthy (raceStartTime (sys w)) = true ->
  raceState (sys w) <> finished ->
  getTotalTime w
  = Some (clock w (reads w) - toNumber (raceStartTime (sys w)),
          mkWorld (sys w) (clock w) (S (reads w)) (timers w) (log w)).
Proof.
  intros H Hf. unfold getTotalTime, bind, this, ret, performance_now. rewrite H.
  apply RaceState_eqb_neq in Hf. rewrite Hf. reflexivity.
Qed.

End TrackerRuns.

(** *** The best lap *)

Section BestLap.

Import Checkpoint.

Lemma minimum_snoc (l : list R) (x : R) :
  minimum (l ++ [x])
  = match minimum l with
    | None => Some x
    | Some m => Some (Rmin m x)
    end.
Proof.
  induction l as [ | a l IH]; [reflexivity | ].
  cbn [app minimum]. rewrite IH.
  destruct (minimum l) as [m | ]; [ | reflexivity].
  f_equal. unfold Rmin. repeat destruct (Rle_dec _ _); lra.
Qed.

Lemma minimum_in (l : list R) (m : R) : minimum l = Some m -> In m l.
Proof.
  revert m. induction l as [ | a l IH]; intros m H; [discriminate | ].
  cbn [minimum] in H. destruct (minimum l) as [m' | ].
  - inversion H; subst. unfold Rmin. destruct (Rle_dec a m').
    + left. reflexivity.
    + right. apply IH. reflexivity.
  - inversion H; subst. left. reflexivity.
Qed.

Lemma bestLapAfter_minimum (s : CheckpointSystem) (lapTime : R) :
  Forall (fun t => t <> 0) (lapTimes s ++ [lapTime]) ->
  (Forall (fun t => t <> 0) (lapTimes s) -> bestLapTime s = minimum (lapTimes s)) ->
  bestLapAfter s lapTime = minimum (lapTimes s ++ [lapTime]).
Proof.
  intros Hall Hbest. apply Forall_app in Hall. destruct Hall as [Hl Hx].
  specialize (Hbest Hl). rewrite minimum_snoc. unfold bestLapAfter. rewrite Hbest.
  destruct (minimum (lapTimes s)) as [m | ] eqn:E; [ | reflexivity].
  assert (Hm : m <> 0).
  { apply minimum_in in E. rewrite Forall_forall in Hl. apply Hl. exact E. }
  rewrite (truthy_Some m Hm). cbn [negb toNumber].
  unfold Rmin. destruct (Rltb_spec lapTime m) as [Hlt | Hge];
    destruct (Rle_dec m lapTime); try reflexivity; try lra.
Qed.

Lemma finishRace_best (w w' : World) :
  finishRace w = Some (tt, w') -> bestIsMinimum w -> bestIsMinimum w'.
Proof. rewrite finishRace_eq. intros H Hb. inv_some. exact Hb. Qed.

Lemma completeLap_best (w w' : World) :
  completeLap w = Some (tt, w') -> bestIsMinimum w -> bestIsMinimum w'.
Proof.
  rewrite completeLap_eq. cbv zeta. intros H Hb.
  assert (Hb1 : bestIsMinimum
                  (mkWorld
                     (set_bestLapTime (bestLapAfter (sys w) (lapTimeAt (sys w) (clock w (reads w))))
                        (set_lapTimes (lapTimes (sys w) ++ [lapTimeAt (sys w) (clock w (reads w))])
                           (set_lastLapTime (Some (clock w (reads w)))
                              (set_currentCheckpoint 0
                                 (set_lapCount (S (lapCount (sys w))) (sys w))))))
                     (clock w) (S (reads w)) (timers w)
                     (log w ++ (if onLapComplete (sys w)
                                then [LapComplete (S (lapCount (sys w)))
                                                  (lapTimeAt (sys w) (clock w (reads w)))]
                                else [])))).
  { unfold bestIsMinimum. cbn [sys lapTimes bestLapTime set_bestLapTime set_lapTimes].
    intros Hall. apply bestLapAfter_minimum; assumption. }
  destruct (Nat.leb _ _).
  - apply (finishRace_best _ w' H Hb1).
  - inv_some. exact Hb1.
Qed.

Lemma hitCheckpoint_best (w w' : World) (index : nat) :
  hitCheckpoint index w = Some (tt, w') -> bestIsMinimum w -> bestIsMinimum w'.
Proof.
  intros H Hb.
  destruct (Nat.eq_dec index (currentCheckpoint (sys w))) as [-> | Hne].
  - destruct (nth_error (checkpoints (sys w)) (currentCheckpoint (sys w))) as [cp | ] eqn:E.
    + rewrite (hitCheckpoint_hit w cp E) in H.
      assert (Hb1 : bestIsMinimum (afterHit w cp)) by exact Hb.
      destruct (Nat.leb _ _).
      * apply (completeLap_best _ w' H Hb1).
      * inv_some. exact Hb1.
    + rewrite (hitCheckpoint_throws w E) in H. discriminate.
  - rewrite (hitCheckpoint_miss w index Hne) in H. inv_some. exact Hb.
Qed.

Lemma stampStart_best (w : World) : bestIsMinimum w -> bestIsMinimum (stampStart w).
Proof. unfold stampStart. destruct (truthy _); intros H; exact H. Qed.

Lemma update_best (w w' : World) (p : Vector3) :
  update p w = Some (tt, w') -> bestIsMinimum w -> bestIsMinimum w'.
Proof.
  intros H Hb.
  destruct (RaceState_eqb (raceState (sys w)) racing) eqn:Hr.
  - apply RaceState_eqb_eq in Hr.
    destruct (Nat.leb (totalLaps (sys w)) (lapCount (sys w))) eqn:Hl.
    + apply Nat.leb_le in Hl. rewrite (update_race_over w p Hl) in H. inv_some. exact Hb.
    + apply Nat.leb_gt in Hl. rewrite (update_racing w p Hr Hl) in H.
      destruct (nth_error _ _) as [cp | ]; [ | discriminate].
      destruct (_ <? _).
      * destruct (stampStart_sys w) as [_ Hcur]. rewrite <- Hcur in H.
        apply (hitCheckpoint_best _ w' _ H). apply stampStart_best. exact Hb.
      * inv_some. apply stampStart_best. exact Hb.
  - apply RaceState_eqb_neq in Hr. rewrite (update_not_racing w p Hr) in H.
    inv_some. exact Hb.
Qed.

Lemma fire_best (w w' : World) (n : nat) :
  fire n w = Some (tt, w') -> bestIsMinimum w -> bestIsMinimum w'.
Proof.
  intros H Hb.
  destruct (nth_error (timers w) n) as [t | ] eqn:E.
  - rewrite (fire_some w n t E) in H.
    destruct (callback t) as [ | index alpha]; cbn [runCallback] in H.
    + set (w0 := mkWorld _ _ _ _ _) in H.
      destruct (Z_lt_le_dec 0 (countdownValue (sys w0))) as [Hc | Hc].
      * rewrite (tick_counting w0 Hc) in H. inv_some. exact Hb.
      * rewrite (tick_go w0 Hc) in H. inv_some. exact Hb.
    + unfold assign in H. inv_some. exact Hb.
  - rewrite (fire_none w n E) in H. inv_some. exact Hb.
Qed.

Lemma exec_best (o : Op) (w w' : World) :
  exec o w = Some (tt, w') -> bestIsMinimum w -> bestIsMinimum w'.
Proof.
  destruct o as [ | p | index | | n | ];
    [ | | | | | intros H Hb; destruct (exec_getTotalTime w w' H) as [-> | ->]; exact Hb ];
    cbn [exec].
  - rewrite startCountdown_eq. intros H Hb. inv_some. exact Hb.
  - apply update_best.
  - apply hitCheckpoint_best.
  - rewrite reset_eq. intros H Hb. inv_some. intros _. reflexivity.
  - apply fire_best.
Qed.

(** What [completeLap] gets right: in every reachable state the best lap is
    the least of the lap times, unless one of them is zero. *)
Lemma best_lap_is_minimum (w : World) :
  Reachable w ->
  Forall (fun t => t <> 0) (lapTimes (sys w)) ->
  bestLapTime (sys w) = minimum (lapTimes (sys w)).
Proof.
  induction 1 as [td onLap onFinish clk | w o w' Hw IH Hstep].
  - intros _. reflexivity.
  - apply (exec_best o w w' Hstep IH).
Qed.

End BestLap.

(** *** The end of the race *)

Section RaceSession.

Import Checkpoint.

Lemma stampStart_session (w : World) :
  onRaceFinish (sys (stampStart w)) = onRaceFinish (sys w) /\
  raceState (sys (stampStart w)) = raceState (sys w) /\
  lapCount (sys (stampStart w)) = lapCount (sys w) /\
  totalLaps (sys (stampStart w)) = totalLaps (sys w) /\
  log (stampStart w) = log w.
Proof. unfold stampStart. destruct (truthy _); repeat split; reflexivity. Qed.

Lemma hit_session (w w' : World) (cp : Checkpoint) :
  nth_error (checkpoints (sys w)) (currentCheckpoint (sys w)) = Some cp ->
  hitCheckpoint (currentCheckpoint (sys w)) w = Some (tt, w') ->
  onRaceFinish (sys w) = true ->
  raceState (sys w) = racing ->
  (lapCount (sys w) < totalLaps (sys w))%nat ->
  finishCount w = 0%nat ->
  session w'.
Proof.
  intros E H Hcb Hr Hl Hf.
  rewrite (hitCheckpoint_hit w cp E) in H.
  destruct (Nat.leb _ _).
  - rewrite completeLap_eq in H. cbv zeta in H.
    unfold afterHit in H.
    cbn [sys clock reads timers log lapCount totalLaps onLapComplete
         set_currentCheckpoint set_alpha set_checkpoints] in H.
    destruct (Nat.leb (totalLaps (sys w)) (S (lapCount (sys w)))) eqn:Hlast.
    + rewrite finishRace_eq in H. inv_some.
      apply Nat.leb_le in Hlast.
      unfold session, finishCount in *. cbn. rewrite Hcb.
      split; [reflexivity | right]. split; [reflexivity | ]. split; [lia | ].
      rewrite !filter_app, !length_app, Hf.
      destruct (onLapComplete (sys w)); reflexivity.
    + inv_some. apply Nat.leb_gt in Hlast.
      unfold session, finishCount in *. cbn.
      split; [exact Hcb | left]. split; [exact Hr | ]. split; [lia | ].
      rewrite filter_app, length_app, Hf.
      destruct (onLapComplete (sys w)); reflexivity.
  - inv_some. unfold session, finishCount, afterHit in *. cbn.
    split; [exact Hcb | left]. repeat split; assumption.
Qed.

Lemma update_session (w w' : World) (p : Vector3) :
  update p w = Some (tt, w') -> session w -> session w'.
Proof.
  intros H [Hcb [[Hr [Hl Hf]] | [Hr [Hl Hf]]]].
  - rewrite (update_racing w p Hr Hl) in H.
    destruct (nth_error _ _) as [cp | ] eqn:E; [ | discriminate].
    destruct (stampStart_session w) as [Hcb' [Hr' [Hlc' [Htl' Hlog']]]].
    destruct (stampStart_sys w) as [Hcps Hcur].
    destruct (_ <? _).
    + rewrite <- Hcur, <- Hcps in E. rewrite <- Hcur in H.
      apply (hit_session (stampStart w) w' cp E H).
      * congruence.
      * congruence.
      * lia.
      * unfold finishCount in *. rewrite Hlog'. exact Hf.
    + inv_some. unfold session, finishCount in *.
      rewrite Hcb', Hr', Hlc', Htl', Hlog'.
      split; [exact Hcb | left; repeat split; assumption].
  - rewrite update_not_racing in H by (rewrite Hr; discriminate).
    inv_some. split; [exact Hcb | right; repeat split; assumption].
Qed.

(** A race session, from the GO on, driven by [update] with any positions:
    [onRaceFinish] is not called while laps are left, and it has been called
    exactly once, with the race finished, as soon as [lapCount] is
    [totalLaps]; later updates change nothing. *)
Lemma race_finishes_once (positions : list Vector3) (w w' : World) :
  session w ->
  execAll (map OpUpdate positions) w = Some (tt, w') ->
  session w'.
Proof.
  revert w. induction positions as [ | p ps IH]; intros w Hs H.
  - cbn [map] in H. rewrite execAll_nil in H. inv_some. exact Hs.
  - cbn [map] in H. rewrite execAll_cons in H. cbn [exec] in H.
    destruct (update p w) as [[[] w1] | ] eqn:E; [ | discriminate].
    apply (IH w1); [ | exact H]. apply (update_session w w1 p E Hs).
Qed.

Lemma gridWorld_session : session gridWorld.
Proof.
  split; [reflexivity | left]. repeat split. unfold gridWorld, constructor.
  cbn [sys lapCount totalLaps set_raceStartTime set_raceState set_countdownValue]. lia.
Qed.

End RaceSession.

(** ** Further properties of the car *)

Section CarExtras.

Import CarModel.

Lemma throttle_coasting (c : Car) (input : Input) (deltaTime : R) :
  0 <= deltaTime -> accelerate input = false -> brake input = false ->
  Rabs (throttle c input deltaTime) <= Rabs (currentSpeed c) /\
  (Rabs (currentSpeed c) <= CAR_CONFIG.deceleration * deltaTime ->
   throttle c input deltaTime = 0).
Proof.
  intros Hdt Ha Hb. unfold throttle, Rgtb, CAR_CONFIG.deceleration. rewrite Ha, Hb.
  destruct (Rltb_spec 0 (currentSpeed c)) as [Hpos | Hpos];
    [ | destruct (Rltb_spec (currentSpeed c) 0) as [Hneg | Hneg] ];
    unfold Rmax, Rmin, Rabs;
    repeat destruct (Rle_dec _ _); repeat destruct (Rcase_abs _);
    split; intros; lra.
Qed.

Lemma clampSpeed_shrinks (speed : R) : Rabs (clampSpeed speed) <= Rabs speed.
Proof.
  unfold clampSpeed, CAR_CONFIG.maxSpeed, Rmax, Rmin, Rabs.
  repeat destruct (Rle_dec _ _); repeat destruct (Rcase_abs _); lra.
Qed.

Lemma clampSpeed_zero : clampSpeed 0 = 0.
Proof.
  unfold clampSpeed, CAR_CONFIG.maxSpeed, Rmax, Rmin.
  repeat destruct (Rle_dec _ _); lra.
Qed.

Lemma currentSpeed_update (c : Car) (input : Input) (deltaTime : R) :
  currentSpeed (update c input deltaTime) = clampSpeed (throttle c input deltaTime) \/
  currentSpeed (update c input deltaTime)
  = clampSpeed (throttle c input deltaTime) * - (3 / 10).
Proof. unfold update. destruct (_ && _); [left | right]; reflexivity. Qed.

Lemma currentSpeed_bounds (c : Car) (input : Input) (deltaTime : R) :
  -12 <= currentSpeed (update c input deltaTime) <= 40.
Proof.
  pose proof (clampSpeed_bounds (throttle c input deltaTime)) as H.
  unfold CAR_CONFIG.maxSpeed in *.
  destruct (currentSpeed_update c input deltaTime) as [-> | ->]; lra.
Qed.

(** X1. Whatever the car, the input and [deltaTime], the speed [Car.update]
    leaves lies between the full reverse speed and the top speed, that is
    in [[-12, 40]]: this holds when the car moves freely and when it
    strikes a wall and its speed is turned back. *)
Theorem speed_stays_clamped (c : Car) (input : Input) (deltaTime : R) :
  - (CAR_CONFIG.maxSpeed * (3 / 10)) <= currentSpeed (update c input deltaTime)
  <= CAR_CONFIG.maxSpeed /\
  -12 <= currentSpeed (update c input deltaTime) <= 40.
Proof.
  pose proof (currentSpeed_bounds c input deltaTime) as H.
  unfold CAR_CONFIG.maxSpeed. lra.
Qed.

(** X2. A car that is neither accelerated nor braked never gains speed in a
    tick of [deltaTime >= 0], in either direction, wall strike or not; and
    it is at rest after the tick when its speed was at most
    [deceleration * deltaTime]. *)
Theorem coasting_slows_down (c : Car) (input : Input) (deltaTime : R) :
  0 <= deltaTime -> accelerate input = false -> brake input = false ->
  Rabs (currentSpeed (update c input deltaTime)) <= Rabs (currentSpeed c) /\
  (Rabs (currentSpeed c) <= CAR_CONFIG.deceleration * deltaTime ->
   currentSpeed (update c input deltaTime) = 0).
Proof.
  intros Hdt Ha Hb.
  destruct (throttle_coasting c input deltaTime Hdt Ha Hb) as [Hle Hzero].
  pose proof (clampSpeed_shrinks (throttle c input deltaTime)) as Hcl.
  split.
  - destruct (currentSpeed_update c input deltaTime) as [-> | ->]; [lra | ].
    rewrite Rabs_mult. rewrite (Rabs_left (- (3 / 10))) by lra.
    pose proof (Rabs_pos (clampSpeed (throttle c input deltaTime))). nra.
  - intros Hsmall. specialize (Hzero Hsmall).
    destruct (currentSpeed_update c input deltaTime) as [-> | ->];
      rewrite Hzero, clampSpeed_zero; lra.
Qed.

Lemma throttle_at_rest (c : Car) (input : Input) (deltaTime : R) :
  currentSpeed c = 0 -> accelerate input = false -> brake input = false ->
  throttle c input deltaTime = 0.
Proof.
  intros H0 Ha Hb. unfold throttle, Rgtb. rewrite Ha, Hb, H0.
  rewrite !Rltb_false by lra. reflexivity.
Qed.

Lemma candidate_at_rest (c : Car) (input : Input) (deltaTime : R) :
  currentSpeed c = 0 -> accelerate input = false -> brake input = false ->
  candidate c input deltaTime = mesh_position c.
Proof.
  intros H0 Ha Hb.
  unfold candidate, Vector3Ops.add, Vector3Ops.scale. cbn [vx vy vz].
  rewrite (throttle_at_rest c input deltaTime H0 Ha Hb), clampSpeed_zero.
  destruct (mesh_position c) as [x y z]. cbn [vx vy vz].
  f_equal; ring.
Qed.

Lemma update_at_rest (c : Car) (input : Input) (deltaTime : R) :
  currentSpeed c = 0 -> accelerate input = false -> brake input = false ->
  innerRadius <= planarDistance (mesh_position c) <= outerRadius ->
  update c input deltaTime
  = mkCar 0 (rotation c) (mesh_position c) (mkVector3 0 (rotation c) 0).
Proof.
  intros H0 Ha Hb Hin.
  assert (Hsteer : steer c input deltaTime = rotation c).
  { apply steer_still. rewrite H0, Rabs_R0. unfold minSpeedToTurn. lra. }
  pose proof (throttle_at_rest c input deltaTime H0 Ha Hb) as Hthr.
  pose proof (candidate_at_rest c input deltaTime H0 Ha Hb) as Hcand.
  rewrite update_inside by (rewrite Hcand; exact Hin).
  rewrite Hsteer, Hthr, clampSpeed_zero, Hcand. reflexivity.
Qed.

(** X3. After [Car.reset] to a position between the walls, the car stays
    where it was put, at rest and with the heading it was given, through any
    run of ticks in which it is neither accelerated nor braked, whatever
    the steering; its height is [CAR_CONFIG.height / 2 + 0.1]. *)
Theorem car_rests_where_reset_puts_it
        (c : Car) (position : Vector3) (rot : R) (ticks : list (Input * R)) :
  innerRadius <= planarDistance position <= outerRadius ->
  Forall (fun t => accelerate (fst t) = false /\ brake (fst t) = false) ticks ->
  let c' := run (reset c position rot) ticks in
  currentSpeed c' = 0 /\
  rotation c' = rot /\
  mesh_position c'
  = mkVector3 (vx position) (CAR_CONFIG.height / 2 + 1 / 10) (vz position).
Proof.
  intros Hin Hticks.
  assert (Hgen : forall c0,
             currentSpeed c0 = 0 ->
             rotation c0 = rot ->
             mesh_position c0
             = mkVector3 (vx position) (CAR_CONFIG.height / 2 + 1 / 10) (vz position) ->
             currentSpeed (run c0 ticks) = 0 /\
             rotation (run c0 ticks) = rot /\
             mesh_position (run c0 ticks)
             = mkVector3 (vx position) (CAR_CONFIG.height / 2 + 1 / 10) (vz position)).
  { induction Hticks as [ | [input dt] ticks [Ha Hb] _ IH]; intros c0 H0 Hr Hp.
    - cbn. auto.
    - unfold run in *. cbn [fold_left fst snd] in *.
      assert (Hc0 : innerRadius <= planarDistance (mesh_position c0) <= outerRadius).
      { rewrite Hp. unfold planarDistance in *. cbn [vx vz]. exact Hin. }
      rewrite (update_at_rest c0 input dt H0 Ha Hb Hc0).
      apply IH; cbn [currentSpeed rotation mesh_position]; auto. }
  apply Hgen; reflexivity.
Qed.

End CarExtras.

(** ** Further properties of the tracker *)

Section TrackerExtras.

Import Checkpoint.

Lemma lapsGrow_refl (w : World) : lapsGrow w w.
Proof.
  split; [reflexivity | ]. split; [lia | ].
  exists []. rewrite app_nil_r. split; [reflexivity | cbn; lia].
Qed.

Lemma lapsGrow_same (w w' : World) :
  checkpoints (sys w') = checkpoints (sys w) ->
  lapCount (sys w') = lapCount (sys w) ->
  lapTimes (sys w') = lapTimes (sys w) ->
  lapsGrow w w'.
Proof.
  intros Hc Hl Ht. unfold lapsGrow. rewrite Hc, Hl, Ht.
  split; [reflexivity | ]. split; [lia | ].
  exists []. rewrite app_nil_r. split; [reflexivity | cbn; lia].
Qed.

Lemma completeLap_lapsGrow (w w' : World) :
  completeLap w = Some (tt, w') -> lapsGrow w w'.
Proof.
  intros H.
  destruct (completeLap_fields w) as [w1 [Hw1 [_ [Hlap [Htimes [_ [_ [Hcps _]]]]]]]].
  rewrite Hw1 in H. inv_some.
  unfold lapsGrow. rewrite Hcps, Hlap, Htimes.
  split; [reflexivity | ]. split; [lia | ].
  eexists. split; [reflexivity | cbn; lia].
Qed.

Lemma afterHit_lapsGrow (w : World) (cp : Checkpoint) : lapsGrow w (afterHit w cp).
Proof.
  unfold lapsGrow, afterHit. cbn. rewrite set_alpha_at_geometry.
  split; [reflexivity | ]. split; [lia | ].
  exists []. rewrite app_nil_r. split; [reflexivity | cbn; lia].
Qed.

Lemma lapsGrow_after (w w1 w' : World) :
  checkpoints (sys w1) = checkpoints (sys w) \/
  map geometry (checkpoints (sys w1)) = map geometry (checkpoints (sys w)) ->
  lapCount (sys w1) = lapCount (sys w) ->
  lapTimes (sys w1) = lapTimes (sys w) ->
  lapsGrow w1 w' -> lapsGrow w w'.
Proof.
  intros Hc Hl Ht [Hg [Hle Hs]]. unfold lapsGrow.
  rewrite <- Hl, <- Ht. split; [ | split; assumption].
  rewrite Hg. destruct Hc as [-> | ->]; reflexivity.
Qed.

Lemma hitCheckpoint_lapsGrow (w w' : World) (index : nat) :
  hitCheckpoint index w = Some (tt, w') -> lapsGrow w w'.
Proof.
  intros H.
  destruct (Nat.eq_dec index (currentCheckpoint (sys w))) as [-> | Hne].
  - destruct (nth_error (checkpoints (sys w)) (currentCheckpoint (sys w))) as [cp | ] eqn:E.
    + rewrite (hitCheckpoint_hit w cp E) in H.
      destruct (Nat.leb _ _).
      * apply completeLap_lapsGrow in H.
        apply (lapsGrow_after w (afterHit w cp) w'); try reflexivity; [ | exact H].
        right. unfold afterHit. cbn. apply set_alpha_at_geometry.
      * inv_some. apply afterHit_lapsGrow.
    + rewrite (hitCheckpoint_throws w E) in H. discriminate.
  - rewrite (hitCheckpoint_miss w index Hne) in H. inv_some. apply lapsGrow_refl.
Qed.

Lemma stampStart_laps (w : World) :
  checkpoints (sys (stampStart w)) = checkpoints (sys w) /\
  lapCount (sys (stampStart w)) = lapCount (sys w) /\
  lapTimes (sys (stampStart w)) = lapTimes (sys w).
Proof. unfold stampStart. destruct (truthy _); repeat split; reflexivity. Qed.

Lemma update_lapsGrow (w w' : World) (p : Vector3) :
  update p w = Some (tt, w') -> lapsGrow w w'.
Proof.
  intros H.
  destruct (RaceState_eqb (raceState (sys w)) racing) eqn:Hr.
  - apply RaceState_eqb_eq in Hr.
    destruct (Nat.leb (totalLaps (sys w)) (lapCount (sys w))) eqn:Hl.
    + apply Nat.leb_le in Hl. rewrite (update_race_over w p Hl) in H.
      inv_some. apply lapsGrow_refl.
    + apply Nat.leb_gt in Hl. rewrite (update_racing w p Hr Hl) in H.
      destruct (nth_error _ _) as [cp | ]; [ | discriminate].
      destruct (stampStart_laps w) as [Hc [Hlc Hlt]].
      destruct (_ <? _).
      * apply hitCheckpoint_lapsGrow in H.
        apply (lapsGrow_after w (stampStart w) w'); auto.
      * inv_some. apply lapsGrow_same; assumption.
  - apply RaceState_eqb_neq in Hr. rewrite (update_not_racing w p Hr) in H.
    inv_some. apply lapsGrow_refl.
Qed.

Lemma fire_lapsGrow (w w' : World) (n : nat) :
  fire n w = Some (tt, w') -> lapsGrow w w'.
Proof.
  intros H.
  destruct (nth_error (timers w) n) as [t | ] eqn:E.
  - rewrite (fire_some w n t E) in H.
    destruct (callback t) as [ | index alpha]; cbn [runCallback] in H.
    + set (w0 := mkWorld _ _ _ _ _) in H.
      destruct (Z_lt_le_dec 0 (countdownValue (sys w0))) as [Hc | Hc].
      * rewrite (tick_counting w0 Hc) in H. inv_some. apply lapsGrow_same; reflexivity.
      * rewrite (tick_go w0 Hc) in H. inv_some. apply lapsGrow_same; reflexivity.
    + unfold assign in H. inv_some. unfold lapsGrow. cbn.
      rewrite set_alpha_at_geometry.
      split; [reflexivity | ]. split; [lia | ].
      exists []. rewrite app_nil_r. split; [reflexivity | cbn; lia].
  - rewrite (fire_none w n E) in H. inv_some. apply lapsGrow_refl.
Qed.


Lemma exec_lapsGrow (o : Op) (w w' : World) :
  o <> OpReset -> exec o w = Some (tt, w') -> lapsGrow w w'.
Proof.
  destruct o as [ | p | index | | n | ]; intros Ho H; cbn [exec] in H.
  - rewrite startCountdown_eq in H. inv_some. apply lapsGrow_same; reflexivity.
  - apply (update_lapsGrow w w' p H).
  - apply (hitCheckpoint_lapsGrow w w' index H).
  - congruence.
  - apply (fire_lapsGrow w w' n H).
  - destruct (exec_getTotalTime w w' H) as [-> | ->];
      [apply lapsGrow_refl | apply lapsGrow_same; reflexivity].
Qed.

(** X5. Short of [reset], nothing rewrites a lap: over any run of calls
    and timers without [reset], [lapTimes] only grows at its end, by at most
    one lap a call, [lapCount] never decreases, and the checkpoints keep
    their index, position, radius and angle. *)
Theorem lap_times_are_append_only (ops : list Op) (w w' : World) :
  Forall (fun o => o <> OpReset) ops ->
  execAll ops w = Some (tt, w') ->
  map geometry (checkpoints (sys w')) = map geometry (checkpoints (sys w)) /\
  (lapCount (sys w) <= lapCount (sys w'))%nat /\
  exists laps,
    lapTimes (sys w') = lapTimes (sys w) ++ laps /\
    (List.length laps <= List.length ops)%nat.
Proof.
  revert w. induction ops as [ | o ops IH]; intros w Hops H.
  - rewrite execAll_nil in H. inv_some.
    split; [reflexivity | ]. split; [lia | ].
    exists []. rewrite app_nil_r. split; [reflexivity | cbn; lia].
  - rewrite execAll_cons in H.
    destruct (exec o w) as [[[] w1] | ] eqn:E; [ | discriminate].
    inversion Hops as [ | o' ops' Ho Hrest]; subst.
    destruct (exec_lapsGrow o w w1 Ho E) as [Hg [Hle [s1 [Hs1 Hl1]]]].
    destruct (IH w1 Hrest H) as [Hg' [Hle' [s2 [Hs2 Hl2]]]].
    split; [congruence | ]. split; [lia | ].
    exists (s1 ++ s2). rewrite Hs2, Hs1, <- app_assoc. split; [reflexivity | ].
    rewrite length_app. cbn [List.length]. lia.
Qed.

Lemma minimum_le (l : list R) (m : R) : minimum l = Some m -> forall t, In t l -> m <= t.
Proof.
  revert m. induction l as [ | x rest IH]; intros m H t Ht; [destruct Ht | ].
  cbn [minimum] in H. destruct (minimum rest) as [m' | ] eqn:E.
  - inv_some. destruct Ht as [<- | Ht].
    + apply Rmin_l.
    + apply Rle_trans with m'; [apply Rmin_r | apply (IH m' eq_refl t Ht)].
  - inv_some. destruct Ht as [<- | Ht]; [lra | ].
    destruct rest as [ | y rest']; [destruct Ht | ].
    cbn [minimum] in E. destruct (minimum rest'); discriminate.
Qed.

Lemma minimum_some (l : list R) : l <> [] -> exists m, minimum l = Some m.
Proof.
  destruct l as [ | x rest]; [congruence | ]. intros _. cbn [minimum].
  destruct (minimum rest); eexists; reflexivity.
Qed.

(** X6. In every reachable state in which no lap was timed at 0 ms, the
    best lap is one of the lap times and no lap time is below it; there is
    no best lap exactly when no lap is done. *)
Theorem best_lap_is_a_fastest_lap (w : World) :
  Reachable w ->
  Forall (fun t => t <> 0) (lapTimes (sys w)) ->
  (lapTimes (sys w) = [] /\ bestLapTime (sys w) = None) \/
  (exists best,
     bestLapTime (sys w) = Some best /\
     In best (lapTimes (sys w)) /\
     forall t, In t (lapTimes (sys w)) -> best <= t).
Proof.
  intros Hr Hnz. pose proof (best_lap_is_minimum w Hr Hnz) as Hb.
  destruct (lapTimes (sys w)) as [ | x rest] eqn:E.
  - left. split; [reflexivity | exact Hb].
  - right. destruct (minimum_some (x :: rest)) as [m Hm]; [discriminate | ].
    exists m. split; [congruence | ]. split.
    + apply minimum_in. exact Hm.
    + apply minimum_le. exact Hm.
Qed.

Lemma execAll_returns (ops : list Op) (w : World) :
  Reachable w -> exists w', execAll ops w = Some (tt, w').
Proof.
  revert w. induction ops as [ | o ops IH]; intros w Hr.
  - exists w. apply execAll_nil.
  - rewrite execAll_cons. destruct (reachable_returns o w Hr) as [w1 E]. rewrite E.
    apply IH. apply (Reachable_step w o w1 Hr E).
Qed.

(** X7. No sequence of [startCountdown], [update], [hitCheckpoint],
    [reset] and [getTotalTime] calls and of expiring timers makes the
    tracker throw: after any of them it has its four checkpoints, expects
    one of them, counts three laps to run, and [getCurrentLap] answers a lap
    from 1 to 3. *)
Theorem tracker_never_throws (trackDefinition : TrackDefinition) (onLap onFinish : bool)
        (clk : nat -> R) (ops : list Op) :
  exists w',
    execAll ops (newWorld trackDefinition onLap onFinish clk) = Some (tt, w') /\
    List.length (checkpoints (sys w')) = 4%nat /\
    (currentCheckpoint (sys w') < List.length (checkpoints (sys w')))%nat /\
    totalLaps (sys w') = 3%nat /\
    exists lap, getCurrentLap w' = Some (lap, w') /\ (1 <= lap <= 3)%nat.
Proof.
  pose proof (Reachable_new trackDefinition onLap onFinish clk) as Hnew.
  destruct (execAll_returns ops _ Hnew) as [w' E].
  exists w'. split; [exact E | ].
  pose proof (reachable_execAll ops _ w' Hnew E) as Hr.
  destruct (reachable_invariant w' Hr) as [[Hlen [Hcur [_ Htl]]] _].
  split; [exact Hlen | ]. split; [lia | ]. split; [exact Htl | ].
  eexists. split; [reflexivity | ]. rewrite Htl. lia.
Qed.

(** X8. After any sequence of calls and expiring timers, from the
    constructor on, the countdowns that still wait in the timer queue and
    the times GO was said add up to the number of [startCountdown] calls:
    [reset] cancels none, and every countdown says GO once. *)
Theorem countdowns_started_all_say_go (trackDefinition : TrackDefinition)
        (onLap onFinish : bool) (clk : nat -> R) (ops : list Op) :
  exists w',
    execAll ops (newWorld trackDefinition onLap onFinish clk) = Some (tt, w') /\
    (pendingTicks w' + goCount w' = List.length (filter startsCountdown ops))%nat.
Proof.
  pose proof (Reachable_new trackDefinition onLap onFinish clk) as Hnew.
  destruct (execAll_returns ops _ Hnew) as [w' E].
  exists w'. split; [exact E | ].
  assert (G : forall ops w w', execAll ops w = Some (tt, w') ->
              chains w' = (chains w + List.length (filter startsCountdown ops))%nat).
  { clear. induction ops as [ | o ops IH]; intros w w' H.
    - rewrite execAll_nil in H. inv_some. cbn. lia.
    - rewrite execAll_cons in H.
      destruct (exec o w) as [[[] w1] | ] eqn:E; [ | discriminate].
      rewrite (IH w1 w' H), (exec_chains o w w1 E). cbn [filter].
      destruct (startsCountdown o); cbn [List.length]; lia. }
  apply G in E. unfold chains in E at 1. rewrite E. reflexivity.
Qed.

(** X9. A race driven by [update] after its countdown, whatever the
    positions of the car: it is either racing with fewer than three laps
    done and [onRaceFinish] not called, or finished with exactly three laps
    and [onRaceFinish] called exactly once; [getCurrentLap] is the lap under
    way, then 3. *)
Theorem race_of_updates_finishes_once (trackDefinition : TrackDefinition) (onLap : bool)
        (clk : nat -> R) (positions : list Vector3) :
  exists w',
    execAll (countdownToGo ++ map OpUpdate positions)
            (newWorld trackDefinition onLap true clk) = Some (tt, w') /\
    ((raceState (sys w') = racing /\ (lapCount (sys w') < 3)%nat /\ finishCount w' = 0%nat /\
      getCurrentLap w' = Some ((lapCount (sys w') + 1)%nat, w')) \/
     (raceState (sys w') = finished /\ lapCount (sys w') = 3%nat /\ finishCount w' = 1%nat /\
      getCurrentLap w' = Some (3%nat, w'))).
Proof.
  pose proof (Reachable_new trackDefinition onLap true clk) as Hnew.
  destruct (execAll_returns (countdownToGo ++ map OpUpdate positions) _ Hnew) as [w' E].
  exists w'. split; [exact E | ].
  pose proof (reachable_execAll _ _ w' Hnew E) as Hr.
  destruct (reachable_invariant w' Hr) as [[_ [_ [_ Htl]]] _].
  rewrite execAll_app, first_countdown in E.
  assert (Hs : session w').
  { refine (race_finishes_once positions _ w' _ E).
    split; [reflexivity | left]. repeat split. cbn. lia. }
  destruct Hs as [_ [[Hst [Hl Hf]] | [Hst [Hl Hf]]]]; [left | right];
    (split; [exact Hst | ]); (split; [lia | ]); (split; [exact Hf | ]);
    unfold getCurrentLap, bind, this, ret; rewrite Htl; do 2 f_equal; lia.
Qed.

End TrackerExtras.

Section TrackerExtras2.

Import Checkpoint.

(** X10. A restart with no timer waiting: [reset], [startCountdown] and the
    four timers of the countdown leave the race as a first start does,
    racing from the time of the GO with no lap done, 3, 2, 1 and GO said
    once more and no timer left; until the fourth timer, [canMove] is
    false. *)
Theorem restart_with_no_timer_pending (w : World) :
  timers w = [] ->
  execAll (OpReset :: countdownToGo) w
  = Some (tt, mkWorld
                (mkCheckpointSystem (checkpoints (sys w)) 0 0 (totalLaps (sys w))
                   (Some (clock w (reads w))) [] None None racing 0
                   (onLapComplete (sys w)) (onRaceFinish (sys w)))
                (clock w) (S (reads w)) []
                (log w ++ [CountdownTick 3; CountdownTick 2; CountdownTick 1; CountdownGo])) /\
  forall k, (k <= 3)%nat ->
    exists wk,
      execAll ([OpReset; OpStartCountdown] ++ repeat (OpFire 0) k) w = Some (tt, wk) /\
      canMove wk = Some (false, wk) /\
      log wk = log w ++ firstn k [CountdownTick 3; CountdownTick 2; CountdownTick 1].
Proof.
  intros Ht. destruct w as [s clk r ts lg]. cbn [timers] in Ht. subst ts.
  destruct s as [cps cur laps total start times lastLap best st cv onLap onFinish].
  assert (S2 : forall a b : Event, lg ++ [a; b] = (lg ++ [a]) ++ [b])
    by (intros; rewrite <- app_assoc; reflexivity).
  assert (S3 : forall a b c : Event, lg ++ [a; b; c] = ((lg ++ [a]) ++ [b]) ++ [c])
    by (intros; rewrite <- !app_assoc; reflexivity).
  assert (S4 : forall a b c d : Event,
            lg ++ [a; b; c; d] = (((lg ++ [a]) ++ [b]) ++ [c]) ++ [d])
    by (intros; rewrite <- !app_assoc; reflexivity).
  split.
  - unfold countdownToGo. cbn [log sys clock reads checkpoints totalLaps onLapComplete
                                onRaceFinish].
    rewrite S4. repeat (rewrite execAll_cons; cbv -[execAll]).
    rewrite execAll_nil. reflexivity.
  - intros k Hk.
    destruct k as [ | [ | [ | [ | k]]]]; try lia; cbn [repeat app firstn log];
      rewrite ?app_nil_r, ?S2, ?S3;
      repeat (rewrite execAll_cons; cbv -[execAll]);
      rewrite execAll_nil;
      (eexists; split; [reflexivity | ]; split; reflexivity).
Qed.

Lemma set_alpha_at_undo (i : nat) (a : R) (cps : list Checkpoint) (cp : Checkpoint) :
  nth_error cps i = Some cp ->
  set_alpha_at i (cp_alpha cp) (set_alpha_at i a cps) = cps.
Proof.
  revert i. induction cps as [ | c rest IH]; intros [ | i] H; cbn in *; try discriminate.
  - inv_some. destruct cp; reflexivity.
  - rewrite (IH i H). reflexivity.
Qed.

Lemma set_alpha_at_nth (i : nat) (a : R) (cps : list Checkpoint) (cp : Checkpoint) :
  nth_error cps i = Some cp ->
  exists cp', nth_error (set_alpha_at i a cps) i = Some cp' /\ cp_alpha cp' = a.
Proof.
  revert i. induction cps as [ | c rest IH]; intros [ | i] H; cbn in *; try discriminate.
  - eexists. split; reflexivity.
  - apply (IH i H).
Qed.

(** X11. The flash of a checkpoint is undone: in a reachable state with no
    timer waiting, hitting the expected checkpoint sets its alpha to 0.8 and
    leaves one timer; when that timer expires every checkpoint is as it was
    before the hit. *)
Theorem checkpoint_flash_is_undone (w : World) :
  Reachable w ->
  timers w = [] ->
  exists cp w1 w2 lit,
    nth_error (checkpoints (sys w)) (currentCheckpoint (sys w)) = Some cp /\
    hitCheckpoint (currentCheckpoint (sys w)) w = Some (tt, w1) /\
    nth_error (checkpoints (sys w1)) (currentCheckpoint (sys w)) = Some lit /\
    cp_alpha lit = 8 / 10 /\
    timers w1 = [mkTimer (Unflash (currentCheckpoint (sys w)) (cp_alpha cp)) 200] /\
    fire 0 w1 = Some (tt, w2) /\
    checkpoints (sys w2) = checkpoints (sys w) /\
    timers w2 = [].
Proof.
  intros Hr Ht.
  destruct (reachable_invariant w Hr) as [[Hlen [Hcur _]] _].
  destruct (nth_error (checkpoints (sys w)) (currentCheckpoint (sys w))) as [cp | ] eqn:E;
    [ | apply nth_error_None in E; lia].
  destruct (set_alpha_at_nth (currentCheckpoint (sys w)) (8 / 10) _ cp E) as [lit [Hlit Ha]].
  exists cp.
  assert (Hafter : forall w1,
            checkpoints (sys w1) = checkpoints (sys (afterHit w cp)) ->
            timers w1 = timers (afterHit w cp) ->
            exists w2, fire 0 w1 = Some (tt, w2) /\
                       checkpoints (sys w2) = checkpoints (sys w) /\ timers w2 = []).
  { intros w1 Hc Htm. unfold afterHit in Hc, Htm. cbn in Hc, Htm. rewrite Ht in Htm.
    cbn in Htm. unfold fire. rewrite Htm. cbn. unfold assign. eexists.
    split; [reflexivity | ]. cbn. rewrite Hc. split; [ | reflexivity].
    apply set_alpha_at_undo. exact E. }
  rewrite (hitCheckpoint_hit w cp E).
  destruct (Nat.leb _ _).
  - destruct (completeLap_fields (afterHit w cp)) as [w1 [Hw1 [_ [_ [_ [_ [_ [Hcps _]]]]]]]].
    assert (Htm : timers w1 = timers (afterHit w cp)).
    { rewrite completeLap_eq in Hw1. cbv zeta in Hw1.
      destruct (Nat.leb _ _); [rewrite finishRace_eq in Hw1 | ]; inv_some; reflexivity. }
    destruct (Hafter w1 Hcps Htm) as [w2 [Hf [Hc2 Ht2]]].
    exists w1, w2, lit. rewrite Hcps, Htm.
    repeat split; try assumption.
    unfold afterHit. cbn. rewrite Ht. reflexivity.
  - destruct (Hafter (afterHit w cp) eq_refl eq_refl) as [w2 [Hf [Hc2 Ht2]]].
    exists (afterHit w cp), w2, lit.
    repeat split; try assumption.
    unfold afterHit. cbn. rewrite Ht. reflexivity.
Qed.

Lemma completeLap_clock (w w' : World) :
  completeLap w = Some (tt, w') -> clock w' = clock w.
Proof.
  rewrite completeLap_eq. cbv zeta.
  destruct (Nat.leb _ _); [rewrite finishRace_eq | ]; intros H; inv_some; reflexivity.
Qed.

Lemma filter_none {A : Type} (f : A -> bool) (l : list A) :
  List.length (filter f l) = 0%nat -> filter f l = [].
Proof. destruct (filter f l); [reflexivity | discriminate]. Qed.

Lemma update_finishStamp (start : R) (w w' : World) (p : Vector3) :
  update p w = Some (tt, w') ->
  session w -> raceStartTime (sys w) = Some start -> start <> 0 ->
  finishStamp start w ->
  finishStamp start w' /\ raceStartTime (sys w') = Some start /\ clock w' = clock w.
Proof.
  intros H [Hcb [[Hr [Hl Hf]] | [Hr [Hl Hf]]]] Hs Hs0 Hfs.
  - rewrite (update_racing w p Hr Hl) in H.
    assert (Hst : stampStart w = w).
    { unfold stampStart. rewrite Hs, (truthy_Some start Hs0). reflexivity. }
    rewrite Hst in H.
    assert (Hkeep : finishStamp start w) by exact Hfs.
    destruct (nth_error _ _) as [cp | ] eqn:E; [ | discriminate].
    destruct (_ <? _); [ | inv_some; repeat split; assumption].
    rewrite (hitCheckpoint_hit w cp E) in H.
    destruct (Nat.leb _ _).
    + rewrite completeLap_eq in H. cbv zeta in H.
      unfold afterHit in H.
      cbn [sys clock reads timers log lapCount totalLaps onLapComplete
           set_currentCheckpoint set_alpha set_checkpoints] in H.
      destruct (Nat.leb (totalLaps (sys w)) (S (lapCount (sys w)))).
      * rewrite finishRace_eq in H. inv_some.
        split; [ | split; [exact Hs | reflexivity]].
        intros _. exists (reads w). split; [reflexivity | ]. split; [reflexivity | ].
        unfold finishCount in Hf. apply filter_none in Hf.
        cbn [log sys clock reads onRaceFinish raceStartTime bestLapTime
             set_raceState set_bestLapTime set_lapTimes set_lastLapTime
             set_currentCheckpoint set_lapCount].
        rewrite Hcb, Hs, !filter_app, Hf. cbn [toNumber].
        destruct (onLapComplete (sys w)); reflexivity.
      * inv_some. cbn. split; [ | split; [exact Hs | reflexivity]].
        intros Hfin. cbn in Hfin. congruence.
    + inv_some. unfold afterHit. cbn. split; [ | split; [exact Hs | reflexivity]].
      intros Hfin. cbn in Hfin. congruence.
  - rewrite update_not_racing in H by (rewrite Hr; discriminate).
    inv_some. repeat split; assumption.
Qed.

End TrackerExtras2.

(** ** The gates of the track *)

Section TrackGeometry.

Import Checkpoint.

Variable trackDef : TrackDefinition.

Let trackWidth := td_outerRadius trackDef - td_innerRadius trackDef.
Let centerRadius := (td_innerRadius trackDef + td_outerRadius trackDef) / 2.

Lemma createCheckpoints_geometry :
  map geometry (createCheckpoints trackDef)
  = [ (0%nat, mkVector3 centerRadius 0 0, trackWidth / 2 + 2, 0);
      (1%nat, mkVector3 0 0 centerRadius, trackWidth / 2 + 2, PI / 2);
      (2%nat, mkVector3 (- centerRadius) 0 0, trackWidth / 2 + 2, PI);
      (3%nat, mkVector3 0 0 (- centerRadius), trackWidth / 2 + 2, PI * (15 / 10)) ].
Proof.
  unfold createCheckpoints, checkpointAngles, geometry. cbn [forEach_push map
    cp_index cp_position cp_radius cp_angle].
  fold trackWidth. fold centerRadius.
  replace (cos (PI * (15 / 10))) with (cos (3 * (PI / 2))) by (f_equal; field).
  replace (sin (PI * (15 / 10))) with (sin (3 * (PI / 2))) by (f_equal; field).
  rewrite cos_0, sin_0, cos_PI2, sin_PI2, cos_PI, sin_PI, cos_3PI2, sin_3PI2.
  repeat (f_equal; try ring).
Qed.

Lemma sqrt_lt_inv (x b : R) : 0 <= x -> sqrt x < b -> x < b * b.
Proof.
  intros Hx H. pose proof (sqrt_pos x) as Hp.
  rewrite <- (sqrt_sqrt x Hx) at 1.
  apply Rmult_le_0_lt_compat; assumption.
Qed.

Lemma nth_createCheckpoints (k : nat) (cp : Checkpoint) :
  nth_error (createCheckpoints trackDef) k = Some cp ->
  (k < 4)%nat /\
  cp_index cp = k /\
  cp_radius cp = trackWidth / 2 + 2 /\
  cp_position cp = mkVector3 (cos (cp_angle cp) * centerRadius) 0
                             (sin (cp_angle cp) * centerRadius) /\
  cp_angle cp = INR k * (PI / 2).
Proof.
  intros H. unfold createCheckpoints, checkpointAngles in H.
  destruct k as [ | [ | [ | [ | k]]]]; cbn in H; try inv_some; cbn;
    try (repeat split; try lia; try reflexivity; lra).
  destruct k; discriminate.
Qed.

(** X14. Gate [k] of [createCheckpoints] stands at the angle [k * PI / 2]
    on the centre line of the track, and its detection zone spans the track:
    every point of the ray of gate [k] between the inner and the outer
    radius is in the zone. *)
Theorem gates_span_the_track (k : nat) (cp : Checkpoint) (d y : R) :
  nth_error (createCheckpoints trackDef) k = Some cp ->
  td_innerRadius trackDef <= d <= td_outerRadius trackDef ->
  cp_angle cp = INR k * (PI / 2) /\
  planarDistance (cp_position cp) = Rabs centerRadius /\
  inZone (mkVector3 (cos (cp_angle cp) * d) y (sin (cp_angle cp) * d)) cp.
Proof.
  intros H Hd.
  destruct (nth_createCheckpoints k cp H) as [_ [_ [Hrad [Hpos Hang]]]].
  split; [exact Hang | ]. split.
  - rewrite Hpos. unfold planarDistance. cbn [vx vz].
    pose proof (sin2_cos2 (cp_angle cp)) as T. unfold Rsqr in T.
    set (c := cos _) in *. set (s := sin _) in *.
    replace (_ + _) with (centerRadius * centerRadius * (s * s + c * c)) by ring.
    rewrite T, Rmult_1_r.
    apply sqrt_Rsqr_abs.
  - unfold inZone, Vector3Ops.Distance. rewrite Hpos, Hrad. cbn [vx vy vz].
    pose proof (sin2_cos2 (cp_angle cp)) as T. unfold Rsqr in T.
    set (c := cos _) in *. set (s := sin _) in *.
    replace ((c * d - c * centerRadius) * (c * d - c * centerRadius)
             + (0 - 0) * (0 - 0)
             + (s * d - s * centerRadius) * (s * d - s * centerRadius))
      with ((d - centerRadius) * (d - centerRadius) * (s * s + c * c)) by ring.
    rewrite T, Rmult_1_r.
    unfold trackWidth, centerRadius in *.
    set (i := td_innerRadius trackDef) in *. set (o := td_outerRadius trackDef) in *.
    assert (H1 : (d - (i + o) / 2) * (d - (i + o) / 2) <= (o - i) / 2 * ((o - i) / 2)).
    { assert (A : 0 <= ((o - i) / 2 - (d - (i + o) / 2)) * ((o - i) / 2 + (d - (i + o) / 2)))
        by (apply Rmult_le_pos; lra).
      lra. }
    assert (H2 : 0 <= (o - i) / 2 * 2) by lra.
    apply sqrt_lt_bound; [apply Rle_0_sqr | lra | ].
    replace (((o - i) / 2 + 2) * ((o - i) / 2 + 2))
      with ((o - i) / 2 * ((o - i) / 2) + 2 * ((o - i) / 2 * 2) + 4) by ring.
    lra.
Qed.

End TrackGeometry.

Section ParkedCar.

Import Checkpoint.

Variable trackDef : TrackDefinition.
Hypothesis apart : zonesApart trackDef.

Lemma sum_of_squares_pos (a b c : R) : 0 <= a * a + b * b + c * c.
Proof.
  pose proof (Rle_0_sqr a) as A. pose proof (Rle_0_sqr b) as B.
  pose proof (Rle_0_sqr c) as C. unfold Rsqr in *. lra.
Qed.

Lemma inZone_geometry (p : Vector3) (cp cp' : Checkpoint) :
  geometry cp' = geometry cp -> inZone p cp -> inZone p cp'.
Proof.
  unfold geometry, inZone. intros H. inversion H as [[Hi Hp Hr Ha]].
  rewrite Hp, Hr. auto.
Qed.

(** The gate that follows gate [k]. *)
Lemma next_zone_apart (p : Vector3) (k : nat) (cp cp' : Checkpoint) :
  nth_error (createCheckpoints trackDef) k = Some cp ->
  nth_error (createCheckpoints trackDef) (if Nat.leb 4 (S k) then 0 else S k) = Some cp' ->
  inZone p cp -> ~ inZone p cp'.
Proof.
  intros Hk Hk' Hz Hz'.
  apply (map_nth_error geometry) in Hk. apply (map_nth_error geometry) in Hk'.
  rewrite createCheckpoints_geometry in Hk, Hk'.
  destruct apart as [Hpos Hfar].
  unfold inZone, Vector3Ops.Distance in Hz, Hz'.
  apply sqrt_lt_inv in Hz; [ | apply sum_of_squares_pos].
  apply sqrt_lt_inv in Hz'; [ | apply sum_of_squares_pos].
  set (cr := (td_innerRadius trackDef + td_outerRadius trackDef) / 2) in *.
  set (rho := (td_outerRadius trackDef - td_innerRadius trackDef) / 2 + 2) in *.
  destruct p as [x y z]. cbn [vx vy vz] in Hz, Hz'.
  destruct k as [ | [ | [ | [ | k]]]]; cbn in Hk, Hk';
    try (destruct k; discriminate);
    unfold geometry in Hk, Hk'; inversion Hk as [[Hi Hp Hr Ha]];
    inversion Hk' as [[Hi' Hp' Hr' Ha']];
    rewrite <- Hp, <- Hr in Hz; rewrite <- Hp', <- Hr' in Hz'; cbn [vx vy vz] in Hz, Hz'.
  - pose proof (Rle_0_sqr (x + z - cr)) as A. pose proof (Rle_0_sqr (x - z)) as B.
    unfold Rsqr in A, B. nra.
  - pose proof (Rle_0_sqr (x - z + cr)) as A. pose proof (Rle_0_sqr (x + z)) as B.
    unfold Rsqr in A, B. nra.
  - pose proof (Rle_0_sqr (x + z + cr)) as A. pose proof (Rle_0_sqr (x - z)) as B.
    unfold Rsqr in A, B. nra.
  - pose proof (Rle_0_sqr (x - z - cr)) as A. pose proof (Rle_0_sqr (x + z)) as B.
    unfold Rsqr in A, B. nra.
Qed.

Lemma stampStart_idle (p : Vector3) (w : World) :
  idleAt p w -> idleAt p (stampStart w).
Proof.
  unfold idleAt. destruct (stampStart_session w) as [_ [Hr [Hl [Ht _]]]].
  destruct (stampStart_sys w) as [Hc Hcur]. rewrite Hr, Hl, Ht, Hc, Hcur. auto.
Qed.

Lemma update_idle (p : Vector3) (w w1 : World) :
  idleAt p w -> update p w = Some (tt, w1) ->
  checkpointsPassed w1 = checkpointsPassed w /\ idleAt p w1.
Proof.
  intros Hidle H.
  destruct (RaceState_eqb (raceState (sys w)) racing) eqn:Hr.
  - apply RaceState_eqb_eq in Hr.
    destruct (Nat.leb (totalLaps (sys w)) (lapCount (sys w))) eqn:Hl.
    + apply Nat.leb_le in Hl. rewrite (update_race_over w p Hl) in H.
      inv_some. split; [reflexivity | exact Hidle].
    + apply Nat.leb_gt in Hl. rewrite (update_racing w p Hr Hl) in H.
      destruct Hidle as [Hn | [Hn | [cp [Hcp Hz]]]]; [congruence | lia | ].
      rewrite Hcp in H. unfold inZone in Hz. rewrite Rltb_false in H by lra.
      inv_some. split.
      * unfold checkpointsPassed. destruct (stampStart_session w) as [_ [_ [Hlc _]]].
        destruct (stampStart_sys w) as [Hc Hcur]. rewrite Hlc, Hc, Hcur. reflexivity.
      * apply stampStart_idle. right. right. exists cp. split; assumption.
  - apply RaceState_eqb_neq in Hr. rewrite (update_not_racing w p Hr) in H.
    inv_some. split; [reflexivity | exact Hidle].
Qed.

Lemma updates_idle (p : Vector3) (n : nat) (w w' : World) :
  idleAt p w -> execAll (repeat (OpUpdate p) n) w = Some (tt, w') ->
  checkpointsPassed w' = checkpointsPassed w.
Proof.
  revert w. induction n as [ | n IH]; intros w Hidle H; cbn [repeat] in H.
  - rewrite execAll_nil in H. inv_some. reflexivity.
  - rewrite execAll_cons in H. cbn [exec] in H.
    destruct (update p w) as [[[] w1] | ] eqn:E; [ | discriminate].
    destruct (update_idle p w w1 Hidle E) as [Hp Hi].
    rewrite (IH w1 Hi H). exact Hp.
Qed.

Lemma update_hit (p : Vector3) (w w1 : World) (cp : Checkpoint) :
  Reachable w ->
  map geometry (checkpoints (sys w)) = map geometry (createCheckpoints trackDef) ->
  raceState (sys w) = racing ->
  (lapCount (sys w) < totalLaps (sys w))%nat ->
  nth_error (checkpoints (sys w)) (currentCheckpoint (sys w)) = Some cp ->
  inZone p cp ->
  update p w = Some (tt, w1) ->
  checkpointsPassed w1 = S (checkpointsPassed w) /\ idleAt p w1.
Proof.
  intros Hreach Hgeo Hr Hl Hcp Hz H.
  destruct (reachable_invariant w Hreach) as [[Hlen [Hcur _]] _].
  rewrite (update_racing w p Hr Hl), Hcp in H.
  unfold inZone in Hz. rewrite (Rltb_true _ _ Hz) in H.
  destruct (stampStart_sys w) as [Hc Hcur'].
  destruct (stampStart_session w) as [_ [_ [Hlc _]]].
  set (ws := stampStart w) in *.
  rewrite <- Hcur' in H. rewrite <- Hc, <- Hcur' in Hcp.
  rewrite (hitCheckpoint_hit ws cp Hcp) in H.
  assert (Hgs : map geometry (createCheckpoints trackDef)
                = map geometry (checkpoints (sys ws))) by (rewrite Hc; symmetry; exact Hgeo).
  destruct (nth_error_geometry (checkpoints (sys ws)) (createCheckpoints trackDef)
              (currentCheckpoint (sys ws)) cp Hgs Hcp) as [cpt [Hcpt Hgt]].
  assert (Hzt : inZone p cpt) by (apply (inZone_geometry p cp cpt Hgt Hz)).
  assert (Hnext : forall w2,
            checkpoints (sys w2) = checkpoints (sys (afterHit ws cp)) ->
            currentCheckpoint (sys w2)
            = (if Nat.leb 4 (S (currentCheckpoint (sys ws))) then 0
               else S (currentCheckpoint (sys ws)))%nat ->
            idleAt p w2).
  { intros w2 Hc2 Hcur2. right. right.
    assert (Hg2 : map geometry (checkpoints (sys w2))
                  = map geometry (createCheckpoints trackDef)).
    { rewrite Hc2. unfold afterHit. cbn. rewrite set_alpha_at_geometry, Hc. exact Hgeo. }
    assert (Hlen2 : List.length (checkpoints (sys w2)) = 4%nat).
    { rewrite <- (length_map geometry), Hg2, <- Hgeo, length_map. exact Hlen. }
    destruct (nth_error (checkpoints (sys w2)) (currentCheckpoint (sys w2))) as [cp2 | ] eqn:E2.
    - exists cp2. split; [reflexivity | ]. intros Hz2.
      destruct (nth_error_geometry (checkpoints (sys w2)) (createCheckpoints trackDef)
                  (currentCheckpoint (sys w2)) cp2) as [cpt2 [Hcpt2 Hgt2]];
        [symmetry; exact Hg2 | exact E2 | ].
      rewrite Hcur2 in Hcpt2.
      apply (next_zone_apart p (currentCheckpoint (sys ws)) cpt cpt2 Hcpt Hcpt2 Hzt).
      apply (inZone_geometry p cp2 cpt2 Hgt2 Hz2).
    - apply nth_error_None in E2. rewrite Hlen2, Hcur2 in E2.
      destruct (Nat.leb 4 (S (currentCheckpoint (sys ws)))) eqn:E4; [lia | ].
      apply Nat.leb_gt in E4. lia. }
  rewrite Hc, Hlen, Hcur' in H.
  unfold checkpointsPassed.
  destruct (Nat.leb 4 (S (currentCheckpoint (sys w)))) eqn:E4.
  - destruct (completeLap_fields (afterHit ws cp))
      as [w2 [Hw2 [Hcur2 [Hlap2 [_ [_ [_ [Hcps2 _]]]]]]]].
    rewrite Hw2 in H. inv_some. split.
    + rewrite Hcps2, Hcur2, Hlap2. unfold afterHit. cbn.
      rewrite set_alpha_at_length, Hc, Hlen, Hlc.
      apply Nat.leb_le in E4. lia.
    + apply Hnext; [exact Hcps2 | ]. rewrite Hcur', E4. exact Hcur2.
  - inv_some. split.
    + unfold afterHit. cbn. rewrite set_alpha_at_length, Hc, Hlc, Hcur'. lia.
    + apply Hnext; [reflexivity | ]. rewrite Hcur', E4. unfold afterHit. cbn.
      rewrite Hcur'. reflexivity.
Qed.

Lemma updates_at_one_place (p : Vector3) (n : nat) (w w' : World) :
  Reachable w ->
  map geometry (checkpoints (sys w)) = map geometry (createCheckpoints trackDef) ->
  execAll (repeat (OpUpdate p) n) w = Some (tt, w') ->
  (checkpointsPassed w <= checkpointsPassed w' <= checkpointsPassed w + 1)%nat.
Proof.
  intros Hreach Hgeo H.
  destruct n as [ | n]; cbn [repeat] in H.
  - rewrite execAll_nil in H. inv_some. lia.
  - rewrite execAll_cons in H. cbn [exec] in H.
    destruct (update p w) as [[[] w1] | ] eqn:E; [ | discriminate].
    destruct (reachable_invariant w Hreach) as [[Hlen [Hcur _]] _].
    assert (Hcases : idleAt p w \/
                     (raceState (sys w) = racing /\
                      (lapCount (sys w) < totalLaps (sys w))%nat /\
                      exists cp, nth_error (checkpoints (sys w)) (currentCheckpoint (sys w))
                                 = Some cp /\ inZone p cp)).
    { destruct (RaceState_eqb (raceState (sys w)) racing) eqn:Hr;
        [apply RaceState_eqb_eq in Hr | apply RaceState_eqb_neq in Hr; left; left; exact Hr].
      destruct (le_lt_dec (totalLaps (sys w)) (lapCount (sys w))) as [Hl | Hl];
        [left; right; left; exact Hl | ].
      destruct (nth_error (checkpoints (sys w)) (currentCheckpoint (sys w))) as [cp | ] eqn:Ecp;
        [ | apply nth_error_None in Ecp; lia].
      destruct (Rlt_dec (Vector3Ops.Distance (mkVector3 (vx p) 0 (vz p)) (cp_position cp))
                        (cp_radius cp)) as [Hz | Hz].
      - right. split; [exact Hr | ]. split; [exact Hl | ]. exists cp.
        split; [first [reflexivity | exact Ecp] | exact Hz].
      - left. right. right. exists cp.
        split; [first [reflexivity | exact Ecp] | exact Hz]. }
    destruct Hcases as [Hidle | [Hr [Hl [cp [Hcp Hz]]]]].
    + destruct (update_idle p w w1 Hidle E) as [Hp1 Hi1].
      rewrite (updates_idle p n w1 w' Hi1 H), Hp1. lia.
    + destruct (update_hit p w w1 cp Hreach Hgeo Hr Hl Hcp Hz E) as [Hp1 Hi1].
      rewrite (updates_idle p n w1 w' Hi1 H), Hp1. lia.
Qed.

(** X15. A car that does not move passes one gate at most: on a track
    whose neighbouring zones do not meet, any number of [update] calls with
    the same position advance the tracker by one checkpoint at most, and so
    by one lap at most. *)
Theorem parked_car_passes_one_gate_at_most (p : Vector3) (n : nat) (w : World) :
  Reachable w ->
  map geometry (checkpoints (sys w)) = map geometry (createCheckpoints trackDef) ->
  exists w',
    execAll (repeat (OpUpdate p) n) w = Some (tt, w') /\
    (checkpointsPassed w <= checkpointsPassed w' <= checkpointsPassed w + 1)%nat /\
    (lapCount (sys w) <= lapCount (sys w') <= lapCount (sys w) + 1)%nat.
Proof.
  intros Hreach Hgeo.
  destruct (execAll_returns (repeat (OpUpdate p) n) w Hreach) as [w' H].
  exists w'. split; [exact H | ].
  pose proof (updates_at_one_place p n w w' Hreach Hgeo H) as Hmain.
  split; [exact Hmain | ].
  assert (Hr' : Reachable w') by (apply (reachable_execAll _ w w' Hreach H)).
  destruct (reachable_invariant w Hreach) as [[Hlen [Hcur _]] _].
  destruct (reachable_invariant w' Hr') as [[Hlen' [Hcur' _]] _].
  unfold checkpointsPassed in Hmain. rewrite Hlen, Hlen' in Hmain. lia.
Qed.

End ParkedCar.

Section StartLine.

Import Checkpoint.

(** The first [update] after GO, with the car in the zone of the start
    line. *)
Lemma grid_update (trackDefinition : TrackDefinition) (onLap onFinish : bool)
      (clk : nat -> R) (p : Vector3) (w0 : World) :
  execAll countdownToGo (newWorld trackDefinition onLap onFinish clk) = Some (tt, w0) ->
  Vector3Ops.Distance (mkVector3 (vx p) 0 (vz p)) (Track.getStartPosition trackDefinition)
  < (td_outerRadius trackDefinition - td_innerRadius trackDefinition) / 2 + 2 ->
  exists w',
    update p w0 = Some (tt, w') /\
    currentCheckpoint (sys w') = 1%nat /\
    lapCount (sys w') = 0%nat /\
    raceState (sys w') = racing /\
    timers w' = [mkTimer (Unflash 0 (4 / 10)) 200].
Proof.
  rewrite first_countdown. intros H0 Hz. inversion H0 as [Hw0]. clear H0.
  set (w0' := mkWorld _ _ _ _ _).
  assert (H0 : exists cp,
             nth_error (checkpoints (sys w0')) (currentCheckpoint (sys w0')) = Some cp /\
             cp_alpha cp = 4 / 10 /\ inZone p cp).
  { eexists. split; [reflexivity | ]. split; [reflexivity | ].
    unfold inZone. cbn [cp_position cp_radius]. rewrite cos_0, sin_0.
    unfold Track.getStartPosition in Hz. cbv zeta in Hz.
    replace (1 * ((td_innerRadius trackDefinition + td_outerRadius trackDefinition) / 2))
      with ((td_innerRadius trackDefinition + td_outerRadius trackDefinition) / 2) by ring.
    replace (0 * ((td_innerRadius trackDefinition + td_outerRadius trackDefinition) / 2))
      with 0 by ring.
    exact Hz. }
  destruct H0 as [cp [Hcp [Ha Hin]]].
  rewrite (update_racing w0' p eq_refl) by (cbn; lia).
  rewrite Hcp. unfold inZone in Hin. rewrite (Rltb_true _ _ Hin).
  destruct (stampStart_sys w0') as [Hc Hcur].
  destruct (stampStart_session w0') as [_ [Hrs [Hlc _]]].
  assert (Htm : timers (stampStart w0') = []).
  { unfold stampStart. destruct (truthy _); reflexivity. }
  rewrite <- Hc, <- Hcur in Hcp. rewrite <- Hcur.
  rewrite (hitCheckpoint_hit (stampStart w0') cp Hcp).
  rewrite Hc, Hcur. cbn [Nat.leb List.length w0' sys checkpoints currentCheckpoint
                          set_raceStartTime set_raceState set_countdownValue constructor
                          createCheckpoints checkpointAngles forEach_push].
  eexists. split; [reflexivity | ].
  unfold afterHit. cbn [sys timers currentCheckpoint lapCount raceState
                        set_currentCheckpoint set_alpha set_checkpoints].
  rewrite Hcur, Hlc, Hrs, Htm, Ha. repeat split.
Qed.

(** X16. The car on the grid takes the first gate at once: the start
    position of [Track] is the centre of gate 0, so the first [update] after
    the countdown, with the car within the detection radius of the start,
    registers checkpoint 0: the race is on, checkpoint 1 is expected, and
    the flash of gate 0 waits to be undone. *)
Theorem car_on_the_grid_takes_gate_zero (trackDefinition : TrackDefinition)
        (onLap onFinish : bool) (clk : nat -> R) (p : Vector3) :
  Vector3Ops.Distance (mkVector3 (vx p) 0 (vz p)) (Track.getStartPosition trackDefinition)
  < (td_outerRadius trackDefinition - td_innerRadius trackDefinition) / 2 + 2 ->
  exists w',
    execAll (countdownToGo ++ [OpUpdate p])
            (newWorld trackDefinition onLap onFinish clk) = Some (tt, w') /\
    currentCheckpoint (sys w') = 1%nat /\
    lapCount (sys w') = 0%nat /\
    raceState (sys w') = racing /\
    timers w' = [mkTimer (Unflash 0 (4 / 10)) 200].
Proof.
  intros Hz.
  destruct (grid_update trackDefinition onLap onFinish clk p _
              (first_countdown trackDefinition onLap onFinish clk) Hz) as [w' [U H]].
  exists w'. split; [ | exact H].
  rewrite execAll_app, first_countdown, execAll_cons. cbn [exec]. rewrite U.
  apply execAll_nil.
Qed.

End StartLine.

(** ** The time and speed displays *)

Section TimeDisplay.

Import String Ascii TimeText.

Lemma rem_nonneg (x m : R) : 0 <= x -> 0 < m -> Js.rem x m = x - m * IZR (Zfloor (x / m)).
Proof.
  intros Hx Hm. unfold Js.rem, Js.trunc.
  rewrite Rleb_true; [reflexivity | ].
  apply Rmult_le_pos; [exact Hx | ]. apply Rlt_le, Rinv_0_lt_compat. exact Hm.
Qed.

Lemma floor_rem (x : R) (m : Z) :
  0 <= x -> (0 < m)%Z ->
  Zfloor (Js.rem x (IZR m)) = (Zfloor x mod m)%Z /\
  Zfloor (x / IZR m) = (Zfloor x / m)%Z.
Proof.
  intros Hx Hm.
  assert (HmR : 0 < IZR m) by (apply IZR_lt; exact Hm).
  rewrite rem_nonneg by assumption.
  set (q := Zfloor (x / IZR m)).
  assert (Hq : IZR q <= x / IZR m < IZR q + 1) by apply Zfloor_bound.
  assert (Hq' : IZR (m * q) <= x < IZR (m * q) + IZR m).
  { rewrite mult_IZR.
    assert (A : IZR q * IZR m <= x / IZR m * IZR m) by (apply Rmult_le_compat_r; lra).
    assert (B : x / IZR m * IZR m < (IZR q + 1) * IZR m) by (apply Rmult_lt_compat_r; lra).
    replace (x / IZR m * IZR m) with x in A, B by (field; lra).
    lra. }
  assert (Hf : (m * q <= Zfloor x < m * q + m)%Z).
  { split.
    - apply Zfloor_lub. lra.
    - apply lt_IZR. rewrite plus_IZR. pose proof (Zfloor_bound x). lra. }
  assert (Hdiv : (Zfloor x / m = q)%Z).
  { symmetry. apply (Z.div_unique_pos _ _ q (Zfloor x - m * q)); lia. }
  split; [ | symmetry; exact Hdiv].
  replace (x - IZR m * IZR q) with (x + IZR (- (m * q)))
    by (rewrite opp_IZR, mult_IZR; ring).
  rewrite Zfloor_addz. rewrite Z.mod_eq by lia. rewrite Hdiv. lia.
Qed.

Lemma timeParts_spec (ms : R) :
  0 <= ms ->
  timeParts ms = ((Zfloor ms / 60000)%Z, (Zfloor ms / 1000 mod 60)%Z, (Zfloor ms mod 1000)%Z).
Proof.
  intros Hms. unfold timeParts, Js.Math_floor.
  assert (Hts : 0 <= ms / 1000) by lra.
  destruct (floor_rem ms 1000 Hms) as [Hml Hs]; [lia | ].
  destruct (floor_rem (ms / 1000) 60 Hts) as [Hsec Hmin]; [lia | ].
  rewrite Hml, Hsec, Hmin, Hs.
  rewrite Z.div_div by lia. reflexivity.
Qed.

Lemma readNumber_toString (z : Z) : readNumber (Js.toString z) = Some z.
Proof.
  unfold readNumber, Js.toString.
  rewrite DecimalString.NilZero.isi.
  - cbn [option_map]. rewrite DecimalZ.of_to. reflexivity.
  - destruct z as [ | p | p]; cbn; try discriminate.
    intros H. injection H as H. apply (DecimalPos.Unsigned.to_uint_nonnil p H).
  - destruct z as [ | p | p]; cbn; try discriminate.
    intros H. injection H as H. apply (DecimalPos.Unsigned.to_uint_nonnil p H).
Qed.

Lemma splitAtColon_digits (u : Decimal.uint) (rest : string) :
  splitAtColon (DecimalString.NilEmpty.string_of_uint u ++ String ":" rest)
  = Some (DecimalString.NilEmpty.string_of_uint u, rest).
Proof.
  induction u as [ | u IH | u IH | u IH | u IH | u IH | u IH | u IH | u IH | u IH | u IH];
    cbn [DecimalString.NilEmpty.string_of_uint append splitAtColon];
    try (change (Ascii.eqb ":" ":") with true; reflexivity);
    rewrite IH; reflexivity.
Qed.

Lemma splitAtColon_toString (z : Z) (rest : string) :
  (0 <= z)%Z ->
  splitAtColon (Js.toString z ++ String ":" rest) = Some (Js.toString z, rest).
Proof.
  intros Hz. unfold Js.toString.
  destruct z as [ | p | p]; [reflexivity | | lia].
  cbn [Z.to_int DecimalString.NilZero.string_of_int].
  unfold DecimalString.NilZero.string_of_uint.
  destruct (Pos.to_uint p) eqn:E; try apply splitAtColon_digits.
  reflexivity.
Qed.

Lemma in_range (n : nat) (z : Z) :
  (0 <= z < Z.of_nat n)%Z -> In z (map Z.of_nat (seq 0 n)).
Proof.
  intros H. apply in_map_iff. exists (Z.to_nat z). split; [lia | ].
  apply in_seq. lia.
Qed.

Lemma padStart_two (z : Z) :
  (0 <= z < 60)%Z -> paddedTo 2 z (Js.padStart 2 "0" (Js.toString z)) = true.
Proof.
  intros H.
  assert (A : forallb (fun z => paddedTo 2 z (Js.padStart 2 "0" (Js.toString z)))
                      (map Z.of_nat (seq 0 60)) = true) by (vm_compute; reflexivity).
  rewrite forallb_forall in A. apply A. apply in_range. lia.
Qed.

Lemma padStart_three (z : Z) :
  (0 <= z < 1000)%Z -> paddedTo 3 z (Js.padStart 3 "0" (Js.toString z)) = true.
Proof.
  intros H.
  assert (A : forallb (fun z => paddedTo 3 z (Js.padStart 3 "0" (Js.toString z)))
                      (map Z.of_nat (seq 0 1000)) = true) by (vm_compute; reflexivity).
  rewrite forallb_forall in A. apply A. apply in_range. lia.
Qed.

Lemma paddedTo_two (z : Z) (s : string) :
  paddedTo 2 z s = true ->
  exists a b, s = String a (String b "") /\ readNumber s = Some z.
Proof.
  unfold paddedTo. intros H. apply andb_prop in H. destruct H as [Hl Hr].
  destruct s as [ | a [ | b [ | c s]]]; try discriminate.
  exists a, b. split; [reflexivity | ].
  destruct (readNumber _) as [v | ]; [ | discriminate].
  apply Z.eqb_eq in Hr. congruence.
Qed.

Lemma paddedTo_three (z : Z) (s : string) :
  paddedTo 3 z s = true ->
  exists a b c, s = String a (String b (String c "")) /\ readNumber s = Some z.
Proof.
  unfold paddedTo. intros H. apply andb_prop in H. destruct H as [Hl Hr].
  destruct s as [ | a [ | b [ | c [ | d s]]]]; try discriminate.
  exists a, b, c. split; [reflexivity | ].
  destruct (readNumber _) as [v | ]; [ | discriminate].
  apply Z.eqb_eq in Hr. congruence.
Qed.

(** X17. [CheckpointSystem.formatTime] can be read back: for [ms >= 0] its
    result is the minutes, a colon, two digits of seconds, a point and three
    digits of milliseconds, and these denote [Math.floor (ms)] milliseconds;
    its length is that of the minutes and seven more. *)
Theorem formatTime_reads_back (ms : R) :
  0 <= ms ->
  readTime (CheckpointText.formatTime ms) = Some (Zfloor ms) /\
  String.length (CheckpointText.formatTime ms)
  = (String.length (Js.toString (Zfloor ms / 60000)) + 7)%nat.
Proof.
  intros Hms. pose proof (timeParts_spec ms Hms) as Hp.
  unfold timeParts in Hp. injection Hp as Hm Hs Hml.
  unfold CheckpointText.formatTime. cbv zeta. rewrite Hm, Hs, Hml.
  set (F := Zfloor ms).
  assert (HF : (0 <= F)%Z) by (apply Zfloor_lub; exact Hms).
  destruct (paddedTo_two _ _ (padStart_two (F / 1000 mod 60)%Z
              ltac:(apply Z.mod_pos_bound; lia))) as [a [b [Es Rs]]].
  destruct (paddedTo_three _ _ (padStart_three (F mod 1000)%Z
              ltac:(apply Z.mod_pos_bound; lia))) as [c [d [e [Eml Rml]]]].
  rewrite Es in *. rewrite Eml in *.
  cbn [append]. split.
  - unfold readTime.
    rewrite splitAtColon_toString by (apply Z.div_pos; lia).
    change (Ascii.eqb "." ".") with true. cbv iota.
    rewrite readNumber_toString, Rs, Rml.
    f_equal.
    pose proof (Z.div_mod F 1000 ltac:(lia)) as D1.
    pose proof (Z.div_mod (F / 1000) 60 ltac:(lia)) as D2.
    rewrite Z.div_div in D2 by lia. change (1000 * 60)%Z with 60000%Z in D2. lia.
  - clear. induction (Js.toString (F / 60000)) as [ | x s IH]; cbn; [reflexivity | ].
    cbn in IH. rewrite IH. reflexivity.
Qed.

Example formatTime_example : CheckpointText.formatTime (83456789 / 1000) = "1:23.456"%string.
Proof.
  assert (H : 0 <= 83456789 / 1000) by lra.
  pose proof (timeParts_spec _ H) as Hp.
  assert (F : Zfloor (83456789 / 1000) = 83456%Z) by (apply Zfloor_eq; lra).
  rewrite F in Hp. unfold timeParts in Hp. injection Hp as Hm Hs Hml.
  unfold CheckpointText.formatTime. cbv zeta. rewrite Hm, Hs, Hml. reflexivity.
Qed.

Lemma formatTime_zero : CheckpointText.formatTime 0 = "0:00.000"%string.
Proof.
  pose proof (timeParts_spec 0 (Rle_refl 0)) as Hp.
  rewrite (ZfloorZ 0) in Hp. unfold timeParts in Hp. injection Hp as Hm Hs Hml.
  unfold CheckpointText.formatTime. cbv zeta. rewrite Hm, Hs, Hml. reflexivity.
Qed.

Lemma toString_negative (z : Z) :
  (z < 0)%Z -> exists rest, Js.toString z = String "-" rest.
Proof.
  intros H. destruct z as [ | p | p]; try lia.
  eexists. reflexivity.
Qed.

(** X18. [HUD.formatTime] is [CheckpointSystem.formatTime] behind a guard:
    it answers "0:00.000" for [null] and for every [ms <= 0], and what the
    tracker's function answers for [ms >= 0]; for [ms < 0] the tracker's
    function answers a text that starts with a minus sign. *)
Theorem hud_formatTime_guards (ms : R) :
  HUD.formatTime None = "0:00.000"%string /\
  (0 <= ms -> HUD.formatTime (Some ms) = CheckpointText.formatTime ms) /\
  (ms < 0 ->
   HUD.formatTime (Some ms) = "0:00.000"%string /\
   exists rest, CheckpointText.formatTime ms = String "-" rest).
Proof.
  split; [reflexivity | ]. split.
  - intros Hms. unfold HUD.formatTime. cbn [toNumber].
    destruct (Req_dec_T ms 0) as [-> | Hne].
    + rewrite truthy_zero, formatTime_zero. reflexivity.
    + rewrite (truthy_Some ms Hne), Rleb_false by lra. reflexivity.
  - intros Hms. split.
    + unfold HUD.formatTime. cbn [toNumber]. rewrite Rleb_true by lra.
      rewrite orb_true_r. reflexivity.
    + unfold CheckpointText.formatTime. cbv zeta.
      destruct (toString_negative (Js.Math_floor (ms / 1000 / 60))) as [rest Hrest].
      * unfold Js.Math_floor. apply lt_IZR.
        pose proof (Zfloor_bound (ms / 1000 / 60)). lra.
      * rewrite Hrest. cbn [append]. eexists. reflexivity.
Qed.

Lemma Zfloor_range (x : R) (a b : Z) :
  IZR a <= x -> x < IZR b + 1 -> (a <= Zfloor x <= b)%Z.
Proof.
  intros Ha Hb. pose proof (Zfloor_bound x) as [H1 H2]. split.
  - apply Zfloor_lub. exact Ha.
  - apply Z.lt_succ_r. apply lt_IZR. rewrite succ_IZR. lra.
Qed.

(** X19. The speed the HUD shows after a tick of the car is a whole number
    of km/h from 0 to 144, and 43 at most when the car reverses. *)
Theorem speed_display_range (c : Car) (input : Input) (deltaTime : R) :
  let c' := CarModel.update c input deltaTime in
  (0 <= HUD.speedKmh (CarModel.getSpeed c') <= 144)%Z /\
  (CarModel.getSpeed c' < 0 -> (HUD.speedKmh (CarModel.getSpeed c') <= 43)%Z).
Proof.
  intros c'. pose proof (currentSpeed_bounds c input deltaTime) as H.
  fold c' in H. unfold CarModel.getSpeed, HUD.speedKmh, Js.Math_round.
  set (v := currentSpeed c') in *.
  destruct (Zfloor_range (v * (36 / 10) + 1 / 2) (-43) 144) as [L U]; [lra | lra | ].
  split; [lia | ].
  intros Hneg.
  destruct (Zfloor_range (v * (36 / 10) + 1 / 2) (-43) 0) as [L' U']; [lra | lra | ].
  lia.
Qed.

End TimeDisplay.

(** ** The keyboard *)

Section Keyboard.

Import InputManager.

Lemma has_app (code : String.string) (keys keys' : list String.string) :
  has code (keys ++ keys') = has code keys || has code keys'.
Proof. unfold has. apply existsb_app. Qed.

Lemma has_add (code c : String.string) (keys : list String.string) :
  has code (add c keys) = String.eqb code c || has code keys.
Proof.
  unfold add. destruct (has c keys) eqn:E.
  - destruct (String.eqb_spec code c) as [-> | Hne]; [rewrite E | ]; reflexivity.
  - rewrite has_app. cbn. rewrite orb_false_r. apply orb_comm.
Qed.

Lemma has_delete (code c : String.string) (keys : list String.string) :
  has code (delete c keys) = negb (String.eqb code c) && has code keys.
Proof.
  unfold delete, has. induction keys as [ | k keys IH]; cbn [filter existsb].
  - rewrite andb_false_r. reflexivity.
  - destruct (String.eqb_spec c k) as [E | Hne]; cbn [negb existsb]; rewrite IH.
    + subst k. destruct (String.eqb code c); reflexivity.
    + destruct (String.eqb_spec code k) as [E | Hne'].
      * subst k. destruct (String.eqb_spec code c) as [E | _]; [congruence | reflexivity].
      * destruct (String.eqb code c); reflexivity.
Qed.

Lemma NoDup_add (c : String.string) (keys : list String.string) :
  NoDup keys -> NoDup (add c keys).
Proof.
  intros H. unfold add. destruct (has c keys) eqn:E; [exact H | ].
  apply NoDup_app; [exact H | constructor; [intros [] | constructor] | ].
  intros k Hk [Ek | []]. subst k. unfold has in E.
  assert (T : existsb (String.eqb c) keys = true).
  { apply existsb_exists. exists c. split; [exact Hk | apply String.eqb_refl]. }
  congruence.
Qed.

Lemma NoDup_delete (c : String.string) (keys : list String.string) :
  NoDup keys -> NoDup (delete c keys).
Proof. intros H. unfold delete. apply NoDup_filter. exact H. Qed.

Lemma keys_after (events : list KeyEvent) (im : InputManager) (code : String.string) :
  NoDup (keysPressed im) ->
  NoDup (keysPressed (afterKeys events im)) /\
  bindings (afterKeys events im) = bindings im /\
  has code (keysPressed (afterKeys events im))
  = fold_left (fun held e =>
                 match e with
                 | KeyDown c => if String.eqb code c then true else held
                 | KeyUp c => if String.eqb code c then false else held
                 end) events (has code (keysPressed im)).
Proof.
  revert im. induction events as [ | e events IH]; intros im Hnd.
  - cbn. auto.
  - cbn [afterKeys fold_left]. fold (afterKeys events (Game.keyEvent e im)).
    destruct e as [c | c]; cbn [Game.keyEvent].
    + destruct (IH (keydown c im)) as [H1 [H2 H3]]; [apply NoDup_add; exact Hnd | ].
      split; [exact H1 | ]. split; [exact H2 | ].
      rewrite H3. cbn [keydown keysPressed]. rewrite has_add.
      destruct (String.eqb code c); reflexivity.
    + destruct (IH (keyup c im)) as [H1 [H2 H3]]; [apply NoDup_delete; exact Hnd | ].
      split; [exact H1 | ]. split; [exact H2 | ].
      rewrite H3. cbn [keyup keysPressed]. rewrite has_delete.
      destruct (String.eqb code c); reflexivity.
Qed.

(** X20. A key is held exactly when its last event was a [keydown]: after
    any sequence of [keydown] and [keyup] events, [keysPressed] has a code
    if and only if the last event with that code is a [keydown]; it holds no
    code twice; and so for the four inputs of [getInput] and for
    [isResetPressed], with the keys the player is bound to. *)
Theorem key_is_held_after_its_last_keydown (playerNumber : nat) (events : list KeyEvent)
        (code : String.string) :
  let im := afterKeys events (constructor playerNumber) in
  has code (keysPressed im) = heldAfter code events /\
  NoDup (keysPressed im) /\
  accelerate (getInput im) = heldAfter (b_accelerate (bindings im)) events /\
  brake (getInput im) = heldAfter (b_brake (bindings im)) events /\
  turnLeft (getInput im) = heldAfter (b_turnLeft (bindings im)) events /\
  turnRight (getInput im) = heldAfter (b_turnRight (bindings im)) events /\
  isResetPressed im = heldAfter (b_reset (bindings im)) events.
Proof.
  intros im. unfold im.
  assert (Hnd : NoDup (keysPressed (constructor playerNumber))) by constructor.
  assert (G : forall c, has c (keysPressed (afterKeys events (constructor playerNumber)))
                        = heldAfter c events).
  { intros c. destruct (keys_after events _ c Hnd) as [_ [_ H]]. exact H. }
  destruct (keys_after events _ code Hnd) as [H1 _].
  unfold getInput, isResetPressed. cbn [accelerate brake turnLeft turnRight].
  repeat split; try apply G. exact H1.
Qed.

End Keyboard.

(** ** The game *)

Section GameFacts.

Import Checkpoint.

Lemma callback_frame (e : Event) (g : Game.Game) :
  Game.car (Game.callback g e) = Game.car g /\
  Game.track (Game.callback g e) = Game.track g /\
  Game.checkpoints (Game.callback g e) = Game.checkpoints g /\
  Game.inputManager (Game.callback g e) = Game.inputManager g.
Proof.
  destruct e as [lap lapTime | totalTime bestLap | count | ]; cbn [Game.callback];
    try (repeat split; reflexivity).
  unfold Game.onLapComplete. destruct (Nat.ltb _ _); repeat split; reflexivity.
Qed.

Lemma callbacks_frame (events : list Event) (g : Game.Game) :
  Game.car (fold_left Game.callback events g) = Game.car g /\
  Game.track (fold_left Game.callback events g) = Game.track g /\
  Game.checkpoints (fold_left Game.callback events g) = Game.checkpoints g /\
  Game.inputManager (fold_left Game.callback events g) = Game.inputManager g.
Proof.
  revert g. induction events as [ | e events IH]; intros g; cbn [fold_left].
  - repeat split; reflexivity.
  - destruct (IH (Game.callback g e)) as [H1 [H2 [H3 H4]]].
    destruct (callback_frame e g) as [K1 [K2 [K3 K4]]].
    repeat split; congruence.
Qed.

Lemma call_eq {A : Type} (m : M A) (g : Game.Game) (a : A) (w' : World) :
  m (Game.checkpoints g) = Some (a, w') ->
  exists g',
    Game.call m g = Some (a, g') /\
    Game.checkpoints g' = w' /\
    Game.car g' = Game.car g /\
    Game.track g' = Game.track g /\
    Game.inputManager g' = Game.inputManager g.
Proof.
  intros H. unfold Game.call. rewrite H. eexists. split; [reflexivity | ].
  match goal with
  | |- context [fold_left Game.callback ?l ?g0] =>
      destruct (callbacks_frame l g0) as [H1 [H2 [H3 H4]]]
  end.
  cbv zeta. rewrite H1, H2, H3, H4. repeat split; reflexivity.
Qed.

Lemma call_inv {A : Type} (m : M A) (g g' : Game.Game) (a : A) :
  Game.call m g = Some (a, g') ->
  m (Game.checkpoints g) = Some (a, Game.checkpoints g') /\
  Game.car g' = Game.car g /\
  Game.track g' = Game.track g /\
  Game.inputManager g' = Game.inputManager g.
Proof.
  intros H. destruct (m (Game.checkpoints g)) as [[a0 w'] | ] eqn:E.
  - destruct (call_eq m g a0 w' E) as [g1 [E1 [H1 [H2 [H3 H4]]]]].
    rewrite E1 in H. inversion H; subst. repeat split; congruence.
  - unfold Game.call in H. rewrite E in H. discriminate.
Qed.

Lemma exec_getRaceTime (w w' : World) (r : R) :
  getRaceTime w = Some (r, w') -> exec OpGetTotalTime w = Some (tt, w').
Proof.
  intros H. cbn [exec]. unfold bind at 1. unfold getRaceTime in H. rewrite H. reflexivity.
Qed.

Lemma getRaceTime_returns (w : World) : exists r w', getRaceTime w = Some (r, w').
Proof.
  unfold getRaceTime, getTotalTime, bind, ret, this, performance_now.
  destruct (negb _); [eexists; eexists; reflexivity | ].
  destruct (RaceState_eqb _ _); eexists; eexists; reflexivity.
Qed.

Lemma reset_on_track (c : Car) :
  CarModel.innerRadius
  <= planarDistance (mesh_position (CarModel.reset c (Track.getStartPosition ovalTrack)
                                                   Track.getStartRotation))
  <= CarModel.outerRadius.
Proof.
  unfold planarDistance, Track.getStartPosition, CarModel.innerRadius, CarModel.outerRadius.
  cbn.
  replace ((25 + 45) / 2 * ((25 + 45) / 2) + 0 * 0) with (35 * 35) by field.
  rewrite sqrt_square; lra.
Qed.

(** [restartRace] on the tracker: [reset], then [startCountdown]. *)
Lemma restartRace_eq (g : Game.Game) :
  inPlay g ->
  exists g',
    Game.restartRace g = Some (tt, g') /\
    execAll restartOps (Game.checkpoints g) = Some (tt, Game.checkpoints g') /\
    Game.car g' = CarModel.reset (Game.car g) (Track.getStartPosition ovalTrack)
                                 Track.getStartRotation /\
    Game.inputManager g' = Game.inputManager g /\
    inPlay g'.
Proof.
  intros [Hreach [Htrack Hpos]]. unfold Game.restartRace. cbv zeta.
  set (g1 := Game.mkGame _ _ _ _ _).
  destruct (call_eq reset g1 tt _ (reset_eq (Game.checkpoints g1)))
    as [g2 [E2 [W2 [C2 [T2 I2]]]]].
  rewrite E2. unfold Game.startRace.
  set (g3 := Game.mkGame _ _ _ _ _).
  destruct (call_eq startCountdown g3 tt _ (startCountdown_eq (Game.checkpoints g3)))
    as [g4 [E4 [W4 [C4 [T4 I4]]]]].
  rewrite E4. exists g4. split; [reflexivity | ].
  assert (Hrun : execAll restartOps (Game.checkpoints g) = Some (tt, Game.checkpoints g4)).
  { unfold restartOps. rewrite execAll_cons. cbn [exec]. rewrite reset_eq.
    rewrite execAll_cons. cbn [exec]. rewrite startCountdown_eq, execAll_nil.
    rewrite W4. unfold g3. cbn [Game.checkpoints]. rewrite W2. reflexivity. }
  split; [exact Hrun | ].
  assert (Hcar : Game.car g4 = CarModel.reset (Game.car g) (Track.getStartPosition ovalTrack)
                                 Track.getStartRotation).
  { rewrite C4. unfold g3. cbn [Game.car]. rewrite C2. unfold g1. cbn [Game.car].
    rewrite Htrack. reflexivity. }
  split; [exact Hcar | ].
  split; [rewrite I4; unfold g3; cbn [Game.inputManager]; rewrite I2; reflexivity | ].
  split; [apply (reachable_execAll restartOps _ _ Hreach Hrun) | ].
  split.
  - rewrite T4. unfold g3. cbn [Game.track]. rewrite T2. exact Htrack.
  - rewrite Hcar. apply reset_on_track.
Qed.

Lemma carAfter_on_track (deltaTime : R) (g : Game.Game) :
  inPlay g ->
  CarModel.innerRadius <= planarDistance (mesh_position (carAfter deltaTime g))
  <= CarModel.outerRadius.
Proof.
  intros [_ [_ Hpos]]. unfold carAfter.
  destruct (RaceState_eqb _ _); [apply update_in_annulus | exact Hpos].
Qed.

Lemma restart_ticks (w w' : World) :
  execAll restartOps w = Some (tt, w') ->
  pendingTicks w' = S (pendingTicks w) /\ goCount w' = goCount w /\
  raceState (sys w') = countdown /\
  lapTimes (sys w') = [] /\ bestLapTime (sys w') = None.
Proof.
  unfold restartOps. rewrite execAll_cons. cbn [exec]. rewrite reset_eq.
  rewrite execAll_cons. cbn [exec]. rewrite startCountdown_eq, execAll_nil.
  intros H. inv_some. unfold pendingTicks, goCount. cbn.
  rewrite filter_app, length_app. cbn. split; [lia | repeat split].
Qed.

(** A frame on the tracker: [update] with the position of the car, the
    race time for the HUD, then a restart when R is held, or Space once the
    race is over. *)
Lemma update_eq (deltaTime : R) (g : Game.Game) :
  inPlay g ->
  exists g' w1,
    Game.update deltaTime g = Some (tt, g') /\
    execAll [OpUpdate (mesh_position (carAfter deltaTime g)); OpGetTotalTime]
            (Game.checkpoints g) = Some (tt, w1) /\
    Game.inputManager g' = Game.inputManager g /\
    inPlay g' /\
    if InputManager.isResetPressed (Game.inputManager g)
       || (RaceState_eqb (raceState (sys w1)) finished
           && InputManager.isSpacePressed (Game.inputManager g))
    then execAll restartOps w1 = Some (tt, Game.checkpoints g') /\
         Game.car g' = CarModel.reset (carAfter deltaTime g)
                                      (Track.getStartPosition ovalTrack) Track.getStartRotation
    else Game.checkpoints g' = w1 /\ Game.car g' = carAfter deltaTime g.
Proof.
  intros Hin. pose proof Hin as [Hreach [Htrack Hpos]].
  unfold Game.update. cbv zeta.
  (* canMove *)
  destruct (call_eq canMove g _ _ eq_refl) as [g1 [E1 [W1 [C1 [T1 I1]]]]].
  rewrite E1.
  set (g2 := if RaceState_eqb _ _ then _ else g1).
  assert (C2 : Game.car g2 = carAfter deltaTime g).
  { unfold g2, carAfter. destruct (RaceState_eqb _ _); cbn [Game.car]; congruence. }
  assert (W2 : Game.checkpoints g2 = Game.checkpoints g).
  { unfold g2. destruct (RaceState_eqb _ _); cbn [Game.checkpoints]; congruence. }
  assert (T2 : Game.track g2 = ovalTrack).
  { unfold g2. destruct (RaceState_eqb _ _); cbn [Game.track]; congruence. }
  assert (I2 : Game.inputManager g2 = Game.inputManager g).
  { unfold g2. destruct (RaceState_eqb _ _); cbn [Game.inputManager]; congruence. }
  clearbody g2.
  (* update *)
  unfold CarModel.getPosition. rewrite C2.
  set (p := mesh_position (carAfter deltaTime g)).
  destruct (reachable_returns (OpUpdate p) _ Hreach) as [w3 E3]. cbn [exec] in E3.
  rewrite <- W2 in E3.
  destruct (call_eq (update p) g2 tt w3 E3) as [g3 [F3 [W3 [C3 [T3 I3]]]]].
  rewrite F3.
  assert (R3 : Reachable w3).
  { apply (Reachable_step _ (OpUpdate p) w3 Hreach). cbn [exec]. rewrite <- W2. exact E3. }
  (* the getters *)
  destruct (call_eq getCurrentLap g3 _ _ eq_refl) as [g4 [F4 [W4 [C4 [T4 I4]]]]].
  rewrite F4.
  destruct (call_eq getTotalLaps g4 _ _ eq_refl) as [g5 [F5 [W5 [C5 [T5 I5]]]]].
  rewrite F5.
  destruct (getRaceTime_returns (Game.checkpoints g5)) as [raceTime [w6 E6]].
  destruct (call_eq getRaceTime g5 raceTime w6 E6) as [g6 [F6 [W6 [C6 [T6 I6]]]]].
  rewrite F6.
  assert (Hw5 : Game.checkpoints g5 = w3) by congruence.
  assert (R6 : Reachable w6).
  { apply (Reachable_step w3 OpGetTotalTime w6 R3). apply (exec_getRaceTime _ _ raceTime).
    rewrite <- Hw5. exact E6. }
  assert (Hrun : execAll [OpUpdate p; OpGetTotalTime] (Game.checkpoints g) = Some (tt, w6)).
  { rewrite execAll_cons. cbn [exec]. rewrite <- W2, E3.
    rewrite execAll_cons. rewrite (exec_getRaceTime w3 w6 raceTime) by (rewrite <- Hw5; exact E6).
    apply execAll_nil. }
  set (g7 := Game.mkGame _ _ _ _ _).
  assert (Hcar6 : Game.car g6 = carAfter deltaTime g) by congruence.
  assert (Hin7 : inPlay g7).
  { unfold inPlay, g7. cbn [Game.checkpoints Game.track Game.car].
    rewrite W6, Hcar6. split; [exact R6 | ]. split; [congruence | ].
    apply carAfter_on_track. exact Hin. }
  assert (I7 : Game.inputManager g7 = Game.inputManager g)
    by (unfold g7; cbn [Game.inputManager]; congruence).
  assert (W7 : Game.checkpoints g7 = w6) by (unfold g7; cbn [Game.checkpoints]; exact W6).
  assert (C7 : Game.car g7 = carAfter deltaTime g) by (unfold g7; cbn [Game.car]; exact Hcar6).
  clearbody g7.
  rewrite I7.
  destruct (InputManager.isResetPressed (Game.inputManager g)) eqn:HR; cbn [orb].
  - (* R is held *)
    destruct (restartRace_eq g7 Hin7) as [g8 [E8 [X8 [C8 [I8 Hin8]]]]].
    rewrite E8.
    destruct (call_eq isRaceFinished g8 _ _ eq_refl) as [g9 [F9 [W9 [C9 [T9 I9]]]]].
    rewrite F9.
    assert (Hst : raceState (sys (Game.checkpoints g8)) = countdown).
    { rewrite W7 in X8. destruct (restart_ticks _ _ X8) as [_ [_ [H _]]]. exact H. }
    rewrite Hst. cbn [RaceState_eqb andb].
    exists g9, w6.
    split; [reflexivity | ]. split; [exact Hrun | ].
    split; [congruence | ].
    split.
    + destruct Hin8 as [A [B C]]. unfold inPlay. rewrite W9, C9, T9. auto.
    + rewrite W9, C9, C8, C7. rewrite W7 in X8. split; [exact X8 | reflexivity].
  - (* R is not held *)
    destruct (call_eq isRaceFinished g7 _ _ eq_refl) as [g9 [F9 [W9 [C9 [T9 I9]]]]].
    rewrite F9. rewrite I9, I7, W7.
    destruct (RaceState_eqb (raceState (sys w6)) finished
              && InputManager.isSpacePressed (Game.inputManager g)) eqn:HS.
    + assert (Hin9 : inPlay g9).
      { destruct Hin7 as [A [B C]]. unfold inPlay. rewrite W9, C9, T9. auto. }
      destruct (restartRace_eq g9 Hin9) as [g10 [E10 [X10 [C10 [I10 Hin10]]]]].
      rewrite E10. exists g10, w6. rewrite HS. cbn [orb].
      split; [reflexivity | ]. split; [exact Hrun | ].
      split; [congruence | ]. split; [exact Hin10 | ].
      rewrite W9, W7 in X10. split; [exact X10 | congruence].
    + exists g9, w6. rewrite HS. cbn [orb].
      split; [reflexivity | ]. split; [exact Hrun | ].
      split; [congruence | ]. split.
      * destruct Hin7 as [A [B C]]. unfold inPlay. rewrite W9, C9, T9. auto.
      * split; congruence.
Qed.

Lemma fire_eq (n : nat) (g : Game.Game) :
  inPlay g ->
  exists g',
    Game.step (Game.TimerFires n) g = Some (tt, g') /\
    exec (OpFire n) (Game.checkpoints g) = Some (tt, Game.checkpoints g') /\
    Game.car g' = Game.car g /\
    Game.inputManager g' = Game.inputManager g /\
    inPlay g'.
Proof.
  intros [Hreach [Htrack Hpos]].
  destruct (reachable_returns (OpFire n) _ Hreach) as [w' E]. cbn [exec] in E.
  destruct (call_eq (fire n) g tt w' E) as [g' [F [W [C [T I]]]]].
  exists g'. cbn [Game.step]. split; [exact F | ].
  cbn [exec]. rewrite W. split; [exact E | ]. split; [exact C | ]. split; [exact I | ].
  unfold inPlay. rewrite W, C, T.
  split; [apply (Reachable_step _ (OpFire n) w' Hreach E) | auto].
Qed.

Lemma step_inPlay (e : Game.GameEvent) (g : Game.Game) :
  inPlay g -> exists g', Game.step e g = Some (tt, g') /\ inPlay g'.
Proof.
  intros Hin. destruct e as [deltaTime | n | k].
  - destruct (update_eq deltaTime g Hin) as [g' [w1 [E [_ [_ [Hin' _]]]]]].
    exists g'. split; [exact E | exact Hin'].
  - destruct (fire_eq n g Hin) as [g' [E [_ [_ [_ Hin']]]]].
    exists g'. split; [exact E | exact Hin'].
  - eexists. split; [reflexivity | exact Hin].
Qed.

Lemma run_inPlay (events : list Game.GameEvent) (g : Game.Game) :
  inPlay g -> exists g', Game.run events g = Some (tt, g') /\ inPlay g'.
Proof.
  revert g. induction events as [ | e events IH]; intros g Hin; cbn [Game.run].
  - exists g. split; [reflexivity | exact Hin].
  - destruct (step_inPlay e g Hin) as [g1 [E1 Hin1]]. rewrite E1. apply IH. exact Hin1.
Qed.

Lemma init_eq (clk : nat -> R) :
  exists g,
    Game.init clk = Some (tt, g) /\
    startCountdown (newWorld ovalTrack true true clk) = Some (tt, Game.checkpoints g) /\
    Game.car g = Game.newCar (Track.getStartPosition ovalTrack) Track.getStartRotation /\
    Game.inputManager g = InputManager.constructor 1 /\
    inPlay g.
Proof.
  unfold Game.init, Game.startRace. cbv zeta.
  set (g0 := Game.mkGame _ _ _ _ _).
  destruct (call_eq startCountdown g0 tt _ (startCountdown_eq (Game.checkpoints g0)))
    as [g [E [W [C [T I]]]]].
  exists g. split; [exact E | ].
  split; [rewrite W; reflexivity | ]. split; [exact C | ]. split; [exact I | ].
  unfold inPlay. rewrite T, C. split; [ | split; [reflexivity | ]].
  - rewrite W. apply (Reachable_step (newWorld ovalTrack true true clk) OpStartCountdown).
    + apply Reachable_new.
    + reflexivity.
  - apply (reset_on_track carOnGrid).
Qed.

(** X21. Whatever happens to the game after [init] (frames of any
    [deltaTime], timers of the tracker that expire in any order, keys that go
    down or up), no call of the tracker throws, the car is between the
    walls, within [[27, 43]] of the track centre, the track is the oval, and
    the tracker is in a reachable state. *)
Theorem game_never_throws_and_keeps_the_car_on_track
        (clk : nat -> R) (events : list Game.GameEvent) :
  exists g,
    Game.play clk events = Some (tt, g) /\
    27 <= planarDistance (CarModel.getPosition (Game.car g)) <= 43 /\
    Game.track g = ovalTrack /\
    Reachable (Game.checkpoints g).
Proof.
  destruct (init_eq clk) as [g0 [E0 [_ [_ [_ Hin0]]]]].
  destruct (run_inPlay events g0 Hin0) as [g [E [Hreach [Htrack Hpos]]]].
  exists g. unfold Game.play. rewrite E0. split; [exact E | ].
  unfold CarModel.innerRadius, CarModel.outerRadius, CarModel.getPosition in *.
  split; [lra | ]. split; assumption.
Qed.

(** Only a timer says GO. *)
Lemma completeLap_goCount (w w' : World) :
  completeLap w = Some (tt, w') -> goCount w' = goCount w.
Proof.
  rewrite completeLap_eq. cbv zeta. intros H.
  destruct (Nat.leb _ _); [rewrite finishRace_eq in H | ]; inv_some;
    unfold goCount; cbn [log]; rewrite !filter_app, !length_app;
    destruct (onLapComplete (sys w)); try destruct (onRaceFinish _); cbn; lia.
Qed.

Lemma update_goCount (w w' : World) (p : Vector3) :
  update p w = Some (tt, w') -> goCount w' = goCount w.
Proof.
  intros H.
  assert (Hst : goCount (stampStart w) = goCount w)
    by (unfold stampStart; destruct (truthy _); reflexivity).
  destruct (RaceState_eqb (raceState (sys w)) racing) eqn:Hr.
  - apply RaceState_eqb_eq in Hr.
    destruct (Nat.leb (totalLaps (sys w)) (lapCount (sys w))) eqn:Hl.
    + apply Nat.leb_le in Hl. rewrite (update_race_over w p Hl) in H. inv_some. reflexivity.
    + apply Nat.leb_gt in Hl. rewrite (update_racing w p Hr Hl) in H.
      destruct (nth_error _ _) as [cp | ] eqn:E; [ | discriminate].
      destruct (_ <? _); [ | inv_some; exact Hst].
      destruct (stampStart_sys w) as [Hc Hcur].
      rewrite <- Hcur in H. rewrite <- Hc, <- Hcur in E.
      rewrite (hitCheckpoint_hit (stampStart w) cp E) in H.
      destruct (Nat.leb _ _).
      * apply completeLap_goCount in H. rewrite H, <- Hst. reflexivity.
      * inv_some. rewrite <- Hst. reflexivity.
  - apply RaceState_eqb_neq in Hr. rewrite (update_not_racing w p Hr) in H.
    inv_some. reflexivity.
Qed.



Lemma run_app (events events' : list Game.GameEvent) (g : Game.Game) :
  Game.run (events ++ events') g
  = match Game.run events g with
    | Some (_, g1) => Game.run events' g1
    | None => None
    end.
Proof.
  revert g. induction events as [ | e events IH]; intros g; cbn [app Game.run].
  - reflexivity.
  - destruct (Game.step e g) as [[[] g1] | ]; [apply IH | reflexivity].
Qed.




End GameFacts.

Section FirstFrame.

Import Checkpoint.

(** The car that leaves the grid: one tick from rest at the start of the
    oval track. *)
Lemma first_move (input : Input) (dt : R) :
  0 <= dt <= 1 / 2 ->
  let c' := CarModel.update (Game.newCar (Track.getStartPosition ovalTrack)
                                         Track.getStartRotation) input dt in
  Vector3Ops.Distance (mkVector3 (vx (mesh_position c')) 0 (vz (mesh_position c')))
                      (Track.getStartPosition ovalTrack)
  < (td_outerRadius ovalTrack - td_innerRadius ovalTrack) / 2 + 2.
Proof.
  intros Hdt c'.
  set (c := Game.newCar (Track.getStartPosition ovalTrack) Track.getStartRotation) in *.
  assert (Hsteer : CarModel.steer c input dt = 0).
  { rewrite steer_still; [reflexivity | ].
    cbn [c Game.newCar currentSpeed]. rewrite Rabs_R0. unfold CarModel.minSpeedToTurn. lra. }
  set (s := CarModel.clampSpeed (CarModel.throttle c input dt)).
  assert (Hs : Rabs s <= 40 * dt).
  { apply Rle_trans with (Rabs (CarModel.throttle c input dt)); [apply clampSpeed_shrinks | ].
    unfold CarModel.throttle, Rgtb. cbn [c Game.newCar currentSpeed].
    unfold CAR_CONFIG.acceleration, CAR_CONFIG.brakeForce.
    destruct (accelerate input); [rewrite Rabs_right; lra | ].
    destruct (brake input); [rewrite Rabs_left1; lra | ].
    rewrite !Rltb_false by lra. rewrite Rabs_R0. lra. }
  assert (Hm : Rabs (s * dt) <= 10).
  { rewrite Rabs_mult, (Rabs_right dt) by lra.
    pose proof (Rabs_pos s). nra. }
  assert (Hcand : CarModel.candidate c input dt
                  = mkVector3 35 (CAR_CONFIG.height / 2 + 1 / 10) (s * dt)).
  { unfold CarModel.candidate, Vector3Ops.add, Vector3Ops.scale. cbv zeta.
    rewrite Hsteer, sin_0, cos_0. fold s.
    cbn [c Game.newCar mesh_position vx vy vz Track.getStartPosition ovalTrack
         td_innerRadius td_outerRadius].
    f_equal; field. }
  assert (Hsq : (s * dt) * (s * dt) <= 100).
  { unfold Rabs in Hm. destruct (Rcase_abs (s * dt)); nra. }
  assert (Hin : CarModel.innerRadius <= planarDistance (CarModel.candidate c input dt)
                <= CarModel.outerRadius).
  { rewrite Hcand. unfold planarDistance, CarModel.innerRadius, CarModel.outerRadius.
    cbn [vx vz]. split.
    - apply Rlt_le. apply sqrt_gt_bound; nra.
    - apply Rlt_le. apply sqrt_lt_bound; nra. }
  unfold c'. rewrite (update_inside c input dt Hin). cbn [mesh_position]. rewrite Hcand.
  unfold Vector3Ops.Distance, Track.getStartPosition. cbn [vx vy vz ovalTrack
    td_innerRadius td_outerRadius].
  apply sqrt_lt_bound; [ | lra | ].
  - apply sum_of_squares_pos.
  - replace (35 - (25 + 45) / 2) with 0 by field. nra.
Qed.

Lemma run_keys (keys : list KeyEvent) (g : Game.Game) :
  Game.run (map Game.Key keys) g
  = Some (tt, Game.mkGame (Game.car g) (Game.track g) (Game.checkpoints g)
                          (afterKeys keys (Game.inputManager g)) (Game.hud g)).
Proof.
  revert g. induction keys as [ | k keys IH]; intros g; cbn [map Game.run Game.step].
  - destruct g; reflexivity.
  - rewrite IH. reflexivity.
Qed.

Lemma countdown_in_game (clk : nat -> R) :
  exists g0 g,
    Game.init clk = Some (tt, g0) /\
    Game.run (repeat (Game.TimerFires 0) 4) g0 = Some (tt, g) /\
    execAll countdownToGo (newWorld ovalTrack true true clk)
    = Some (tt, Game.checkpoints g) /\
    Game.car g = Game.newCar (Track.getStartPosition ovalTrack) Track.getStartRotation /\
    Game.inputManager g = InputManager.constructor 1 /\
    inPlay g.
Proof.
  destruct (init_eq clk) as [g0 [E0 [W0 [C0 [I0 Hin0]]]]].
  destruct (fire_eq 0 g0 Hin0) as [g1 [E1 [W1 [C1 [I1 Hin1]]]]].
  destruct (fire_eq 0 g1 Hin1) as [g2 [E2 [W2 [C2 [I2 Hin2]]]]].
  destruct (fire_eq 0 g2 Hin2) as [g3 [E3 [W3 [C3 [I3 Hin3]]]]].
  destruct (fire_eq 0 g3 Hin3) as [g4 [E4 [W4 [C4 [I4 Hin4]]]]].
  exists g0, g4. split; [exact E0 | ]. split.
  - cbn [repeat Game.run]. rewrite E1, E2, E3, E4. reflexivity.
  - split.
    + unfold countdownToGo. rewrite execAll_cons. cbn [exec]. rewrite W0.
      rewrite execAll_cons, W1, execAll_cons, W2, execAll_cons, W3, execAll_cons, W4.
      apply execAll_nil.
    + split; [congruence | ]. split; [congruence | exact Hin4].
Qed.

(** X23. The first frame of the race registers checkpoint 0: after [init]
    and the four timers of the countdown, whatever keys were pressed
    meanwhile, R not being held, a frame of at most 500 ms moves the car
    within the zone of the start line, so the tracker expects checkpoint 1
    after it, with no lap done. *)
Theorem first_racing_frame_takes_gate_zero
        (clk : nat -> R) (keys : list KeyEvent) (deltaTime : R) :
  heldAfter (InputManager.b_reset InputManager.DEFAULT_BINDINGS) keys = false ->
  0 <= deltaTime <= 500 ->
  exists g,
    Game.play clk (repeat (Game.TimerFires 0) 4 ++ map Game.Key keys ++ [Game.Frame deltaTime])
    = Some (tt, g) /\
    currentCheckpoint (sys (Game.checkpoints g)) = 1%nat /\
    lapCount (sys (Game.checkpoints g)) = 0%nat /\
    raceState (sys (Game.checkpoints g)) = racing.
Proof.
  intros HR Hdt.
  destruct (countdown_in_game clk) as [g0 [g4 [E0 [E4 [W4 [C4 [I4 Hin4]]]]]]].
  set (g5 := Game.mkGame (Game.car g4) (Game.track g4) (Game.checkpoints g4)
                         (afterKeys keys (Game.inputManager g4)) (Game.hud g4)).
  assert (Hin5 : inPlay g5) by exact Hin4.
  destruct (update_eq deltaTime g5 Hin5) as [g [w1 [E [Hrun [I [Hin Hrest]]]]]].
  assert (Hrace : raceState (sys (Game.checkpoints g5)) = racing).
  { pose proof W4 as W. rewrite first_countdown in W. inversion W as [Hw].
    unfold g5. cbn [Game.checkpoints]. rewrite <- Hw. reflexivity. }
  assert (Hcar : carAfter deltaTime g5
                 = CarModel.update (Game.newCar (Track.getStartPosition ovalTrack)
                                                Track.getStartRotation)
                                   (InputManager.getInput (Game.inputManager g5))
                                   (deltaTime / 1000)).
  { unfold carAfter. rewrite Hrace. cbn [RaceState_eqb]. unfold g5 at 1. cbn [Game.car].
    rewrite C4. reflexivity. }
  rewrite Hcar in Hrun.
  set (p := mesh_position _) in Hrun.
  assert (Hz : Vector3Ops.Distance (mkVector3 (vx p) 0 (vz p))
                                   (Track.getStartPosition ovalTrack)
               < (td_outerRadius ovalTrack - td_innerRadius ovalTrack) / 2 + 2).
  { unfold p. apply first_move. lra. }
  destruct (grid_update ovalTrack true true clk p _ W4 Hz) as [w' [U [Hcur [Hlap [Hst _]]]]].
  rewrite execAll_cons in Hrun. cbn [exec] in Hrun.
  change (Game.checkpoints g5) with (Game.checkpoints g4) in Hrun.
  rewrite U in Hrun. rewrite execAll_cons in Hrun.
  destruct (exec OpGetTotalTime w') as [[[] w2] | ] eqn:E2; [ | discriminate].
  rewrite execAll_nil in Hrun. inversion Hrun; subst w2.
  assert (Hsys : sys w1 = sys w')
    by (destruct (exec_getTotalTime w' w1 E2) as [-> | ->]; reflexivity).
  assert (HnoR : InputManager.isResetPressed (Game.inputManager g5) = false).
  { unfold InputManager.isResetPressed, g5. cbn [Game.inputManager].
    assert (Hnd : NoDup (InputManager.keysPressed (Game.inputManager g4)))
      by (rewrite I4; constructor).
    destruct (keys_after keys (Game.inputManager g4)
                (InputManager.b_reset (InputManager.bindings
                                         (afterKeys keys (Game.inputManager g4)))) Hnd)
      as [_ [Hb Hhas]].
    rewrite Hhas, Hb, I4. exact HR. }
  rewrite HnoR, Hsys, Hst in Hrest. cbn [RaceState_eqb andb orb] in Hrest.
  destruct Hrest as [Hw Hc].
  exists g. split.
  - unfold Game.play. rewrite E0, run_app, E4, run_app, run_keys.
    fold g5. cbn [Game.run Game.step]. rewrite E. reflexivity.
  - rewrite Hw, Hsys. auto.
Qed.

End FirstFrame.

Section GameDisplay.

Import Checkpoint.

Lemma callback_best (e : Event) (g : Game.Game) :
  HUD.bestLapEl (Game.hud (Game.callback g e)) = HUD.bestLapEl (Game.hud g).
Proof.
  destruct e as [lap lapTime | totalTime bestLap | count | ]; cbn [Game.callback];
    try reflexivity.
  unfold Game.onLapComplete. destruct (Nat.ltb _ _); reflexivity.
Qed.

Lemma callbacks_best (events : list Event) (g : Game.Game) :
  HUD.bestLapEl (Game.hud (fold_left Game.callback events g)) = HUD.bestLapEl (Game.hud g).
Proof.
  revert g. induction events as [ | e events IH]; intros g; cbn [fold_left].
  - reflexivity.
  - rewrite IH. apply callback_best.
Qed.

Lemma call_best {A : Type} (m : M A) (g g' : Game.Game) (a : A) :
  Game.call m g = Some (a, g') ->
  HUD.bestLapEl (Game.hud g') = HUD.bestLapEl (Game.hud g).
Proof.
  unfold Game.call. destruct (m (Game.checkpoints g)) as [[a0 w'] | ]; [ | discriminate].
  cbv zeta. intros H. inversion H; subst. rewrite callbacks_best. reflexivity.
Qed.

Lemma skipn_length {A : Type} (l : list A) : skipn (List.length l) l = [].
Proof. induction l as [ | x l IH]; [reflexivity | exact IH]. Qed.

(** A call that sends no notification leaves the HUD as it is. *)
Lemma call_quiet {A : Type} (m : M A) (g g' : Game.Game) (a : A) :
  Game.call m g = Some (a, g') ->
  log (Game.checkpoints g') = log (Game.checkpoints g) ->
  Game.hud g' = Game.hud g.
Proof.
  intros H Hlog. pose proof (call_inv m g g' a H) as [Hm _].
  unfold Game.call in H. rewrite Hm in H. cbv zeta in H. rewrite Hlog in H.
  rewrite skipn_length in H. cbn [fold_left] in H. inversion H as [Hg].
  reflexivity.
Qed.

Lemma restartRace_hud (g g' : Game.Game) :
  Game.restartRace g = Some (tt, g') ->
  HUD.finishHidden (Game.hud g') = true /\
  HUD.bestLapEl (Game.hud g') = HUD.bestLapEl (Game.hud g).
Proof.
  unfold Game.restartRace, Game.startRace. cbv zeta.
  set (g1 := Game.mkGame _ _ _ _ _).
  destruct (Game.call reset g1) as [[[] g2] | ] eqn:E2; [ | discriminate].
  set (g3 := Game.mkGame _ _ _ _ _).
  intros E4.
  pose proof (call_inv _ _ _ _ E2) as [M2 _]. rewrite reset_eq in M2.
  assert (H2 : Game.hud g2 = Game.hud g1).
  { apply (call_quiet _ _ _ _ E2). inversion M2 as [Hw]. reflexivity. }
  pose proof (call_inv _ _ _ _ E4) as [M4 _]. rewrite startCountdown_eq in M4.
  assert (H4 : Game.hud g' = Game.hud g3).
  { apply (call_quiet _ _ _ _ E4). inversion M4 as [Hw]. reflexivity. }
  rewrite H4. unfold g3. cbn [Game.hud HUD.hideFinish HUD.finishHidden HUD.bestLapEl].
  rewrite H2. split; reflexivity.
Qed.

Lemma update_hud (deltaTime : R) (g g' : Game.Game) (w1 : World) :
  Game.update deltaTime g = Some (tt, g') ->
  execAll [OpUpdate (mesh_position (carAfter deltaTime g)); OpGetTotalTime]
          (Game.checkpoints g) = Some (tt, w1) ->
  HUD.bestLapEl (Game.hud g')
  = (if truthy (bestLapTime (sys w1)) then HUD.formatTime (bestLapTime (sys w1))
     else HUD.bestLapEl (Game.hud g)) /\
  (InputManager.isResetPressed (Game.inputManager g)
   || (RaceState_eqb (raceState (sys w1)) finished
       && InputManager.isSpacePressed (Game.inputManager g)) = true ->
   HUD.finishHidden (Game.hud g') = true).
Proof.
  unfold Game.update. cbv zeta. intros H Hrun.
  destruct (Game.call canMove g) as [[b g1] | ] eqn:E1; [ | discriminate].
  pose proof (call_inv _ _ _ _ E1) as [M1 [C1 [T1 I1]]].
  pose proof (call_best _ _ _ _ E1) as B1.
  assert (Hb : b = RaceState_eqb (raceState (sys (Game.checkpoints g))) racing
               /\ Game.checkpoints g1 = Game.checkpoints g).
  { unfold canMove, bind, this, ret in M1. inversion M1. split; reflexivity. }
  destruct Hb as [Hb W1]. subst b.
  set (g2 := if RaceState_eqb _ _ then _ else g1) in H.
  assert (C2 : Game.car g2 = carAfter deltaTime g).
  { unfold g2, carAfter. destruct (RaceState_eqb _ _); cbn [Game.car]; congruence. }
  assert (W2 : Game.checkpoints g2 = Game.checkpoints g).
  { unfold g2. destruct (RaceState_eqb _ _); cbn [Game.checkpoints]; congruence. }
  assert (I2 : Game.inputManager g2 = Game.inputManager g).
  { unfold g2. destruct (RaceState_eqb _ _); cbn [Game.inputManager]; congruence. }
  assert (B2 : HUD.bestLapEl (Game.hud g2) = HUD.bestLapEl (Game.hud g)).
  { unfold g2. destruct (RaceState_eqb _ _); cbn [Game.hud]; congruence. }
  clearbody g2. unfold CarModel.getPosition in H. rewrite C2 in H.
  set (p := mesh_position (carAfter deltaTime g)) in *.
  destruct (Game.call (update p) g2) as [[[] g3] | ] eqn:E3; [ | discriminate].
  pose proof (call_inv _ _ _ _ E3) as [M3 [C3 [T3 I3]]].
  pose proof (call_best _ _ _ _ E3) as B3.
  destruct (Game.call getCurrentLap g3) as [[lap g4] | ] eqn:E4; [ | discriminate].
  pose proof (call_inv _ _ _ _ E4) as [M4 [C4 [T4 I4]]].
  pose proof (call_best _ _ _ _ E4) as B4.
  assert (W4 : Game.checkpoints g4 = Game.checkpoints g3).
  { unfold getCurrentLap, bind, this, ret in M4. inversion M4. congruence. }
  destruct (Game.call getTotalLaps g4) as [[total g5] | ] eqn:E5; [ | discriminate].
  pose proof (call_inv _ _ _ _ E5) as [M5 [C5 [T5 I5]]].
  pose proof (call_best _ _ _ _ E5) as B5.
  assert (W5 : Game.checkpoints g5 = Game.checkpoints g4).
  { unfold getTotalLaps, bind, this, ret in M5. inversion M5. congruence. }
  destruct (Game.call getRaceTime g5) as [[raceTime g6] | ] eqn:E6; [ | discriminate].
  pose proof (call_inv _ _ _ _ E6) as [M6 [C6 [T6 I6]]].
  pose proof (call_best _ _ _ _ E6) as B6.
  assert (Hw1 : Game.checkpoints g6 = w1).
  { rewrite execAll_cons in Hrun. cbn [exec] in Hrun. rewrite <- W2, M3 in Hrun.
    rewrite execAll_cons in Hrun.
    rewrite (exec_getRaceTime (Game.checkpoints g3) (Game.checkpoints g6) raceTime) in Hrun
      by (rewrite <- W4, <- W5; exact M6).
    rewrite execAll_nil in Hrun. inversion Hrun. reflexivity. }
  set (g7 := Game.mkGame _ _ _ _ _) in H.
  assert (B7 : HUD.bestLapEl (Game.hud g7)
               = (if truthy (bestLapTime (sys w1)) then HUD.formatTime (bestLapTime (sys w1))
                  else HUD.bestLapEl (Game.hud g))).
  { unfold g7. cbn [Game.hud HUD.update HUD.bestLapEl]. rewrite Hw1.
    destruct (truthy _); [reflexivity | congruence]. }
  assert (I7 : Game.inputManager g7 = Game.inputManager g)
    by (unfold g7; cbn [Game.inputManager]; congruence).
  assert (W7 : Game.checkpoints g7 = w1) by (unfold g7; cbn [Game.checkpoints]; exact Hw1).
  clearbody g7. rewrite I7 in H.
  destruct (InputManager.isResetPressed (Game.inputManager g)) eqn:HR; cbn [orb].
  - destruct (Game.restartRace g7) as [[[] g8] | ] eqn:E8; [ | discriminate].
    destruct (restartRace_hud g7 g8 E8) as [F8 B8].
    destruct (Game.call isRaceFinished g8) as [[fin g9] | ] eqn:E9; [ | discriminate].
    pose proof (call_inv _ _ _ _ E9) as [M9 [C9 [T9 I9]]].
    assert (H9 : Game.hud g9 = Game.hud g8).
    { apply (call_quiet _ _ _ _ E9).
      unfold isRaceFinished, bind, this, ret in M9. injection M9 as Hf Hw.
      rewrite <- Hw. reflexivity. }
    destruct (fin && InputManager.isSpacePressed (Game.inputManager g9)).
    + destruct (restartRace_hud g9 g' H) as [F' B'].
      split; [congruence | intros _; exact F'].
    + inversion H; subst g'. split; [congruence | intros _; congruence].
  - destruct (Game.call isRaceFinished g7) as [[fin g9] | ] eqn:E9; [ | discriminate].
    pose proof (call_inv _ _ _ _ E9) as [M9 [C9 [T9 I9]]].
    assert (Hfin : fin = RaceState_eqb (raceState (sys w1)) finished
                   /\ Game.checkpoints g9 = Game.checkpoints g7).
    { unfold isRaceFinished, bind, this, ret in M9. injection M9 as Hf Hw.
      split; [rewrite <- Hf, W7; reflexivity | symmetry; exact Hw]. }
    destruct Hfin as [Hfin W9]. subst fin.
    assert (H9 : Game.hud g9 = Game.hud g7).
    { apply (call_quiet _ _ _ _ E9). rewrite W9. reflexivity. }
    rewrite I9, I7 in H.
    destruct (RaceState_eqb (raceState (sys w1)) finished
              && InputManager.isSpacePressed (Game.inputManager g)).
    + destruct (restartRace_hud g9 g' H) as [F' B'].
      split; [congruence | intros _; exact F'].
    + inversion H; subst g'. split; [congruence | intros Hf; discriminate].
Qed.

End GameDisplay.

Section FinishScreen.

Import Checkpoint.
Import String.

(** X24. With Space held, the frame that finishes the race restarts it:
    from any state of the game, once Space has gone down, a frame after
    whose [update] the race is finished ends with the tracker in a new
    countdown, no lap time and no best lap kept, the car at rest and the
    finish overlay hidden; the best lap on the HUD is the one [HUD.update]
    wrote before the restart, that of the race just finished when it had
    one. *)
Theorem space_held_at_the_finish_skips_the_results
        (clk : nat -> R) (events : list Game.GameEvent) (deltaTime : R) :
  exists g g' w1,
    Game.play clk (events ++ [Game.Key (KeyDown "Space"%string)]) = Some (tt, g) /\
    Game.update deltaTime g = Some (tt, g') /\
    execAll [OpUpdate (mesh_position (carAfter deltaTime g)); OpGetTotalTime]
            (Game.checkpoints g) = Some (tt, w1) /\
    HUD.bestLapEl (Game.hud g')
    = (if truthy (bestLapTime (sys w1)) then HUD.formatTime (bestLapTime (sys w1))
       else HUD.bestLapEl (Game.hud g)) /\
    (raceState (sys w1) = finished ->
     raceState (sys (Game.checkpoints g')) = countdown /\
     lapTimes (sys (Game.checkpoints g')) = [] /\
     bestLapTime (sys (Game.checkpoints g')) = None /\
     currentSpeed (Game.car g') = 0 /\
     HUD.finishHidden (Game.hud g') = true).
Proof.
  destruct (init_eq clk) as [g0 [E0 [_ [_ [I0 Hin0]]]]].
  destruct (run_inPlay events g0 Hin0) as [g1 [E1 Hin1]].
  set (g := Game.mkGame (Game.car g1) (Game.track g1) (Game.checkpoints g1)
                        (InputManager.keydown "Space" (Game.inputManager g1)) (Game.hud g1)).
  assert (Hin : inPlay g) by exact Hin1.
  assert (HS : InputManager.isSpacePressed (Game.inputManager g) = true).
  { unfold g, InputManager.isSpacePressed.
    cbn [Game.inputManager InputManager.keydown InputManager.keysPressed].
    rewrite has_add, String.eqb_refl. reflexivity. }
  destruct (update_eq deltaTime g Hin) as [g' [w1 [E [Hrun [I [Hin' Hrest]]]]]].
  destruct (update_hud deltaTime g g' w1 E Hrun) as [Hbest Hhide].
  exists g, g', w1. split.
  { unfold Game.play. rewrite E0, run_app, E1. reflexivity. }
  split; [exact E | ]. split; [exact Hrun | ]. split; [exact Hbest | ].
  intros Hfin. rewrite HS, Hfin in Hrest, Hhide. cbn [RaceState_eqb andb] in Hrest, Hhide.
  rewrite orb_true_r in Hrest, Hhide.
  destruct Hrest as [Hre Hcar].
  destruct (restart_ticks _ _ Hre) as [_ [_ [Hst [Hlaps Hbest']]]].
  split; [exact Hst | ]. split; [exact Hlaps | ]. split; [exact Hbest' | ].
  split; [rewrite Hcar; reflexivity | apply Hhide; reflexivity].
Qed.

End FinishScreen.

Section BeforeTheGo.

Import Checkpoint.

Lemma frame_in_countdown (deltaTime : R) (g : Game.Game) :
  inPlay g ->
  raceState (sys (Game.checkpoints g)) = countdown ->
  Game.car g = Game.newCar (Track.getStartPosition ovalTrack) Track.getStartRotation ->
  exists g',
    Game.update deltaTime g = Some (tt, g') /\
    inPlay g' /\
    raceState (sys (Game.checkpoints g')) = countdown /\
    Game.car g' = Game.newCar (Track.getStartPosition ovalTrack) Track.getStartRotation.
Proof.
  intros Hin Hst Hcar.
  destruct (update_eq deltaTime g Hin) as [g' [w1 [E [Hrun [_ [Hin' Hrest]]]]]].
  exists g'. split; [exact E | ]. split; [exact Hin' | ].
  assert (Hafter : carAfter deltaTime g = Game.car g).
  { unfold carAfter. rewrite Hst. reflexivity. }
  assert (Hw1 : raceState (sys w1) = countdown).
  { rewrite execAll_cons in Hrun. cbn [exec] in Hrun.
    rewrite update_not_racing in Hrun by (rewrite Hst; discriminate).
    rewrite execAll_cons in Hrun.
    destruct (exec OpGetTotalTime (Game.checkpoints g)) as [[[] w2] | ] eqn:E2; [ | discriminate].
    rewrite execAll_nil in Hrun. inversion Hrun; subst w2.
    destruct (exec_getTotalTime _ _ E2) as [-> | ->]; exact Hst. }
  rewrite Hafter, Hcar in Hrest.
  destruct (_ || _).
  - destruct Hrest as [Hre Hc]. destruct (restart_ticks _ _ Hre) as [_ [_ [H _]]].
    split; [exact H | ]. rewrite Hc. reflexivity.
  - destruct Hrest as [Hw Hc]. rewrite Hw. split; [exact Hw1 | exact Hc].
Qed.

(** X25. The car waits for the GO: as long as no timer of the tracker has
    expired, whatever the frames and the keys (R held or not), the car is
    where [init] put it, at rest on the start line with the start rotation,
    the tracker is in its countdown and [canMove] answers false. *)
Theorem car_waits_for_the_go (clk : nat -> R) (events : list Game.GameEvent) :
  forallb noTimer events = true ->
  exists g,
    Game.play clk events = Some (tt, g) /\
    Game.car g = Game.newCar (Track.getStartPosition ovalTrack) Track.getStartRotation /\
    CarModel.getSpeed (Game.car g) = 0 /\
    raceState (sys (Game.checkpoints g)) = countdown /\
    canMove (Game.checkpoints g) = Some (false, Game.checkpoints g).
Proof.
  intros Hev.
  destruct (init_eq clk) as [g0 [E0 [W0 [C0 [_ Hin0]]]]].
  assert (Hst0 : raceState (sys (Game.checkpoints g0)) = countdown).
  { rewrite startCountdown_eq in W0. inversion W0 as [Hw]. reflexivity. }
  assert (Hgen : forall g,
             inPlay g ->
             raceState (sys (Game.checkpoints g)) = countdown ->
             Game.car g = Game.newCar (Track.getStartPosition ovalTrack) Track.getStartRotation ->
             exists g',
               Game.run events g = Some (tt, g') /\
               raceState (sys (Game.checkpoints g')) = countdown /\
               Game.car g' = Game.newCar (Track.getStartPosition ovalTrack)
                                         Track.getStartRotation).
  { clear E0 W0 C0 Hin0 Hst0 g0.
    induction events as [ | e events IH]; intros g Hin Hst Hcar; cbn [Game.run].
    - exists g. split; [reflexivity | split; assumption].
    - cbn [forallb] in Hev. apply andb_prop in Hev. destruct Hev as [He Hev].
      destruct e as [deltaTime | n | k]; [ | discriminate | ].
      + destruct (frame_in_countdown deltaTime g Hin Hst Hcar) as [g1 [E1 [Hin1 [Hst1 Hcar1]]]].
        cbn [Game.step]. rewrite E1. apply (IH Hev g1 Hin1 Hst1 Hcar1).
      + cbn [Game.step]. apply (IH Hev); assumption. }
  destruct (Hgen g0 Hin0 Hst0 C0) as [g [E [Hst Hcar]]].
  exists g. unfold Game.play. rewrite E0. split; [exact E | ].
  split; [exact Hcar | ]. split; [rewrite Hcar; reflexivity | ].
  split; [exact Hst | ].
  unfold canMove, bind, this, ret. rewrite Hst. reflexivity.
Qed.

End BeforeTheGo.

(** ** Race sessions *)

Section RaceSessions.

Import Checkpoint.

Lemma last_default {A : Type} (l : list A) (a d d' : A) : last (a :: l) d = last (a :: l) d'.
Proof.
  revert a. induction l as [ | b l IH]; intros a; [reflexivity | ].
  change (last (b :: l) d = last (b :: l) d'). apply IH.
Qed.

Lemma last_cons {A : Type} (l : list A) (a d : A) : last (a :: l) d = last l a.
Proof.
  destruct l as [ | b l]; [reflexivity | ].
  change (last (b :: l) d = last (b :: l) a). apply last_default.
Qed.

Lemma lapsBetween_snoc (start : R) (ends : list R) (e : R) :
  lapsBetween start (ends ++ [e]) = lapsBetween start ends ++ [e - last ends start].
Proof.
  revert start. induction ends as [ | a ends IH]; intros start; [reflexivity | ].
  cbn [app lapsBetween]. rewrite IH, last_cons. reflexivity.
Qed.

Lemma lapsBetween_length (start : R) (ends : list R) :
  List.length (lapsBetween start ends) = List.length ends.
Proof.
  revert start. induction ends as [ | a ends IH]; intros start; [reflexivity | ].
  cbn [lapsBetween List.length]. rewrite IH. reflexivity.
Qed.

Lemma inOrder_snoc (from upto : nat) (readings : list nat) :
  inOrder from readings upto -> inOrder from (readings ++ [upto]) (S upto).
Proof.
  revert from. induction readings as [ | n rest IH]; intros from H; cbn [app inOrder] in *.
  - split; [exact H | lia].
  - destruct H as [H1 H2]. split; [exact H1 | apply IH; exact H2].
Qed.

Lemma inOrder_later (from upto upto' : nat) (readings : list nat) :
  inOrder from readings upto -> (upto <= upto')%nat -> inOrder from readings upto'.
Proof.
  revert from. induction readings as [ | n rest IH]; intros from H Hle; cbn [inOrder] in *.
  - lia.
  - destruct H as [H1 H2]. split; [exact H1 | apply IH; assumption].
Qed.

(** The lap [completeLap] times begins at the end of the last lap, or at the
    start of the race when it is the first. *)
Lemma lapTimeAt_endToEnd (start now : R) (w : World) (ends : list nat) :
  clock_positive (clock w) ->
  endToEnd start w ends ->
  lapTimeAt (sys w) now = now - last (map (clock w) ends) start.
Proof.
  intros Hclk [Hs [_ [_ Hlast]]]. unfold lapTimeAt. rewrite Hlast, Hs.
  destruct ends as [ | n l] using rev_ind; [reflexivity | ].
  rewrite !map_app. cbn [map]. rewrite !last_last.
  rewrite truthy_Some; [reflexivity | ]. specialize (Hclk n). lra.
Qed.

Lemma completeLap_endToEnd (start : R) (w w' : World) (ends : list nat) :
  completeLap w = Some (tt, w') ->
  clock_positive (clock w) ->
  endToEnd start w ends ->
  endToEnd start w' (ends ++ [reads w]).
Proof.
  intros H Hclk He. pose proof (lapTimeAt_endToEnd start (clock w (reads w)) w ends Hclk He) as Hlt.
  destruct He as [Hs [Ho [Hl Hlast]]].
  rewrite completeLap_eq in H. cbv zeta in H.
  assert (G : forall r, (S (reads w) <= r)%nat ->
                inOrder 1 (ends ++ [reads w]) r /\
                lapTimes (sys w) ++ [lapTimeAt (sys w) (clock w (reads w))]
                = lapsBetween start (map (clock w) (ends ++ [reads w])) /\
                Some (clock w (reads w))
                = last (map (fun n => Some (clock w n)) (ends ++ [reads w])) None).
  { intros r Hr. split; [ | split].
    - apply (inOrder_later 1 (S (reads w))); [apply inOrder_snoc; exact Ho | exact Hr].
    - rewrite map_app. cbn [map]. rewrite lapsBetween_snoc, Hl, Hlt. reflexivity.
    - rewrite map_app. cbn [map]. rewrite last_last. reflexivity. }
  destruct (Nat.leb _ _).
  - rewrite finishRace_eq in H. inv_some.
    destruct (G (S (S (reads w)))) as [G1 [G2 G3]]; [lia | ].
    split; [exact Hs | ]. split; [exact G1 | ]. split; [exact G2 | exact G3].
  - inv_some. destruct (G (S (reads w))) as [G1 [G2 G3]]; [lia | ].
    split; [exact Hs | ]. split; [exact G1 | ]. split; [exact G2 | exact G3].
Qed.

Lemma update_endToEnd (start : R) (w w' : World) (p : Vector3) (ends : list nat) :
  update p w = Some (tt, w') ->
  clock_positive (clock w) -> start <> 0 ->
  endToEnd start w ends ->
  exists ends', endToEnd start w' ends'.
Proof.
  intros H Hclk Hs0 He.
  destruct (RaceState_eqb (raceState (sys w)) racing) eqn:Hr.
  - apply RaceState_eqb_eq in Hr.
    destruct (Nat.leb (totalLaps (sys w)) (lapCount (sys w))) eqn:Hl.
    + apply Nat.leb_le in Hl. rewrite (update_race_over w p Hl) in H.
      inv_some. exists ends. exact He.
    + apply Nat.leb_gt in Hl. rewrite (update_racing w p Hr Hl) in H.
      assert (Hst : stampStart w = w).
      { destruct He as [Hs _]. unfold stampStart.
        rewrite Hs, (truthy_Some start Hs0). reflexivity. }
      rewrite Hst in H.
      destruct (nth_error _ _) as [cp | ] eqn:E; [ | discriminate].
      destruct (_ <? _); [ | inv_some; exists ends; exact He].
      rewrite (hitCheckpoint_hit w cp E) in H.
      assert (He1 : endToEnd start (afterHit w cp) ends) by exact He.
      destruct (Nat.leb _ _).
      * eexists. apply (completeLap_endToEnd start (afterHit w cp) w' ends H Hclk He1).
      * inv_some. exists ends. exact He1.
  - apply RaceState_eqb_neq in Hr. rewrite (update_not_racing w p Hr) in H.
    inv_some. exists ends. exact He.
Qed.

(** With no countdown in the queue, the timer that expires ends a flash. *)
Lemma no_tick_fires (w : World) (n : nat) (t : Timer) :
  pendingTicks w = 0%nat -> nth_error (timers w) n = Some t ->
  exists index alpha, callback t = Unflash index alpha /\
                      List.length (filter isTick (remove_nth n (timers w))) = 0%nat.
Proof.
  intros Hp E. pose proof (filter_remove_nth isTick n (timers w) t E) as Hrm.
  unfold pendingTicks in Hp. unfold isTick at 2 in Hrm.
  destruct (callback t) as [ | index alpha]; [lia | ].
  exists index, alpha. split; [reflexivity | lia].
Qed.

(** In a race, a timer that expires and a look at the race time leave
    everything but the alpha of a checkpoint and the clock as it was; the
    clock is not even read once the race is finished. *)
Lemma idle_step (o : Op) (w w' : World) :
  (forall p, o <> OpUpdate p) ->
  duringRace o = true ->
  pendingTicks w = 0%nat ->
  exec o w = Some (tt, w') ->
  exists cps r tms,
    w' = mkWorld (set_checkpoints cps (sys w)) (clock w) r tms (log w) /\
    (reads w <= r)%nat /\
    (raceState (sys w) = finished -> r = reads w) /\
    List.length (filter isTick tms) = 0%nat.
Proof.
  intros Hu Ho Hp H.
  assert (Hsame : w = mkWorld (set_checkpoints (checkpoints (sys w)) (sys w)) (clock w)
                              (reads w) (timers w) (log w)).
  { destruct w as [s c r t l]. destruct s. reflexivity. }
  destruct o as [ | p | index | | n | ]; try discriminate Ho.
  - exfalso. apply (Hu p). reflexivity.
  - cbn [exec] in H. destruct (nth_error (timers w) n) as [t | ] eqn:E.
    + rewrite (fire_some w n t E) in H.
      destruct (no_tick_fires w n t Hp E) as [index [alpha [Hc Hrm]]].
      rewrite Hc in H. cbn [runCallback] in H. unfold assign in H. inv_some.
      eexists. exists (reads w). eexists. cbn [sys clock reads timers log].
      split; [reflexivity | ]. split; [lia | ]. split; [reflexivity | exact Hrm].
    + rewrite (fire_none w n E) in H. inv_some.
      exists (checkpoints (sys w')), (reads w'), (timers w').
      split; [exact Hsame | ]. split; [lia | ]. split; [reflexivity | exact Hp].
  - cbn [exec] in H. unfold bind at 1 in H.
    unfold getTotalTime, bind, this, ret, performance_now in H.
    destruct (negb _).
    + inv_some. exists (checkpoints (sys w')), (reads w'), (timers w').
      split; [exact Hsame | ]. split; [lia | ]. split; [reflexivity | exact Hp].
    + destruct (RaceState_eqb (raceState (sys w)) finished) eqn:Hf.
      * inv_some. exists (checkpoints (sys w')), (reads w'), (timers w').
        split; [exact Hsame | ]. split; [lia | ]. split; [reflexivity | exact Hp].
      * inv_some. exists (checkpoints (sys w)), (S (reads w)), (timers w).
        cbn [sys clock reads timers log].
        split; [destruct w as [s c r t l]; destruct s; reflexivity | ].
        split; [lia | ]. split; [ | exact Hp].
        intros Hfin. rewrite Hfin in Hf. discriminate.
Qed.

Lemma update_pendingTicks (w w' : World) (p : Vector3) :
  update p w = Some (tt, w') -> pendingTicks w' = pendingTicks w.
Proof.
  intros H. pose proof (update_chains w w' p H) as Hc.
  pose proof (update_goCount w w' p H) as Hg. unfold chains in Hc. lia.
Qed.

(** One step of a race keeps the laps timed end to end. *)
Lemma race_step_endToEnd (start : R) (o : Op) (w w' : World) (ends : list nat) :
  duringRace o = true ->
  exec o w = Some (tt, w') ->
  clock_positive (clock w) -> start <> 0 ->
  pendingTicks w = 0%nat ->
  endToEnd start w ends ->
  clock w' = clock w /\ pendingTicks w' = 0%nat /\ exists ends', endToEnd start w' ends'.
Proof.
  intros Ho H Hclk Hs0 Hp He.
  assert (Hc : clock w' = clock w).
  { destruct o as [ | p | index | | n | ]; try discriminate Ho.
    - cbn [exec] in H.
      destruct (RaceState_eqb (raceState (sys w)) racing) eqn:Hr.
      + apply RaceState_eqb_eq in Hr.
        destruct (Nat.leb (totalLaps (sys w)) (lapCount (sys w))) eqn:Hl.
        * apply Nat.leb_le in Hl. rewrite (update_race_over w p Hl) in H. inv_some. reflexivity.
        * apply Nat.leb_gt in Hl. rewrite (update_racing w p Hr Hl) in H.
          assert (Hst : stampStart w = w).
          { destruct He as [Hs _]. unfold stampStart.
            rewrite Hs, (truthy_Some start Hs0). reflexivity. }
          rewrite Hst in H.
          destruct (nth_error _ _) as [cp | ] eqn:E; [ | discriminate].
          destruct (_ <? _); [ | inv_some; reflexivity].
          rewrite (hitCheckpoint_hit w cp E) in H.
          destruct (Nat.leb _ _).
          -- apply completeLap_clock in H. exact H.
          -- inv_some. reflexivity.
      + apply RaceState_eqb_neq in Hr. rewrite (update_not_racing w p Hr) in H.
        inv_some. reflexivity.
    - destruct (idle_step (OpFire n) w w') as [cps [r [tms [-> _]]]];
        [intros p; discriminate | reflexivity | exact Hp | exact H | reflexivity].
    - destruct (idle_step OpGetTotalTime w w') as [cps [r [tms [-> _]]]];
        [intros p; discriminate | reflexivity | exact Hp | exact H | reflexivity]. }
  split; [exact Hc | ].
  destruct o as [ | p | index | | n | ]; try discriminate Ho.
  - cbn [exec] in H. split; [rewrite (update_pendingTicks w w' p H); exact Hp | ].
    apply (update_endToEnd start w w' p ends H Hclk Hs0 He).
  - destruct (idle_step (OpFire n) w w') as [cps [r [tms [-> [Hr [_ Ht]]]]]];
      [intros p; discriminate | reflexivity | exact Hp | exact H | ].
    split; [exact Ht | ]. exists ends. destruct He as [Hs [Hord [Hl Hlast]]].
    split; [exact Hs | ]. split; [apply (inOrder_later 1 (reads w)); assumption | ].
    split; assumption.
  - destruct (idle_step OpGetTotalTime w w') as [cps [r [tms [-> [Hr [_ Ht]]]]]];
      [intros p; discriminate | reflexivity | exact Hp | exact H | ].
    split; [exact Ht | ]. exists ends. destruct He as [Hs [Hord [Hl Hlast]]].
    split; [exact Hs | ]. split; [apply (inOrder_later 1 (reads w)); assumption | ].
    split; assumption.
Qed.

Lemma race_endToEnd (start : R) (ops : list Op) (w w' : World) (ends : list nat) :
  forallb duringRace ops = true ->
  execAll ops w = Some (tt, w') ->
  clock_positive (clock w) -> start <> 0 ->
  pendingTicks w = 0%nat ->
  endToEnd start w ends ->
  clock w' = clock w /\ pendingTicks w' = 0%nat /\ exists ends', endToEnd start w' ends'.
Proof.
  revert w ends. induction ops as [ | o ops IH]; intros w ends Hops H Hclk Hs0 Hp He.
  - rewrite execAll_nil in H. inv_some. split; [reflexivity | ]. split; [exact Hp | ].
    exists ends. exact He.
  - cbn [forallb] in Hops. apply andb_prop in Hops. destruct Hops as [Ho Hops].
    rewrite execAll_cons in H. destruct (exec o w) as [[[] w1] | ] eqn:E; [ | discriminate].
    destruct (race_step_endToEnd start o w w1 ends Ho E Hclk Hs0 Hp He)
      as [Hc1 [Hp1 [ends1 He1]]].
    destruct (IH w1 ends1 Hops H) as [Hc [Hp' He']]; try assumption.
    + rewrite Hc1. exact Hclk.
    + split; [congruence | ]. split; assumption.
Qed.

(** One step of a race session: [onRaceFinish] is called when the last lap
    is done, and not again. *)
Lemma race_step_session (start : R) (o : Op) (w w' : World) :
  duringRace o = true ->
  exec o w = Some (tt, w') ->
  raceStartTime (sys w) = Some start -> start <> 0 ->
  pendingTicks w = 0%nat ->
  session w -> finishStamp start w ->
  session w' /\ finishStamp start w'.
Proof.
  intros Ho H Hs Hs0 Hp Hse Hfs.
  destruct o as [ | p | index | | n | ]; try discriminate Ho.
  - cbn [exec] in H. split; [apply (update_session w w' p H Hse) | ].
    destruct (update_finishStamp start w w' p H Hse Hs Hs0 Hfs) as [Hfs' _]. exact Hfs'.
  - destruct (idle_step (OpFire n) w w') as [cps [r [tms [-> [Hr [Hfin Ht]]]]]];
      [intros p; discriminate | reflexivity | exact Hp | exact H | ].
    split; [exact Hse | ].
    intros Hf. cbn in Hf. specialize (Hfin Hf). subst r.
    destruct (Hfs Hf) as [k [Hk [Hlast Hlog]]]. exists k. repeat split; assumption.
  - destruct (idle_step OpGetTotalTime w w') as [cps [r [tms [-> [Hr [Hfin Ht]]]]]];
      [intros p; discriminate | reflexivity | exact Hp | exact H | ].
    split; [exact Hse | ].
    intros Hf. cbn in Hf. specialize (Hfin Hf). subst r.
    destruct (Hfs Hf) as [k [Hk [Hlast Hlog]]]. exists k. repeat split; assumption.
Qed.

Lemma race_session (start : R) (ops : list Op) (w w' : World) (ends : list nat) :
  forallb duringRace ops = true ->
  execAll ops w = Some (tt, w') ->
  clock_positive (clock w) -> start <> 0 ->
  pendingTicks w = 0%nat ->
  endToEnd start w ends ->
  session w -> finishStamp start w ->
  session w' /\ finishStamp start w'.
Proof.
  revert w ends. induction ops as [ | o ops IH]; intros w ends Hops H Hclk Hs0 Hp He Hse Hfs.
  - rewrite execAll_nil in H. inv_some. split; assumption.
  - cbn [forallb] in Hops. apply andb_prop in Hops. destruct Hops as [Ho Hops].
    rewrite execAll_cons in H. destruct (exec o w) as [[[] w1] | ] eqn:E; [ | discriminate].
    destruct (race_step_endToEnd start o w w1 ends Ho E Hclk Hs0 Hp He)
      as [Hc1 [Hp1 [ends1 He1]]].
    destruct (race_step_session start o w w1 Ho E) as [Hse1 Hfs1]; try assumption.
    { destruct He as [Hs _]. exact Hs. }
    apply (IH w1 ends1 Hops H); try assumption. rewrite Hc1. exact Hclk.
Qed.

(** The tracker when the first countdown has said GO. *)
Lemma go_endToEnd (trackDefinition : TrackDefinition) (onLap onFinish : bool) (clk : nat -> R) :
  let w0 := mkWorld
              (set_raceStartTime (Some (clk 0%nat))
                 (set_raceState racing
                    (set_countdownValue 0%Z (constructor trackDefinition onLap onFinish))))
              clk 1 []
              [CountdownTick 3; CountdownTick 2; CountdownTick 1; CountdownGo] in
  endToEnd (clk 0%nat) w0 [] /\ pendingTicks w0 = 0%nat /\
  (onFinish = true -> session w0) /\ finishStamp (clk 0%nat) w0.
Proof.
  intros w0. split; [ | split; [reflexivity | split]].
  - split; [reflexivity | ]. split; [cbn; lia | ]. split; reflexivity.
  - intros ->. split; [reflexivity | left]. repeat split. cbn. lia.
  - intros Hf. discriminate Hf.
Qed.

(** On a clock that advances from one reading to the next, every lap takes
    time. *)
Lemma laps_take_time (clk : nat -> R) (k from upto : nat) (ends : list nat) :
  (forall m n, (m < n)%nat -> clk m < clk n) ->
  (k < from)%nat ->
  inOrder from ends upto ->
  Forall (fun t => 0 < t) (lapsBetween (clk k) (map clk ends)).
Proof.
  intros Hadv. revert k from. induction ends as [ | n rest IH]; intros k from Hk Ho.
  - constructor.
  - cbn [inOrder] in Ho. destruct Ho as [Hn Ho]. cbn [map lapsBetween]. constructor.
    + assert (clk k < clk n) by (apply Hadv; lia). lra.
    + apply (IH n (S n)); [lia | exact Ho].
Qed.

Lemma run_from_go (trackDefinition : TrackDefinition) (onLap onFinish : bool)
      (clk : nat -> R) (ops : list Op) (w : World) :
  clock_positive clk ->
  forallb duringRace ops = true ->
  execAll (countdownToGo ++ ops) (newWorld trackDefinition onLap onFinish clk) = Some (tt, w) ->
  clock w = clk /\
  (exists ends, endToEnd (clk 0%nat) w ends) /\
  (onFinish = true -> session w /\ finishStamp (clk 0%nat) w).
Proof.
  intros Hclk Hops H. rewrite execAll_app, first_countdown in H.
  pose proof (Hclk 0%nat) as H0.
  destruct (go_endToEnd trackDefinition onLap onFinish clk) as [He0 [Hp0 [Hse0 Hfs0]]].
  cbv zeta in He0, Hp0, Hse0, Hfs0.
  set (w0 := mkWorld _ _ _ _ _) in *.
  assert (Hs0 : clk 0%nat <> 0) by lra.
  destruct (race_endToEnd (clk 0%nat) ops w0 w [] Hops H Hclk Hs0 Hp0 He0) as [Hc [_ He]].
  split; [exact Hc | ]. split; [exact He | ].
  intros Hf. apply (race_session (clk 0%nat) ops w0 w [] Hops H Hclk Hs0 Hp0 He0);
    [apply Hse0; exact Hf | exact Hfs0].
Qed.

(** C4. A race session: a tracker built with an [onRaceFinish] callback,
    from its first countdown on, through any calls of [update] and
    [getRaceTime] and any timers that expire, on a clock that is positive.
    The calls return.  As long as [lapCount] is below [totalLaps] the race
    is on and [onRaceFinish] has not been called; once [lapCount] is
    [totalLaps] the race is finished and [onRaceFinish] has been called
    exactly once, with [totalTime = now - raceStartTime], [now] being the
    reading of the clock that [finishRace] made (the last one made), and
    with [bestLapTime].  That best lap is the least of the lap times
    recorded whenever none of them is 0 ms, and so on every clock that
    advances from one reading to the next. *)
Theorem race_completion (trackDefinition : TrackDefinition) (onLap : bool)
        (clk : nat -> R) (ops : list Op) :
  clock_positive clk ->
  forallb duringRace ops = true ->
  exists w,
    execAll (countdownToGo ++ ops) (newWorld trackDefinition onLap true clk) = Some (tt, w) /\
    raceStartTime (sys w) = Some (clk 0%nat) /\
    (((lapCount (sys w) < totalLaps (sys w))%nat /\
      raceState (sys w) = racing /\
      filter isRaceFinish (log w) = [])
     \/
     (lapCount (sys w) = totalLaps (sys w) /\
      raceState (sys w) = finished /\
      (exists n,
         reads w = S n /\
         filter isRaceFinish (log w)
         = [RaceFinish (clk n - clk 0%nat) (bestLapTime (sys w))]) /\
      (Forall (fun t => t <> 0) (lapTimes (sys w)) ->
       bestLapTime (sys w) = minimum (lapTimes (sys w))) /\
      ((forall m n, (m < n)%nat -> clk m < clk n) ->
       bestLapTime (sys w) = minimum (lapTimes (sys w))))).
Proof.
  intros Hclk Hops.
  pose proof (Reachable_new trackDefinition onLap true clk) as Hnew.
  destruct (execAll_returns (countdownToGo ++ ops) _ Hnew) as [w E].
  exists w. split; [exact E | ].
  pose proof (reachable_execAll _ _ w Hnew E) as Hr.
  destruct (run_from_go trackDefinition onLap true clk ops w Hclk Hops E)
    as [Hc [[ends He] Hfin]].
  destruct (Hfin eq_refl) as [Hse Hfs].
  pose proof He as [Hs [Hord [Hl _]]].
  split; [exact Hs | ].
  destruct Hse as [_ [[Hst [Hlaps Hf]] | [Hst [Hlaps Hf]]]]; [left | right].
  - split; [exact Hlaps | ]. split; [exact Hst | ].
    apply filter_none. exact Hf.
  - split; [exact Hlaps | ]. split; [exact Hst | ].
    destruct (Hfs Hst) as [n [Hreads [_ Hlog]]]. rewrite Hc in Hlog.
    split; [exists (S n); split; [exact Hreads | exact Hlog] | ].
    split; [apply (best_lap_is_minimum w Hr) | ].
    intros Hadv. apply (best_lap_is_minimum w Hr).
    rewrite Hl, Hc.
    apply Forall_impl with (P := fun t => 0 < t); [intros t Ht; lra | ].
    apply (laps_take_time clk 0 1 (reads w) ends Hadv); [lia | exact Hord].
Qed.

(** X12. The laps are timed end to end.  In a race after its first
    countdown (any calls of [update] and [getRaceTime], any timers), on a
    clock that is never 0 or less, the race began at the reading of the GO,
    the laps done ended at as many later readings of the clock, taken in
    order, each lap time is the reading that ended the lap minus the reading
    that ended the lap before (the reading of the GO for the first lap), and
    [lastLapTime] is the reading that ended the last lap. *)
Theorem laps_are_timed_end_to_end (trackDefinition : TrackDefinition)
        (onLap onFinish : bool) (clk : nat -> R) (ops : list Op) (w : World) :
  clock_positive clk ->
  forallb duringRace ops = true ->
  execAll (countdownToGo ++ ops) (newWorld trackDefinition onLap onFinish clk) = Some (tt, w) ->
  raceStartTime (sys w) = Some (clk 0%nat) /\
  exists ends,
    inOrder 1 ends (reads w) /\
    List.length ends = lapCount (sys w) /\
    lapTimes (sys w) = lapsBetween (clk 0%nat) (map clk ends) /\
    lastLapTime (sys w) = last (map (fun n => Some (clk n)) ends) None.
Proof.
  intros Hclk Hops H.
  pose proof (reachable_execAll _ _ w (Reachable_new trackDefinition onLap onFinish clk) H) as Hr.
  destruct (reachable_invariant w Hr) as [[_ [_ [Hcount _]]] _].
  destruct (run_from_go trackDefinition onLap onFinish clk ops w Hclk Hops H)
    as [Hc [[ends [Hs [Hord [Hl Hlast]]]] _]].
  rewrite Hc in Hl, Hlast.
  split; [exact Hs | ]. exists ends. split; [exact Hord | ].
  split; [ | split; assumption].
  rewrite Hcount, Hl, lapsBetween_length, length_map. reflexivity.
Qed.

(** X13. The total time of the finish is read after the last lap is: once a
    race (as above, with an [onRaceFinish] callback) is finished, the last
    lap ended at a reading [n] of the clock, [onRaceFinish] was called once,
    with the best lap and the time from [raceStartTime], the reading of the
    GO, to the next reading, [n + 1], made by [finishRace]; and from then on
    [getTotalTime] reads no clock: it answers the sum of the lap times. *)
Theorem finish_time_is_read_after_last_lap (trackDefinition : TrackDefinition)
        (onLap : bool) (clk : nat -> R) (ops : list Op) (w : World) :
  clock_positive clk ->
  forallb duringRace ops = true ->
  execAll (countdownToGo ++ ops) (newWorld trackDefinition onLap true clk) = Some (tt, w) ->
  raceState (sys w) = finished ->
  raceStartTime (sys w) = Some (clk 0%nat) /\
  exists n,
    reads w = S (S n) /\
    lastLapTime (sys w) = Some (clk n) /\
    filter isRaceFinish (log w)
    = [RaceFinish (clk (S n) - clk 0%nat) (bestLapTime (sys w))] /\
    getTotalTime w = Some (sumLaps (lapTimes (sys w)), w).
Proof.
  intros Hclk Hops H Hfin.
  destruct (run_from_go trackDefinition onLap true clk ops w Hclk Hops H)
    as [Hc [[ends [Hs _]] Hse]].
  destruct (Hse eq_refl) as [_ Hfs].
  destruct (Hfs Hfin) as [n [Hreads [Hlast Hlog]]]. rewrite Hc in Hlast, Hlog.
  split; [exact Hs | ].
  exists n. split; [exact Hreads | ]. split; [exact Hlast | ]. split; [exact Hlog | ].
  pose proof (Hclk 0%nat) as H0.
  unfold getTotalTime, bind, this, ret.
  rewrite Hs, truthy_Some by lra. rewrite Hfin. reflexivity.
Qed.

End RaceSessions.

(** ** The tracker as the game drives it *)

Section DrivenTracker.

Import Checkpoint.

Lemma driven_reachable (w : World) : Driven w -> Reachable w.
Proof.
  induction 1 as [td onLap onFinish clk | w o w' _ IH _ Hstep].
  - apply Reachable_new.
  - apply (Reachable_step w o w' IH Hstep).
Qed.

Lemma driven_execAll (ops : list Op) (w w' : World) :
  Driven w -> forallb calledByGame ops = true ->
  execAll ops w = Some (tt, w') -> Driven w'.
Proof.
  revert w. induction ops as [ | o ops IH]; intros w Hw Hops H.
  - rewrite execAll_nil in H. inv_some. exact Hw.
  - cbn [forallb] in Hops. apply andb_prop in Hops. destruct Hops as [Ho Hops].
    rewrite execAll_cons in H. destruct (exec o w) as [[[] w1] | ] eqn:E; [ | discriminate].
    apply (IH w1); [ | exact Hops | exact H]. apply (Driven_step w o w1 Hw Ho E).
Qed.

Lemma hitCheckpoint_start (w w' : World) (index : nat) :
  hitCheckpoint index w = Some (tt, w') -> raceStartTime (sys w') = raceStartTime (sys w).
Proof.
  intros H.
  destruct (Nat.eq_dec index (currentCheckpoint (sys w))) as [-> | Hne].
  - destruct (nth_error (checkpoints (sys w)) (currentCheckpoint (sys w))) as [cp | ] eqn:E.
    + rewrite (hitCheckpoint_hit w cp E) in H.
      destruct (Nat.leb _ _).
      * destruct (completeLap_fields (afterHit w cp))
          as [w1 [Hw1 [_ [_ [_ [_ [_ [_ [Hstart _]]]]]]]]].
        rewrite Hw1 in H. inv_some. exact Hstart.
      * inv_some. reflexivity.
    + rewrite (hitCheckpoint_throws w E) in H. discriminate.
  - rewrite (hitCheckpoint_miss w index Hne) in H. inv_some. reflexivity.
Qed.

(** [update] leaves a race that is on or over with its start time. *)
Lemma update_start (w w' : World) (p : Vector3) :
  update p w = Some (tt, w') ->
  (raceState (sys w) = racing \/ raceState (sys w) = finished ->
   exists t, raceStartTime (sys w) = Some t) ->
  raceState (sys w') = racing \/ raceState (sys w') = finished ->
  exists t, raceStartTime (sys w') = Some t.
Proof.
  intros H Hw Hst.
  destruct (RaceState_eqb (raceState (sys w)) racing) eqn:Hr.
  - apply RaceState_eqb_eq in Hr.
    destruct (Nat.leb (totalLaps (sys w)) (lapCount (sys w))) eqn:Hl.
    + apply Nat.leb_le in Hl. rewrite (update_race_over w p Hl) in H.
      inv_some. apply Hw. exact Hst.
    + apply Nat.leb_gt in Hl. rewrite (update_racing w p Hr Hl) in H.
      assert (Hs : exists t, raceStartTime (sys (stampStart w)) = Some t).
      { unfold stampStart. destruct (truthy _); [apply Hw; left; exact Hr | ].
        eexists. reflexivity. }
      destruct (nth_error _ _) as [cp | ]; [ | discriminate].
      destruct (_ <? _); [ | inv_some; exact Hs].
      apply hitCheckpoint_start in H. rewrite H. exact Hs.
  - apply RaceState_eqb_neq in Hr. rewrite (update_not_racing w p Hr) in H.
    inv_some. apply Hw. exact Hst.
Qed.

(** A race the game has brought under way or to its end has a start time:
    only the GO of a countdown starts a race, and it stamps the start. *)
Lemma driven_started (w : World) :
  Driven w ->
  raceState (sys w) = racing \/ raceState (sys w) = finished ->
  exists t, raceStartTime (sys w) = Some t.
Proof.
  induction 1 as [td onLap onFinish clk | w o w' _ IH Ho Hstep].
  - intros [H | H]; discriminate H.
  - destruct o as [ | p | index | | n | ]; try discriminate Ho; cbn [exec] in Hstep.
    + rewrite startCountdown_eq in Hstep. inv_some. intros [H | H]; discriminate H.
    + apply (update_start w w' p Hstep IH).
    + rewrite reset_eq in Hstep. inv_some. intros [H | H]; discriminate H.
    + destruct (nth_error (timers w) n) as [t | ] eqn:E.
      * rewrite (fire_some w n t E) in Hstep.
        destruct (callback t) as [ | index alpha]; cbn [runCallback] in Hstep.
        -- set (w0 := mkWorld _ _ _ _ _) in Hstep.
           destruct (Z_lt_le_dec 0 (countdownValue (sys w0))) as [Hc | Hc].
           ++ rewrite (tick_counting w0 Hc) in Hstep. inv_some. exact IH.
           ++ rewrite (tick_go w0 Hc) in Hstep. inv_some. intros _. eexists. reflexivity.
        -- unfold assign in Hstep. inv_some. exact IH.
      * rewrite (fire_none w n E) in Hstep. inv_some. exact IH.
    + destruct (exec_getTotalTime w w' Hstep) as [-> | ->]; exact IH.
Qed.

Lemma raceClock_ok : clock_positive raceClock.
Proof.
  intros n. unfold raceClock.
  do 6 (destruct n as [ | n]; [cbn [nth]; lra | ]). destruct n; cbn [nth]; lra.
Qed.

(** The race of [threeLaps] on [raceClock]: the state after the first lap,
    and at the end. *)
Lemma sample_session :
  exists w1 w,
    execAll (countdownToGo ++ lapByUpdates) raceWorld = Some (tt, w1) /\
    execAll lapsTwoAndThree w1 = Some (tt, w) /\
    (lapTimes (sys w1) = [20000] /\ lapCount (sys w1) = 1%nat /\
     bestLapTime (sys w1) = Some 20000) /\
    (lapTimes (sys w) = [20000; 18000; 21000] /\
     raceState (sys w) = finished /\
     clock w = raceClock /\ reads w = 7%nat /\
     raceStartTime (sys w) = Some 1000 /\
     log w = [CountdownTick 3; CountdownTick 2; CountdownTick 1; CountdownGo;
              LapComplete 1 20000; LapComplete 2 18000; LapComplete 3 21000;
              RaceFinish 59001 (Some 18000)] /\
     lapCount (sys w) = 3%nat).
Proof.
  eexists. eexists. split; [ | split].
  - unfold countdownToGo, lapByUpdates, onCheckpoint0, onCheckpoint1, onCheckpoint2,
      onCheckpoint3, raceWorld.
    cbn [app]. js_run. reflexivity.
  - unfold lapsTwoAndThree, lapByUpdates, onCheckpoint0, onCheckpoint1, onCheckpoint2,
      onCheckpoint3.
    cbn [app]. js_run. reflexivity.
  - cbn [sys lapTimes lapCount bestLapTime raceState clock reads raceStartTime log].
    replace (21000 - 1000) with 20000 by lra.
    replace (39000 - 21000) with 18000 by lra.
    replace (60000 - 39000) with 21000 by lra.
    replace (60001 - 1000) with 59001 by lra.
    repeat split.
Qed.

Lemma threeLaps_run (w1 w : World) :
  execAll (countdownToGo ++ lapByUpdates) raceWorld = Some (tt, w1) ->
  execAll lapsTwoAndThree w1 = Some (tt, w) ->
  execAll (countdownToGo ++ threeLaps) raceWorld = Some (tt, w).
Proof.
  intros H1 H2. unfold threeLaps. fold lapsTwoAndThree.
  rewrite app_assoc, execAll_app, H1. exact H2.
Qed.

(** The total time of a race that is on or over, in the states a game
    brings its tracker to. *)
Lemma driven_total_time (w : World) :
  Driven w ->
  clock_positive (clock w) ->
  (raceState (sys w) = racing ->
   exists start,
     raceStartTime (sys w) = Some start /\
     getTotalTime w
     = Some (clock w (reads w) - start,
             mkWorld (sys w) (clock w) (S (reads w)) (timers w) (log w))) /\
  (raceState (sys w) = finished ->
   getTotalTime w = Some (fold_left (fun a b => a + b) (lapTimes (sys w)) 0, w)).
Proof.
  intros Hd Hclk.
  destruct (reachable_invariant w (driven_reachable w Hd)) as [_ Hst]. specialize (Hst Hclk).
  assert (Hset : raceState (sys w) = racing \/ raceState (sys w) = finished ->
                 exists start, raceStartTime (sys w) = Some start /\
                               truthy (raceStartTime (sys w)) = true).
  { intros H. destruct (driven_started w Hd H) as [start Hs]. exists start.
    split; [exact Hs | ]. rewrite Hs. apply truthy_Some.
    destruct Hst as [_ [Hpos _]]. specialize (Hpos start Hs). lra. }
  split.
  - intros Hrace. destruct (Hset (or_introl Hrace)) as [start [Hs Ht]].
    exists start. split; [exact Hs | ].
    rewrite getTotalTime_running; [ | exact Ht | rewrite Hrace; discriminate].
    rewrite Hs. reflexivity.
  - intros Hfin. destruct (Hset (or_intror Hfin)) as [start [Hs Ht]].
    apply getTotalTime_finished; assumption.
Qed.

(** C9. In every state the game brings its tracker to (by [startCountdown],
    [update], [reset], [getRaceTime] and the timers; [update] alone calls
    [hitCheckpoint]), with a clock that is positive: whenever [raceState]
    is racing, [raceStartTime] is set and [getTotalTime] reads the clock and
    returns [now - raceStartTime]; whenever [raceState] is finished,
    [getTotalTime] returns the sum of [lapTimes] and reads no clock.  The
    two results differ: there is a finished race whose lap times do not add
    up to the clock minus the start time. *)
Theorem total_time_by_race_state (w : World) :
  Driven w ->
  clock_positive (clock w) ->
  (raceState (sys w) = racing ->
   exists start,
     raceStartTime (sys w) = Some start /\
     getTotalTime w
     = Some (clock w (reads w) - start,
             mkWorld (sys w) (clock w) (S (reads w)) (timers w) (log w))) /\
  (raceState (sys w) = finished ->
   getTotalTime w = Some (fold_left (fun a b => a + b) (lapTimes (sys w)) 0, w)) /\
  (exists w1 start,
     Driven w1 /\ clock_positive (clock w1) /\
     raceState (sys w1) = finished /\
     raceStartTime (sys w1) = Some start /\
     fold_left (fun a b => a + b) (lapTimes (sys w1)) 0 <> clock w1 (reads w1) - start).
Proof.
  intros Hd Hclk.
  destruct (driven_total_time w Hd Hclk) as [Hracing Hfinished].
  split; [exact Hracing | ]. split; [exact Hfinished | ].
  destruct sample_session as [w1 [w2 [H1 [H2 [_ [Hl [Hfin [Hc [Hr [Hs _]]]]]]]]]].
  exists w2, 1000.
  split.
  { apply (driven_execAll (countdownToGo ++ threeLaps) raceWorld w2).
    - apply Driven_new.
    - reflexivity.
    - apply (threeLaps_run w1 w2 H1 H2). }
  split; [rewrite Hc; exact raceClock_ok | ].
  split; [exact Hfin | ]. split; [exact Hs | ].
  rewrite Hl, Hc, Hr. cbn [fold_left raceClock nth]. lra.
Qed.

(** *** The tracker of a running game *)

Lemma execAll_clock (ops : list Op) (w w' : World) :
  Reachable w -> execAll ops w = Some (tt, w') -> clock w' = clock w.
Proof.
  revert w. induction ops as [ | o ops IH]; intros w Hr H.
  - rewrite execAll_nil in H. inv_some. reflexivity.
  - rewrite execAll_cons in H. destruct (exec o w) as [[[] w1] | ] eqn:E; [ | discriminate].
    destruct (exec_invariant o w w1 E (reachable_invariant w Hr)) as [_ Hc].
    rewrite (IH w1 (Reachable_step w o w1 Hr E) H). exact Hc.
Qed.

(** What the events of a game do to its tracker is a run of calls the game
    makes and of timers: [update] and [getRaceTime] each frame, [reset] and
    [startCountdown] at a restart. *)
Lemma run_drives_the_tracker (events : list Game.GameEvent) (g : Game.Game) :
  inPlay g ->
  exists g' ops,
    Game.run events g = Some (tt, g') /\
    forallb calledByGame ops = true /\
    execAll ops (Game.checkpoints g) = Some (tt, Game.checkpoints g').
Proof.
  revert g. induction events as [ | e events IH]; intros g Hin; cbn [Game.run].
  - exists g, []. split; [reflexivity | ]. split; [reflexivity | apply execAll_nil].
  - destruct e as [deltaTime | n | k]; cbn [Game.step].
    + destruct (update_eq deltaTime g Hin) as [g1 [w1 [E [Hrun [_ [Hin1 Hrest]]]]]].
      rewrite E. destruct (IH g1 Hin1) as [g' [ops [E' [Hops Hrun']]]].
      set (frame := [OpUpdate (mesh_position (carAfter deltaTime g)); OpGetTotalTime]) in *.
      destruct (_ || _).
      * destruct Hrest as [Hrestart _].
        exists g', (frame ++ restartOps ++ ops). split; [exact E' | ].
        split; [rewrite !forallb_app, Hops; reflexivity | ].
        rewrite execAll_app, Hrun, execAll_app, Hrestart. exact Hrun'.
      * destruct Hrest as [Hw1 _]. rewrite Hw1 in Hrun'.
        exists g', (frame ++ ops). split; [exact E' | ].
        split; [rewrite forallb_app, Hops; reflexivity | ].
        rewrite execAll_app, Hrun. exact Hrun'.
    + destruct (fire_eq n g Hin) as [g1 [E [Hf [_ [_ Hin1]]]]].
      cbn [Game.step] in E. rewrite E.
      destruct (IH g1 Hin1) as [g' [ops [E' [Hops Hrun']]]].
      exists g', (OpFire n :: ops). split; [exact E' | ].
      split; [cbn [forallb calledByGame]; exact Hops | ].
      rewrite execAll_cons, Hf. exact Hrun'.
    + apply (IH (Game.mkGame (Game.car g) (Game.track g) (Game.checkpoints g)
                             (Game.keyEvent k (Game.inputManager g)) (Game.hud g))).
      exact Hin.
Qed.

(** Every state of the tracker of a running game is one the game drives it
    to. *)
Lemma game_drives_the_tracker (clk : nat -> R) (events : list Game.GameEvent) :
  exists g ops,
    Game.play clk events = Some (tt, g) /\
    forallb calledByGame ops = true /\
    execAll ops (newWorld ovalTrack true true clk) = Some (tt, Game.checkpoints g).
Proof.
  destruct (init_eq clk) as [g0 [E0 [W0 [_ [_ Hin0]]]]].
  destruct (run_drives_the_tracker events g0 Hin0) as [g [ops [E [Hops Hrun]]]].
  exists g, (OpStartCountdown :: ops). unfold Game.play. rewrite E0.
  split; [exact E | ]. split; [exact Hops | ].
  rewrite execAll_cons. cbn [exec]. rewrite W0. exact Hrun.
Qed.

(** The countdown of a game: [init] and the four timers. *)
Lemma countdown_played (clk : nat -> R) :
  exists g,
    Game.play clk (repeat (Game.TimerFires 0) 4) = Some (tt, g) /\
    execAll countdownToGo (newWorld ovalTrack true true clk) = Some (tt, Game.checkpoints g).
Proof.
  destruct (countdown_in_game clk) as [g0 [g [E0 [E [W _]]]]].
  exists g. split; [unfold Game.play; rewrite E0; exact E | exact W].
Qed.

(** X26. The race time of a running game.  After any events of a game
    whose clock is positive (frames, timers of the tracker, keys: restarts
    included), the tracker is in a state the calls of the game and the
    timers lead to; when it is racing [raceStartTime] is set and
    [getRaceTime], which [Game.update] passes to the HUD, reads the clock and
    returns [now - raceStartTime]; when it is finished [getRaceTime] reads no
    clock and returns the sum of the lap times. *)
Theorem race_time_of_a_running_game (clk : nat -> R) (events : list Game.GameEvent) :
  clock_positive clk ->
  exists g,
    Game.play clk events = Some (tt, g) /\
    Driven (Game.checkpoints g) /\
    clock (Game.checkpoints g) = clk /\
    (raceState (sys (Game.checkpoints g)) = racing ->
     exists start,
       raceStartTime (sys (Game.checkpoints g)) = Some start /\
       getRaceTime (Game.checkpoints g)
       = Some (clk (reads (Game.checkpoints g)) - start,
               mkWorld (sys (Game.checkpoints g)) clk (S (reads (Game.checkpoints g)))
                       (timers (Game.checkpoints g)) (log (Game.checkpoints g)))) /\
    (raceState (sys (Game.checkpoints g)) = finished ->
     getRaceTime (Game.checkpoints g)
     = Some (sumLaps (lapTimes (sys (Game.checkpoints g))), Game.checkpoints g)).
Proof.
  intros Hclk.
  destruct (game_drives_the_tracker clk events) as [g [ops [E [Hops Hrun]]]].
  exists g. split; [exact E | ].
  pose proof (execAll_clock ops _ _ (Reachable_new ovalTrack true true clk) Hrun) as Hc.
  cbn [newWorld clock] in Hc.
  assert (Hd : Driven (Game.checkpoints g))
    by (apply (driven_execAll ops _ _ (Driven_new ovalTrack true true clk) Hops Hrun)).
  split; [exact Hd | ]. split; [exact Hc | ].
  assert (Hpos : clock_positive (clock (Game.checkpoints g))) by (rewrite Hc; exact Hclk).
  destruct (driven_total_time (Game.checkpoints g) Hd Hpos) as [Hracing Hfinished].
  rewrite Hc in Hracing. unfold getRaceTime, sumLaps. split; assumption.
Qed.

End DrivenTracker.

(** ** Instances *)

Section Instances.

Import Checkpoint.
Import String.

Lemma coasting_slows_down_witness :
  0 <= 1 / 10 /\
  Rabs (currentSpeed (CarModel.update carAtWall noInput (1 / 10)))
  <= Rabs (currentSpeed carAtWall).
Proof.
  assert (H : 0 <= 1 / 10) by lra.
  split; [exact H | ].
  apply (coasting_slows_down carAtWall noInput (1 / 10) H eq_refl eq_refl).
Defined.

Lemma start_of_oval_on_track :
  CarModel.innerRadius <= planarDistance (mkVector3 35 0 0) <= CarModel.outerRadius.
Proof.
  unfold planarDistance, CarModel.innerRadius, CarModel.outerRadius. cbn [vx vz].
  replace (35 * 35 + 0 * 0) with (35 * 35) by ring.
  rewrite sqrt_square; lra.
Qed.

Lemma car_rests_where_reset_puts_it_witness :
  let c' := CarModel.run (CarModel.reset carAtWall (mkVector3 35 0 0) 0)
                         [(noInput, 1 / 60); (steerLeft, 1 / 60)] in
  currentSpeed c' = 0 /\ rotation c' = 0 /\
  mesh_position c' = mkVector3 35 (CAR_CONFIG.height / 2 + 1 / 10) 0.
Proof.
  apply (car_rests_where_reset_puts_it carAtWall (mkVector3 35 0 0) 0
           [(noInput, 1 / 60); (steerLeft, 1 / 60)] start_of_oval_on_track).
  repeat constructor.
Defined.

Lemma restart_with_no_timer_pending_witness :
  timers gridWorld = [] /\
  exists w',
    execAll (OpReset :: countdownToGo) gridWorld = Some (tt, w') /\
    raceState (sys w') = racing /\
    lapTimes (sys w') = [] /\
    timers w' = [].
Proof.
  split; [reflexivity | ].
  destruct (restart_with_no_timer_pending gridWorld eq_refl) as [Hrun _].
  eexists. split; [exact Hrun | ]. repeat split.
Defined.

Lemma checkpoint_flash_is_undone_witness :
  Reachable gridWorld /\
  timers gridWorld = [] /\
  exists w1 w2,
    hitCheckpoint (currentCheckpoint (sys gridWorld)) gridWorld = Some (tt, w1) /\
    fire 0 w1 = Some (tt, w2) /\
    checkpoints (sys w2) = checkpoints (sys gridWorld).
Proof.
  split; [exact gridWorld_reachable | ]. split; [reflexivity | ].
  destruct (checkpoint_flash_is_undone gridWorld gridWorld_reachable eq_refl)
    as [cp [w1 [w2 [lit [_ [H1 [_ [_ [_ [H2 [H3 _]]]]]]]]]]].
  exists w1, w2. repeat split; assumption.
Defined.

Lemma gates_span_the_track_witness :
  exists cp,
    nth_error (createCheckpoints ovalTrack) 1 = Some cp /\
    td_innerRadius ovalTrack <= 30 <= td_outerRadius ovalTrack /\
    inZone (mkVector3 (cos (cp_angle cp) * 30) (1 / 2) (sin (cp_angle cp) * 30)) cp.
Proof.
  eexists. split; [reflexivity | ].
  assert (H : td_innerRadius ovalTrack <= 30 <= td_outerRadius ovalTrack)
    by (cbn; lra).
  split; [exact H | ].
  apply (gates_span_the_track ovalTrack 1 _ 30 (1 / 2) eq_refl H).
Defined.

Lemma oval_zonesApart : zonesApart ovalTrack.
Proof. unfold zonesApart. cbn. split; lra. Qed.

Lemma parked_car_passes_one_gate_at_most_witness :
  zonesApart ovalTrack /\
  Reachable gridWorld /\
  exists w',
    execAll (repeat (OpUpdate onCheckpoint0) 5) gridWorld = Some (tt, w') /\
    (checkpointsPassed w' <= checkpointsPassed gridWorld + 1)%nat.
Proof.
  split; [exact oval_zonesApart | ]. split; [exact gridWorld_reachable | ].
  destruct (parked_car_passes_one_gate_at_most ovalTrack oval_zonesApart onCheckpoint0 5
              gridWorld gridWorld_reachable eq_refl) as [w' [Hrun [[_ Hle] _]]].
  exists w'. split; [exact Hrun | exact Hle].
Defined.

Lemma near_the_start_line :
  Vector3Ops.Distance (mkVector3 35 0 3) (Track.getStartPosition ovalTrack)
  < (td_outerRadius ovalTrack - td_innerRadius ovalTrack) / 2 + 2.
Proof.
  unfold Vector3Ops.Distance, Track.getStartPosition. cbn.
  apply sqrt_lt_bound; lra.
Qed.

Lemma car_on_the_grid_takes_gate_zero_witness :
  exists w',
    execAll (countdownToGo ++ [OpUpdate (mkVector3 35 (1 / 2) 3)]) freshWorld = Some (tt, w') /\
    currentCheckpoint (sys w') = 1%nat.
Proof.
  destruct (car_on_the_grid_takes_gate_zero ovalTrack true true sampleClock
              (mkVector3 35 (1 / 2) 3) near_the_start_line) as [w' [Hrun [Hcur _]]].
  exists w'. split; [exact Hrun | exact Hcur].
Defined.

Lemma formatTime_reads_back_witness :
  0 <= 83456789 / 1000 /\
  TimeText.readTime (CheckpointText.formatTime (83456789 / 1000))
  = Some (Zfloor (83456789 / 1000)).
Proof.
  assert (H : 0 <= 83456789 / 1000) by lra.
  split; [exact H | ].
  apply (formatTime_reads_back (83456789 / 1000) H).
Defined.

Lemma first_racing_frame_takes_gate_zero_witness :
  heldAfter (InputManager.b_reset InputManager.DEFAULT_BINDINGS)
            [KeyDown "KeyW"; KeyDown "KeyR"; KeyUp "KeyR"] = false /\
  0 <= 16 <= 500 /\
  exists g,
    Game.play sampleClock
              (repeat (Game.TimerFires 0) 4
               ++ map Game.Key [KeyDown "KeyW"; KeyDown "KeyR"; KeyUp "KeyR"]
               ++ [Game.Frame 16]) = Some (tt, g) /\
    currentCheckpoint (sys (Game.checkpoints g)) = 1%nat.
Proof.
  assert (H : 0 <= 16 <= 500) by lra.
  split; [reflexivity | ]. split; [exact H | ].
  destruct (first_racing_frame_takes_gate_zero sampleClock
              [KeyDown "KeyW"; KeyDown "KeyR"; KeyUp "KeyR"] 16 eq_refl H)
    as [g [Hrun [Hcur _]]].
  exists g. split; [exact Hrun | exact Hcur].
Defined.

Lemma car_waits_for_the_go_witness :
  exists g,
    Game.play sampleClock
              [Game.Key (KeyDown "KeyW"); Game.Frame 16; Game.Key (KeyDown "KeyR");
               Game.Frame 16; Game.Frame 16] = Some (tt, g) /\
    CarModel.getSpeed (Game.car g) = 0 /\
    raceState (sys (Game.checkpoints g)) = countdown.
Proof.
  destruct (car_waits_for_the_go sampleClock
              [Game.Key (KeyDown "KeyW"); Game.Frame 16; Game.Key (KeyDown "KeyR");
               Game.Frame 16; Game.Frame 16] eq_refl) as [g [Hrun [_ [Hspeed [Hst _]]]]].
  exists g. repeat split; assumption.
Defined.

Lemma race_completion_witness :
  clock_positive raceClock /\
  forallb duringRace threeLaps = true /\
  exists w,
    execAll (countdownToGo ++ threeLaps) raceWorld = Some (tt, w) /\
    lapCount (sys w) = totalLaps (sys w) /\
    raceState (sys w) = finished /\
    lapTimes (sys w) = [20000; 18000; 21000] /\
    filter isRaceFinish (log w)
    = [RaceFinish (raceClock 6 - raceClock 0) (bestLapTime (sys w))] /\
    raceClock 6 - raceClock 0 = 59001 /\
    bestLapTime (sys w) = minimum (lapTimes (sys w)) /\
    minimum (lapTimes (sys w)) = Some 18000.
Proof.
  split; [exact raceClock_ok | ]. split; [reflexivity | ].
  destruct sample_session as [w1 [w0 [H1 [H2 [_ [Hl [Hfin [_ [Hr _]]]]]]]]].
  pose proof (threeLaps_run w1 w0 H1 H2) as Hrun0.
  destruct (race_completion ovalTrack true raceClock threeLaps raceClock_ok eq_refl)
    as [w [Hrun [_ Hcases]]].
  unfold raceWorld in Hrun0. rewrite Hrun0 in Hrun. injection Hrun as <-.
  exists w0. split; [exact Hrun0 | ].
  destruct Hcases as [[_ [Hst _]] | [Hlaps [Hst [[n [Hreads Hlog]] [Hbest _]]]]].
  - rewrite Hfin in Hst. discriminate Hst.
  - rewrite Hr in Hreads. injection Hreads as <-.
    split; [exact Hlaps | ]. split; [exact Hst | ]. split; [exact Hl | ].
    split; [exact Hlog | ].
    split; [unfold raceClock; cbn [nth]; lra | ].
    split; [apply Hbest; rewrite Hl; repeat constructor; lra | ].
    rewrite Hl. cbn [minimum]. f_equal. unfold Rmin.
    repeat destruct (Rle_dec _ _); lra.
Defined.

Lemma total_time_by_race_state_witness :
  (Driven gridWorld /\ clock_positive (clock gridWorld) /\
   raceState (sys gridWorld) = racing /\
   exists start,
     raceStartTime (sys gridWorld) = Some start /\
     getTotalTime gridWorld
     = Some (clock gridWorld (reads gridWorld) - start,
             mkWorld (sys gridWorld) (clock gridWorld) (S (reads gridWorld))
                     (timers gridWorld) (log gridWorld))) /\
  (exists w,
     execAll (countdownToGo ++ threeLaps) raceWorld = Some (tt, w) /\
     clock_positive (clock w) /\
     raceState (sys w) = finished /\
     lapTimes (sys w) = [20000; 18000; 21000] /\
     getTotalTime w = Some (fold_left (fun a b => a + b) (lapTimes (sys w)) 0, w) /\
     fold_left (fun a b => a + b) (lapTimes (sys w)) 0 = 59000).
Proof.
  split.
  - assert (Hd : Driven gridWorld).
    { apply (driven_execAll countdownToGo freshWorld gridWorld);
        [apply Driven_new | reflexivity | apply first_countdown]. }
    split; [exact Hd | ]. split; [exact sampleClock_ok | ]. split; [reflexivity | ].
    apply (total_time_by_race_state gridWorld Hd sampleClock_ok). reflexivity.
  - destruct sample_session as [w1 [w [H1 [H2 [_ [Hl [Hfin [Hc _]]]]]]]].
    pose proof (threeLaps_run w1 w H1 H2) as Hrun.
    assert (Hd : Driven w).
    { apply (driven_execAll (countdownToGo ++ threeLaps) raceWorld w);
        [apply Driven_new | reflexivity | exact Hrun]. }
    assert (Hclk : clock_positive (clock w)) by (rewrite Hc; exact raceClock_ok).
    exists w. split; [exact Hrun | ]. split; [exact Hclk | ]. split; [exact Hfin | ].
    split; [exact Hl | ].
    split; [apply (total_time_by_race_state w Hd Hclk); exact Hfin | ].
    rewrite Hl. cbn [fold_left]. lra.
Defined.

Lemma lap_count_is_lap_times_length_witness :
  exists w w',
    execAll (countdownToGo ++ threeLaps) raceWorld = Some (tt, w) /\
    lapTimes (sys w) = [20000; 18000; 21000] /\
    lapCount (sys w) = 3%nat /\
    reset w = Some (tt, w') /\
    lapTimes (sys w') = [] /\
    lapCount (sys w') = 0%nat.
Proof.
  destruct sample_session as [w1 [w [H1 [H2 [_ [Hl _]]]]]].
  pose proof (threeLaps_run w1 w H1 H2) as Hrun.
  assert (Hr : Reachable w)
    by (apply (reachable_execAll _ raceWorld w (Reachable_new _ _ _ _) Hrun)).
  destruct (reset_restores w) as [w' [Hreset [Hsys _]]].
  assert (Hr' : Reachable w') by (apply (Reachable_step w OpReset w' Hr Hreset)).
  assert (Hl' : lapTimes (sys w') = []) by (rewrite Hsys; reflexivity).
  exists w, w'. split; [exact Hrun | ]. split; [exact Hl | ].
  split; [rewrite (lap_count_is_lap_times_length w Hr), Hl; reflexivity | ].
  split; [exact Hreset | ]. split; [exact Hl' | ].
  rewrite (lap_count_is_lap_times_length w' Hr'), Hl'. reflexivity.
Defined.

Lemma lap_times_are_append_only_witness :
  exists w1 w,
    execAll (countdownToGo ++ lapByUpdates) raceWorld = Some (tt, w1) /\
    lapTimes (sys w1) = [20000] /\
    Forall (fun o => o <> OpReset) lapsTwoAndThree /\
    execAll lapsTwoAndThree w1 = Some (tt, w) /\
    lapTimes (sys w) = [20000; 18000; 21000] /\
    map geometry (checkpoints (sys w)) = map geometry (checkpoints (sys w1)) /\
    (lapCount (sys w1) <= lapCount (sys w))%nat /\
    exists laps,
      lapTimes (sys w) = lapTimes (sys w1) ++ laps /\
      (List.length laps <= List.length lapsTwoAndThree)%nat.
Proof.
  destruct sample_session as [w1 [w [H1 [H2 [[Hl1 _] [Hl _]]]]]].
  assert (Hops : Forall (fun o => o <> OpReset) lapsTwoAndThree)
    by (repeat constructor; discriminate).
  exists w1, w. split; [exact H1 | ]. split; [exact Hl1 | ]. split; [exact Hops | ].
  split; [exact H2 | ]. split; [exact Hl | ].
  apply (lap_times_are_append_only lapsTwoAndThree w1 w Hops H2).
Defined.

Lemma best_lap_is_a_fastest_lap_witness :
  exists w,
    execAll (countdownToGo ++ threeLaps) raceWorld = Some (tt, w) /\
    lapTimes (sys w) = [20000; 18000; 21000] /\
    bestLapTime (sys w) = Some 18000.
Proof.
  destruct sample_session as [w1 [w [H1 [H2 [_ [Hl _]]]]]].
  pose proof (threeLaps_run w1 w H1 H2) as Hrun.
  exists w. split; [exact Hrun | ]. split; [exact Hl | ].
  destruct (best_lap_is_a_fastest_lap w) as [[Hnil _] | [best [Hb [Hin Hle]]]].
  - apply (reachable_execAll _ raceWorld w (Reachable_new _ _ _ _) Hrun).
  - rewrite Hl. repeat constructor; lra.
  - rewrite Hl in Hnil. discriminate Hnil.
  - rewrite Hb. f_equal. rewrite Hl in Hin, Hle.
    pose proof (Hle 18000 (or_intror (or_introl eq_refl))) as H18.
    destruct Hin as [<- | [<- | [<- | []]]]; lra.
Defined.

Lemma laps_are_timed_end_to_end_witness :
  clock_positive raceClock /\
  forallb duringRace threeLaps = true /\
  exists w ends,
    execAll (countdownToGo ++ threeLaps) raceWorld = Some (tt, w) /\
    lapTimes (sys w) = [20000; 18000; 21000] /\
    inOrder 1 ends (reads w) /\
    List.length ends = 3%nat /\
    lapsBetween (raceClock 0) (map raceClock ends) = [20000; 18000; 21000] /\
    lastLapTime (sys w) = last (map (fun n => Some (raceClock n)) ends) None.
Proof.
  split; [exact raceClock_ok | ]. split; [reflexivity | ].
  destruct sample_session as [w1 [w [H1 [H2 [_ [Hl [_ [_ [_ [_ [_ Hcount]]]]]]]]]]].
  pose proof (threeLaps_run w1 w H1 H2) as Hrun.
  destruct (laps_are_timed_end_to_end ovalTrack true true raceClock threeLaps w
              raceClock_ok eq_refl Hrun) as [_ [ends [Hord [Hlen [Hlaps Hlast]]]]].
  exists w, ends. split; [exact Hrun | ]. split; [exact Hl | ]. split; [exact Hord | ].
  split; [ | split; [congruence | exact Hlast]].
  rewrite Hlen. exact Hcount.
Defined.

Lemma finish_time_is_read_after_last_lap_witness :
  clock_positive raceClock /\
  forallb duringRace threeLaps = true /\
  exists w,
    execAll (countdownToGo ++ threeLaps) raceWorld = Some (tt, w) /\
    raceState (sys w) = finished /\
    lapTimes (sys w) = [20000; 18000; 21000] /\
    raceStartTime (sys w) = Some (raceClock 0) /\
    lastLapTime (sys w) = Some (raceClock 5) /\
    filter isRaceFinish (log w)
    = [RaceFinish (raceClock 6 - raceClock 0) (bestLapTime (sys w))] /\
    getTotalTime w = Some (sumLaps (lapTimes (sys w)), w).
Proof.
  split; [exact raceClock_ok | ]. split; [reflexivity | ].
  destruct sample_session as [w1 [w [H1 [H2 [_ [Hl [Hfin [_ [Hr _]]]]]]]]].
  pose proof (threeLaps_run w1 w H1 H2) as Hrun.
  destruct (finish_time_is_read_after_last_lap ovalTrack true raceClock threeLaps w
              raceClock_ok eq_refl Hrun Hfin) as [Hstart [n [Hreads [Hlast [Hlog Htotal]]]]].
  rewrite Hr in Hreads. injection Hreads as <-.
  exists w. repeat split; assumption.
Defined.

Lemma race_time_of_a_running_game_witness :
  clock_positive sampleClock /\
  exists g,
    Game.play sampleClock (repeat (Game.TimerFires 0) 4) = Some (tt, g) /\
    raceState (sys (Game.checkpoints g)) = racing /\
    reads (Game.checkpoints g) = 1%nat /\
    exists start,
      raceStartTime (sys (Game.checkpoints g)) = Some start /\
      getRaceTime (Game.checkpoints g)
      = Some (sampleClock 1 - start,
              mkWorld (sys (Game.checkpoints g)) sampleClock 2
                      (timers (Game.checkpoints g)) (log (Game.checkpoints g))).
Proof.
  split; [exact sampleClock_ok | ].
  destruct (countdown_played sampleClock) as [g1 [E1 Hrun]].
  rewrite first_countdown in Hrun. injection Hrun as Hw.
  destruct (race_time_of_a_running_game sampleClock (repeat (Game.TimerFires 0) 4)
              sampleClock_ok) as [g [E [_ [_ [Hracing _]]]]].
  rewrite E1 in E. injection E as <-.
  exists g1. split; [exact E1 | ].
  assert (Hst : raceState (sys (Game.checkpoints g1)) = racing)
    by (rewrite <- Hw; reflexivity).
  assert (Hr : reads (Game.checkpoints g1) = 1%nat) by (rewrite <- Hw; reflexivity).
  split; [exact Hst | ]. split; [exact Hr | ].
  rewrite Hr in Hracing. apply Hracing. exact Hst.
Defined.

End Instances.
